(** * phlag-js-client: a shallow embedding of the caching flag client

    The development follows the three source modules:
    - [cache.ts]       the durable cache store (derive / read / write / delete),
    - [Client.ts]      the HTTP transport and its error classification,
    - [PhlagClient.ts] the flag client that owns the in-memory snapshot.

    Asynchronous code is written in a state-and-exception monad over a
    [World] that holds everything the code can touch: the file system, the
    clock, the network, the console and the heap of client instances. An
    awaited call returns, throws, or never settles. Numbers that the code
    compares are binary64 floats, with the rounding of every operation
    ([Binary64]); timers have the delay [setTimeout] gives them. *)

From Stdlib Require Import ZArith QArith Qfield Qround Qpower Lqa Ascii String.
From stdpp Require Import gmap strings list pretty.

Set Warnings "-register-all".
Open Scope string_scope.
Open Scope Z_scope.

(** ** JavaScript values *)

(** The values the code handles at run time: what [JSON.parse] can build,
    [undefined] for a missing property, and the members a plain object
    inherits from [Object.prototype] (its functions, and the prototype
    itself for [__proto__]), kept only by name. Numbers are kept as
    rationals. *)
Inductive jsval : Type :=
| VUndefined
| VNull
| VBool (b : bool)
| VNum (x : Q)
| VStr (s : string)
| VArr (xs : list jsval)
| VObj (props : gmap string jsval)
| VBuiltin (name : string).

(** [typeof data === 'object' && data !== null && !Array.isArray(data)] *)
Definition is_plain_object (v : jsval) : bool :=
  match v with
  | VObj _ => true
  | _ => false
  end.

(** JavaScript truthiness, as used by [if (x)] and [a && b]. *)
Definition truthy (v : jsval) : bool :=
  match v with
  | VUndefined | VNull => false
  | VBool b => b
  | VNum x => negb (Qeq_bool x 0)
  | VStr s => negb (String.eqb s "")
  | VArr _ | VObj _ | VBuiltin _ => true
  end.

(** [v === null] *)
Definition is_null (v : jsval) : bool :=
  match v with
  | VNull => true
  | _ => false
  end.

(** [a ?? b] *)
Definition nullish_coalesce (a b : jsval) : jsval :=
  match a with
  | VUndefined | VNull => b
  | _ => a
  end.

(** The property names every plain object inherits from [Object.prototype]. *)
Definition Object_prototype : list string :=
  [ "constructor"; "hasOwnProperty"; "isPrototypeOf"; "propertyIsEnumerable";
    "toLocaleString"; "toString"; "valueOf"; "__proto__";
    "__defineGetter__"; "__defineSetter__"; "__lookupGetter__"; "__lookupSetter__" ].

Definition inherited (name : string) : bool :=
  bool_decide (name ∈ Object_prototype).

(** ** JavaScript numbers *)

(** A [number] is a binary64 float. The finite ones are kept by their
    value, a rational; an operation computes the exact result and rounds it
    to the nearest float, ties to the even significand, and to an infinity
    from half a unit in the last place above the largest float on. Operands
    are finite floats here, so no operation yields [NaN]. *)
Module Binary64.
Local Open Scope Q_scope.

Inductive float : Type :=
| Finite (x : Q)
| PlusInfinity
| MinusInfinity.

Definition pow2 (e : Z) : Q := 2 ^ e.

(** [floor (log2 x)], for a positive [x]: the difference of the bit lengths
    of numerator and denominator, or one less. *)
Definition ilog2 (x : Q) : Z :=
  let k := (Z.log2 (Qnum x) - Z.log2 (Zpos (Qden x)))%Z in
  if Qle_bool (pow2 k) x then k else (k - 1)%Z.

(** The exponent of the unit in the last place at [x]: 52 binary places
    below the leading one, and never below that of the subnormals. *)
Definition ulp_exponent (x : Q) : Z := Z.max (ilog2 x - 52) (-1074).

(** The nearest integer, ties to even. *)
Definition round_half_even (x : Q) : Z :=
  let f := Qfloor x in
  match Qcompare (x - inject_Z f) (1 # 2) with
  | Lt => f
  | Gt => (f + 1)%Z
  | Eq => if Z.even f then f else (f + 1)%Z
  end.

(** The multiple of the unit in the last place nearest to a positive [x]. *)
Definition nearest (x : Q) : Q :=
  if Qle_bool x 0 then 0
  else
    let ulp := pow2 (ulp_exponent x) in
    inject_Z (round_half_even (x / ulp)) * ulp.

Definition nearest_signed (x : Q) : Q :=
  if Qle_bool 0 x then nearest x else - nearest (- x).

(** The float an exact result is rounded to. *)
Definition round (x : Q) : float :=
  let y := nearest_signed x in
  if Qle_bool (pow2 1024) y then PlusInfinity
  else if Qle_bool y (- pow2 1024) then MinusInfinity
  else Finite y.

(** [a * b] and [a - b] on finite floats. *)
Definition mul (x y : Q) : float := round (x * y).
Definition sub (x y : Q) : float := round (x - y).

(** [a <= b], [a >= b] and [a < b] *)
Definition leb (a b : float) : bool :=
  match a, b with
  | MinusInfinity, _ => true
  | _, PlusInfinity => true
  | Finite x, Finite y => Qle_bool x y
  | _, _ => false
  end.
Definition geb (a b : float) : bool := leb b a.
Definition ltb (a b : float) : bool := negb (leb b a).

(** [x] is a float: rounding leaves it as it is. *)
Definition is_float (x : Q) : bool :=
  match round x with
  | Finite y => Qeq_bool y x
  | _ => false
  end.

End Binary64.

(** ** Exceptions *)

(** The five classes of [src/exceptions]. *)
Inductive ErrorKind : Type :=
| PhlagError
| AuthenticationError
| InvalidFlagError
| InvalidEnvironmentError
| NetworkError.

(** What a [throw] can carry. [EPhlag] is [PhlagError] or one of its
    subclasses, with the [message] and [code] its constructor stores and,
    for a [NetworkError], the [cause] (name and message of the underlying
    error); [EError] is any other [Error] instance by name and message (a
    [TypeError], a file-system error, the [AbortError] an aborted [fetch]
    rejects with); [ENonError] is a thrown value that is not an [Error]. *)
Inductive JsError : Type :=
| EPhlag (kind : ErrorKind) (message : string) (code : option Z)
    (cause : option (string * string))
| EError (name message : string)
| ENonError.

(** [new AuthenticationError(m)] and its siblings: each subclass passes its
    own code to [PhlagError]'s constructor. *)
Definition new_PhlagError (message : string) (code : Z) : JsError :=
  EPhlag PhlagError message (Some code) None.
Definition new_AuthenticationError (message : string) : JsError :=
  EPhlag AuthenticationError message (Some 401) None.
Definition new_InvalidFlagError (message : string) : JsError :=
  EPhlag InvalidFlagError message (Some 404) None.
Definition new_InvalidEnvironmentError (message : string) : JsError :=
  EPhlag InvalidEnvironmentError message (Some 404) None.
Definition new_NetworkError (message : string) (cause : option (string * string)) : JsError :=
  EPhlag NetworkError message None cause.

(** [error instanceof PhlagError] *)
Definition instanceof_PhlagError (e : JsError) : bool :=
  match e with
  | EPhlag _ _ _ _ => true
  | _ => false
  end.

(** [error instanceof Error] *)
Definition instanceof_Error (e : JsError) : bool :=
  match e with
  | ENonError => false
  | _ => true
  end.

Definition error_name (e : JsError) : string :=
  match e with
  | EPhlag PhlagError _ _ _ => "PhlagError"
  | EPhlag AuthenticationError _ _ _ => "AuthenticationError"
  | EPhlag InvalidFlagError _ _ _ => "InvalidFlagError"
  | EPhlag InvalidEnvironmentError _ _ _ => "InvalidEnvironmentError"
  | EPhlag NetworkError _ _ _ => "NetworkError"
  | EError name _ => name
  | ENonError => ""
  end.

Definition error_message (e : JsError) : string :=
  match e with
  | EPhlag _ m _ _ => m
  | EError _ m => m
  | ENonError => ""
  end.

(** The failure kind of a thrown value, when it is one of the five. *)
Definition kind_of (e : JsError) : option ErrorKind :=
  match e with
  | EPhlag k _ _ _ => Some k
  | _ => None
  end.

(** [error.code]: the HTTP status a [PhlagError] carries; [undefined] for
    a [NetworkError] and for every other thrown value. *)
Definition error_code (e : JsError) : option Z :=
  match e with
  | EPhlag _ _ code _ => code
  | _ => None
  end.

(** How an awaited call ends: it returns, it throws, or its promise never
    settles. *)
Inductive Result (A : Type) : Type :=
| Ok (a : A)
| Throw (e : JsError)
| Hang.
Arguments Ok {A} a.
Arguments Throw {A} e.
Arguments Hang {A}.

(** ** The runtime *)

(** What the runtime provides and the repository only calls: whether
    [require] is defined where [cache.ts] runs (it is in a CommonJS build on
    Node; it is not in an ES-module build or in a browser), [crypto]'s MD5
    digest in hex and [os.tmpdir()], which [require] gives access to,
    [process.pid], the test behind [isNodeEnvironment], [JSON.parse] ([None]
    for a [SyntaxError]), [JSON.stringify], and property lookup on values
    other than plain objects (strings, numbers, booleans and arrays, through
    their own prototypes). *)
Class Runtime : Type := {
  has_require : bool;
  md5_hex : string -> string;
  tmpdir : string;
  pid : Z;
  isNode : bool;
  JSON_parse : string -> option jsval;
  JSON_stringify : jsval -> string;
  member : jsval -> string -> jsval;
}.

(** ** The world *)

(** A file: its content and [stats.mtimeMs]. *)
Record File : Type := {
  contents : string;
  mtimeMs : Q;
}.

(** The calls into [fs/promises]. *)
Inductive FsOp : Type :=
| OpStat (path : string)
| OpReadFile (path : string)
| OpWriteFile (path : string)
| OpUnlink (path : string).

(** An injected I/O failure (permissions, disk full, ...): the call rejects
    with [message]; a failed [writeFile] may leave [left_behind] at its
    path. The three functions that use the file system take [fs/promises]
    from [require] inside the [try] that holds their calls: where [require]
    is not defined, that is a world whose every call fails with the message
    [require is not defined] and leaves nothing behind. *)
Inductive Fault : Type :=
| NoFault
| Fails (message : string) (left_behind : option string).

(** One HTTP request: the URL and the [Authorization] header. *)
Record Request : Type := {
  url : string;
  authorization : string;
}.

(** [response.text()]: the body, complete [after] milliseconds from the
    arrival of the response, a rejection at that time, or a read that
    nothing ends. A runtime that gives up on a silent body by itself, as
    Node's [fetch] does with a [TypeError] saying [terminated], makes of it
    a [BodyFails] at the time it gives up. *)
Inductive Body : Type :=
| BodyText (after : Z) (text : string)
| BodyFails (after : Z) (name message : string)
| BodyStalls.

Record Response : Type := {
  status : Z;
  body : Body;
}.

(** [response.ok]: the status is in the range 200-299. *)
Definition Response_ok (r : Response) : bool :=
  (200 <=? status r) && (status r <=? 299).

(** What the network does with a request: a response or a rejection after
    [latency] milliseconds, or nothing at all. *)
Inductive FetchOutcome : Type :=
| Responds (latency : Z) (r : Response)
| Rejects (latency : Z) (name message : string)
| Stalls.

(** [Client]'s fields. *)
Record Client : Type := {
  client_baseUrl : string;
  client_apiKey : string;
  client_timeout : Z;
}.

(** [PhlagClientOptions]; an optional field left out is [None]. *)
Record PhlagClientOptions : Type := {
  opt_baseUrl : string;
  opt_apiKey : string;
  opt_environment : string;
  opt_timeout : option Z;
  opt_cache : option bool;
  opt_cacheFile : option string;
  opt_cacheTtl : option Q;
}.

(** [PhlagClient]'s fields; [flagCache] is the only one that is not
    [readonly], and [VNull] is its initial [null]. *)
Record PhlagClient : Type := {
  client : Client;
  environment : string;
  baseUrl : string;
  apiKey : string;
  timeout : Z;
  cacheEnabled : bool;
  cacheFile : string;
  cacheTtl : Q;
  useFileCache : bool;
  flagCache : jsval;
}.

(** References to client instances. *)
Definition loc : Type := positive.

(** Everything a call can touch. [now] is the clock, in milliseconds: a
    call reads it and stamps the files it writes at one instant, and time
    passes between calls ([elapse]). *)
Record World : Type := {
  fs : gmap string File;
  faults : FsOp -> Fault;
  now : Z;
  net : Request -> FetchOutcome;
  fetchLog : list Request;
  console : list (string * string);
  heap : gmap loc PhlagClient;
}.

Definition set_fs (f : gmap string File) (w : World) : World :=
  {| fs := f; faults := faults w; now := now w; net := net w;
     fetchLog := fetchLog w; console := console w; heap := heap w |}.

Definition set_fetchLog (l : list Request) (w : World) : World :=
  {| fs := fs w; faults := faults w; now := now w; net := net w;
     fetchLog := l; console := console w; heap := heap w |}.

Definition set_console (c : list (string * string)) (w : World) : World :=
  {| fs := fs w; faults := faults w; now := now w; net := net w;
     fetchLog := fetchLog w; console := c; heap := heap w |}.

Definition set_heap (h : gmap loc PhlagClient) (w : World) : World :=
  {| fs := fs w; faults := faults w; now := now w; net := net w;
     fetchLog := fetchLog w; console := console w; heap := h |}.

(** Time passes between two calls: the clock is [ms] milliseconds later and
    nothing else has changed. *)
Definition elapse (ms : Z) (w : World) : World :=
  {| fs := fs w; faults := faults w; now := now w + ms; net := net w;
     fetchLog := fetchLog w; console := console w; heap := heap w |}.

(** ** The monad of asynchronous code *)

(** A computation runs on a world and returns, throws or hangs. [await] is
    sequencing: one caller runs at a time, and nothing runs after a call
    that hangs. *)
Definition M (A : Type) : Type := World -> Result A * World.

Definition ret {A : Type} (a : A) : M A := fun w => (Ok a, w).

Definition throw {A : Type} (e : JsError) : M A := fun w => (Throw e, w).

Definition bind {A B : Type} (m : M A) (k : A -> M B) : M B :=
  fun w =>
    match m w with
    | (Ok a, w') => k a w'
    | (Throw e, w') => (Throw e, w')
    | (Hang, w') => (Hang, w')
    end.

(** A result that needs no world: a pure expression that may throw. *)
Definition lift {A : Type} (r : Result A) : M A := fun w => (r, w).

(** [try { m } catch (e) { h e }] *)
Definition try_catch {A : Type} (m : M A) (h : JsError -> M A) : M A :=
  fun w =>
    match m w with
    | (Ok a, w') => (Ok a, w')
    | (Throw e, w') => h e w'
    | (Hang, w') => (Hang, w')
    end.

Notation "x <- m ;; k" := (bind m (fun x => k))
  (at level 100, m at next level, right associativity).
Notation "m ;;; k" := (bind m (fun _ => k))
  (at level 100, right associativity).

(** *** fs/promises, Date and console *)

Definition fs_error (message : string) : JsError := EError "Error" message.

Definition ENOENT (syscall path : string) : JsError :=
  fs_error ("ENOENT: no such file or directory, " +:+ syscall +:+ " '" +:+ path +:+ "'").

Definition fs_stat (path : string) : M File :=
  fun w =>
    match faults w (OpStat path) with
    | Fails msg _ => (Throw (fs_error msg), w)
    | NoFault =>
        match fs w !! path with
        | Some f => (Ok f, w)
        | None => (Throw (ENOENT "stat" path), w)
        end
    end.

Definition fs_readFile (path : string) : M string :=
  fun w =>
    match faults w (OpReadFile path) with
    | Fails msg _ => (Throw (fs_error msg), w)
    | NoFault =>
        match fs w !! path with
        | Some f => (Ok (contents f), w)
        | None => (Throw (ENOENT "open" path), w)
        end
    end.

(** The file a [writeFile] leaves: last modified at the time of the write. *)
Definition written (data : string) (w : World) : File :=
  {| contents := data; mtimeMs := inject_Z (now w) |}.

Definition fs_writeFile (path data : string) : M unit :=
  fun w =>
    match faults w (OpWriteFile path) with
    | Fails msg None => (Throw (fs_error msg), w)
    | Fails msg (Some part) =>
        (Throw (fs_error msg), set_fs (<[path := written part w]> (fs w)) w)
    | NoFault => (Ok tt, set_fs (<[path := written data w]> (fs w)) w)
    end.

Definition fs_unlink (path : string) : M unit :=
  fun w =>
    match faults w (OpUnlink path) with
    | Fails msg _ => (Throw (fs_error msg), w)
    | NoFault =>
        match fs w !! path with
        | Some _ => (Ok tt, set_fs (delete path (fs w)) w)
        | None => (Throw (ENOENT "unlink" path), w)
        end
    end.

(** [Date.now()] *)
Definition Date_now : M Z := fun w => (Ok (now w), w).

Definition console_error (a b : string) : M unit :=
  fun w => (Ok tt, set_console (console w ++ [(a, b)]) w).

(** ** cache.ts: the durable cache store *)

Section Cache.
Context {rt : Runtime}.

(** [require(module)], called where nothing catches its failure. *)
Definition ReferenceError : JsError := EError "ReferenceError" "require is not defined".

(** [generateCacheFilename]: [if (customPath)] is false for a path left out
    and for the empty string; only then are [crypto] and [os] required. *)
Definition generateCacheFilename
    (baseUrl environment : string) (customPath : option string) : Result string :=
  let derived :=
    if has_require then
      let hash := md5_hex (baseUrl +:+ "|" +:+ environment) in
      Ok (tmpdir +:+ "/phlag_cache_" +:+ hash +:+ ".json")
    else Throw ReferenceError in
  match customPath with
  | Some p => if String.eqb p "" then derived else Ok p
  | None => derived
  end.

(** [JSON.parse] as a computation: a [SyntaxError] is thrown. *)
Definition JSON_parse_M (text : string) : M jsval :=
  match JSON_parse text with
  | Some v => ret v
  | None => throw (EError "SyntaxError" "Unexpected token in JSON")
  end.

(** [loadCacheFromFile]; [VNull] is the [null] it returns. *)
Definition loadCacheFromFile (cacheFile : string) (cacheTtl : Q) : M jsval :=
  try_catch
    (stats <- fs_stat cacheFile ;;
     let mtime := mtimeMs stats in
     now <- Date_now ;;
     if Binary64.geb (Binary64.sub (inject_Z now) mtime) (Binary64.mul cacheTtl 1000)
     then ret VNull
     else
       contents <- fs_readFile cacheFile ;;
       data <- JSON_parse_M contents ;;
       if is_plain_object data then ret data else ret VNull)
    (fun _ => ret VNull).

(** [writeCacheToFile] *)
Definition writeCacheToFile (cacheFile : string) (data : jsval) : M unit :=
  try_catch
    (let tempFile := cacheFile +:+ "." +:+ pretty pid +:+ ".tmp" in
     let contents := JSON_stringify data in
     fs_writeFile tempFile contents ;;;
     try_catch (fs_unlink cacheFile) (fun _ => ret tt) ;;;
     fs_writeFile cacheFile contents ;;;
     try_catch (fs_unlink tempFile) (fun _ => ret tt))
    (fun error =>
       if instanceof_Error error
       then console_error ("Phlag: Unable to write cache file: " +:+ cacheFile)
                          (error_message error)
       else ret tt).

(** [deleteCacheFile] *)
Definition deleteCacheFile (cacheFile : string) : M unit :=
  try_catch (fs_unlink cacheFile) (fun _ => ret tt).

(** [isNodeEnvironment] *)
Definition isNodeEnvironment : bool := isNode.

End Cache.

(** ** Client.ts: the transport *)

(** [baseUrl.replace(/\/$/, '')]: one slash at the very end is dropped. *)
Fixpoint strip_trailing_slash (s : string) : string :=
  match s with
  | EmptyString => EmptyString
  | String c EmptyString => if Ascii.eqb c "/"%char then EmptyString else s
  | String c rest => String c (strip_trailing_slash rest)
  end.

(** [new Client(baseUrl, apiKey, timeout)] *)
Definition new_Client (baseUrl apiKey : string) (timeout : Z) : Client :=
  {| client_baseUrl := strip_trailing_slash baseUrl;
     client_apiKey := apiKey;
     client_timeout := timeout |}.

(** [setTimeout(f, delay)]: the timer fires after [delay] milliseconds
    when that is between 1 and 2147483647, and after 1 millisecond
    otherwise. *)
Definition TIMEOUT_MAX : Z := 2147483647.

Definition setTimeout_delay (delay : Z) : Z :=
  if (1 <=? delay) && (delay <=? TIMEOUT_MAX) then delay else 1.

(** [fetch(url, { signal })] raced against
    [setTimeout(() => controller.abort(), timeout)]: what the network does
    before the timer fires settles the call, otherwise the abort rejects it
    with an [AbortError]. Every call is recorded in [fetchLog]. *)
Definition AbortError : JsError := EError "AbortError" "This operation was aborted".

Definition fetch (req : Request) (timeout : Z) : M Response :=
  fun w =>
    let w' := set_fetchLog (fetchLog w ++ [req]) w in
    match net w req with
    | Responds latency r =>
        if latency <? setTimeout_delay timeout then (Ok r, w')
        else (Throw AbortError, w')
    | Rejects latency name message =>
        if latency <? setTimeout_delay timeout then (Throw (EError name message), w')
        else (Throw AbortError, w')
    | Stalls => (Throw AbortError, w')
    end.

(** [response.text()] *)
Definition response_text (r : Response) : M string :=
  match body r with
  | BodyText _ t => ret t
  | BodyFails _ name message => throw (EError name message)
  | BodyStalls => fun w => (Hang, w)
  end.

Section Transport.
Context {rt : Runtime}.

(** [handleErrorResponse]: it never returns (its type is [Promise<never>]). *)
Definition handleErrorResponse (response : Response) (endpoint : string) : M jsval :=
  let statusCode := status response in
  if statusCode =? 401 then throw (new_AuthenticationError "Invalid API key")
  else if statusCode =? 404 then
    if String.prefix "flag/" endpoint
    then throw (new_InvalidFlagError ("Flag not found: " +:+ endpoint))
    else throw (new_InvalidEnvironmentError ("Environment not found: " +:+ endpoint))
  else
    let errorMessage := "HTTP error " +:+ pretty statusCode in
    errorMessage <-
      try_catch
        (text <- response_text response ;;
         if String.eqb text "" then ret errorMessage
         else ret (errorMessage +:+ ": " +:+ text))
        (fun _ => ret errorMessage) ;;
    throw (new_PhlagError errorMessage statusCode).

(** [Client.get]; [returnObject] is the overload's second argument. *)
Definition Client_get (c : Client) (endpoint : string) (returnObject : bool) : M jsval :=
  try_catch
    (let url := client_baseUrl c +:+ "/" +:+ endpoint in
     response <-
       fetch {| url := url; authorization := "Bearer " +:+ client_apiKey c |}
             (client_timeout c) ;;
     (if negb (Response_ok response)
      then handleErrorResponse response endpoint
      else ret VUndefined) ;;;
     text <- response_text response ;;
     if String.eqb text "" then ret VNull
     else
       match JSON_parse text with
       | Some parsed =>
           if returnObject && is_plain_object parsed then ret parsed
           else ret parsed
       | None => ret (VStr text)
       end)
    (fun error =>
       if instanceof_PhlagError error then throw error
       else if instanceof_Error error && String.eqb (error_name error) "AbortError"
       then throw (new_NetworkError
                     ("Request timeout after " +:+ pretty (client_timeout c) +:+ "ms")
                     None)
       else if instanceof_Error error
       then throw (new_NetworkError
                     ("Network error: " +:+ error_message error)
                     (Some (error_name error, error_message error)))
       else throw (new_NetworkError "Unknown network error" None)).

End Transport.

(** ** PhlagClient.ts: the flag client *)

(** Reading and writing [this]. *)
Definition get_this (this : loc) : M PhlagClient :=
  fun w =>
    match heap w !! this with
    | Some c => (Ok c, w)
    | None => (Throw (EError "ReferenceError" "no such instance"), w)
    end.

Definition with_flagCache (v : jsval) (c : PhlagClient) : PhlagClient :=
  {| client := client c; environment := environment c; baseUrl := baseUrl c;
     apiKey := apiKey c; timeout := timeout c; cacheEnabled := cacheEnabled c;
     cacheFile := cacheFile c; cacheTtl := cacheTtl c;
     useFileCache := useFileCache c; flagCache := v |}.

(** [this.flagCache = v] *)
Definition set_flagCache (this : loc) (v : jsval) : M unit :=
  fun w =>
    match heap w !! this with
    | Some c => (Ok tt, set_heap (<[this := with_flagCache v c]> (heap w)) w)
    | None => (Throw (EError "ReferenceError" "no such instance"), w)
    end.

Section FlagClient.
Context {rt : Runtime}.

(** [obj[name]]: reading a property of [null] or [undefined] throws a
    [TypeError]; a plain object answers with its own property, else with the
    member of that name inherited from [Object.prototype], else with
    [undefined]; other values answer through the runtime. *)
Definition get_property (obj : jsval) (name : string) : Result jsval :=
  match obj with
  | VNull =>
      Throw (EError "TypeError"
               ("Cannot read properties of null (reading '" +:+ name +:+ "')"))
  | VUndefined =>
      Throw (EError "TypeError"
               ("Cannot read properties of undefined (reading '" +:+ name +:+ "')"))
  | VObj props =>
      match props !! name with
      | Some v => Ok v
      | None => if inherited name then Ok (VBuiltin name) else Ok VUndefined
      end
  | _ => Ok (member obj name)
  end.

(** The constructor's body: the fields of the new instance. The cache
    location is the last assignment, and the only step that can throw. *)
Definition PhlagClient_constructor (options : PhlagClientOptions) : Result PhlagClient :=
  let baseUrl := opt_baseUrl options in
  let apiKey := opt_apiKey options in
  let environment := opt_environment options in
  let timeout := default 10000 (opt_timeout options) in
  let cacheEnabled := default false (opt_cache options) in
  let cacheTtl := default (300 : Q) (opt_cacheTtl options) in
  match generateCacheFilename baseUrl environment (opt_cacheFile options) with
  | Ok cacheFile =>
      Ok {| client := new_Client baseUrl apiKey timeout;
            environment := environment;
            baseUrl := baseUrl;
            apiKey := apiKey;
            timeout := timeout;
            cacheEnabled := cacheEnabled;
            cacheFile := cacheFile;
            cacheTtl := cacheTtl;
            useFileCache := cacheEnabled && isNodeEnvironment;
            flagCache := VNull |}
  | Throw e => Throw e
  | Hang => Hang
  end.

(** [new PhlagClient(options)]: a fresh instance with those fields, or the
    constructor's exception and no instance. *)
Definition new_PhlagClient (options : PhlagClientOptions) : M loc :=
  fun w =>
    match PhlagClient_constructor options with
    | Ok c =>
        let l := fresh (dom (heap w)) in
        (Ok l, set_heap (<[l := c]> (heap w)) w)
    | Throw e => (Throw e, w)
    | Hang => (Hang, w)
    end.

(** [loadCache] *)
Definition loadCache (this : loc) : M unit :=
  c <- get_this this ;;
  fromFile <-
    (if useFileCache c
     then
       cached <- loadCacheFromFile (cacheFile c) (cacheTtl c) ;;
       if negb (is_null cached)
       then set_flagCache this cached ;;; ret true
       else ret false
     else ret false) ;;
  if fromFile : bool then ret tt
  else
    let endpoint := "all-flags/" +:+ environment c in
    fetched <- Client_get (client c) endpoint true ;;
    set_flagCache this fetched ;;;
    if useFileCache c && truthy fetched
    then writeCacheToFile (cacheFile c) fetched
    else ret tt.

(** [getFlag] *)
Definition getFlag (this : loc) (name : string) : M jsval :=
  c <- get_this this ;;
  if cacheEnabled c then
    (if is_null (flagCache c) then loadCache this else ret tt) ;;;
    c <- get_this this ;;
    v <- lift (get_property (flagCache c) name) ;;
    ret (nullish_coalesce v VNull)
  else
    let endpoint := "flag/" +:+ environment c +:+ "/" +:+ name in
    Client_get (client c) endpoint false.

(** [isEnabled]: [value === true] *)
Definition isEnabled (this : loc) (name : string) : M bool :=
  value <- getFlag this name ;;
  ret match value with
      | VBool true => true
      | _ => false
      end.

(** [getEnvironment], [isCacheEnabled], [getCacheFile], [getCacheTtl] *)
Definition getEnvironment (this : loc) : M string :=
  c <- get_this this ;; ret (environment c).

Definition isCacheEnabled (this : loc) : M bool :=
  c <- get_this this ;; ret (cacheEnabled c).

Definition getCacheFile (this : loc) : M string :=
  c <- get_this this ;; ret (cacheFile c).

Definition getCacheTtl (this : loc) : M Q :=
  c <- get_this this ;; ret (cacheTtl c).

(** [withEnvironment]: the options name no [cacheFile]. *)
Definition withEnvironment (this : loc) (environment : string) : M loc :=
  c <- get_this this ;;
  new_PhlagClient
    {| opt_baseUrl := baseUrl c;
       opt_apiKey := apiKey c;
       opt_environment := environment;
       opt_timeout := Some (timeout c);
       opt_cache := Some (cacheEnabled c);
       opt_cacheFile := None;
       opt_cacheTtl := Some (cacheTtl c) |}.

(** [warmCache] *)
Definition warmCache (this : loc) : M unit :=
  c <- get_this this ;;
  if cacheEnabled c then loadCache this else ret tt.

(** [clearCache] *)
Definition clearCache (this : loc) : M unit :=
  c <- get_this this ;;
  if cacheEnabled c then
    set_flagCache this VNull ;;;
    if useFileCache c then deleteCacheFile (cacheFile c) else ret tt
  else ret tt.

End FlagClient.

(** ** The write protocol, one [await] at a time *)

(** Every [await] of [writeCacheToFile] is a point where another process
    can read the cache location, or where this one can die. [write_steps]
    lists the four calls between them; [run_steps] runs a prefix of them. *)
Inductive FsStep : Type :=
| StepWriteFile (path data : string)
| StepUnlinkIgnoringErrors (path : string).

Definition run_step (s : FsStep) : M unit :=
  match s with
  | StepWriteFile path data => fs_writeFile path data
  | StepUnlinkIgnoringErrors path => try_catch (fs_unlink path) (fun _ => ret tt)
  end.

Fixpoint run_steps (steps : list FsStep) : M unit :=
  match steps with
  | [] => ret tt
  | s :: rest => run_step s ;;; run_steps rest
  end.

Definition write_steps {rt : Runtime} (cacheFile : string) (data : jsval) : list FsStep :=
  let tempFile := cacheFile +:+ "." +:+ pretty pid +:+ ".tmp" in
  let contents := JSON_stringify data in
  [ StepWriteFile tempFile contents;
    StepUnlinkIgnoringErrors cacheFile;
    StepWriteFile cacheFile contents;
    StepUnlinkIgnoringErrors tempFile ].

(** What a reader of [path] finds in a world. *)
Definition observe (path : string) (w : World) : option string :=
  contents <$> fs w !! path.

(** ** Sequences of calls on one instance *)

Inductive Call : Type :=
| CallGetFlag (name : string)
| CallIsEnabled (name : string)
| CallWarmCache
| CallClearCache.

Definition run_call {rt : Runtime} (this : loc) (c : Call) (w : World) : World :=
  match c with
  | CallGetFlag name => snd (getFlag this name w)
  | CallIsEnabled name => snd (isEnabled this name w)
  | CallWarmCache => snd (warmCache this w)
  | CallClearCache => snd (clearCache this w)
  end.

Definition run_calls {rt : Runtime} (this : loc) (calls : list Call) (w : World) : World :=
  fold_left (fun w c => run_call this c w) calls w.

(** The Transport calls issued by a computation started in [w]. *)
Definition transport_calls {A : Type} (m : M A) (w : World) : nat :=
  (length (fetchLog (snd (m w))) - length (fetchLog w))%nat.

(** ** MD5 *)

(** The digest Node's [crypto] computes (RFC 1321), on the bytes of the
    string: 32-bit words are numbers below [2^32], kept there by
    [mask32]. *)
Module MD5.
Local Open Scope N_scope.

Definition mask32 (x : N) : N := N.land x 0xffffffff.
Definition add32 (x y : N) : N := mask32 (x + y).
Definition not32 (x : N) : N := N.lxor x 0xffffffff.
Definition rotl32 (x s : N) : N :=
  mask32 (N.lor (N.shiftl x s) (N.shiftr x (32 - s))).

Definition F (x y z : N) : N := N.lor (N.land x y) (N.land (not32 x) z).
Definition G (x y z : N) : N := N.lor (N.land x z) (N.land y (not32 z)).
Definition H (x y z : N) : N := N.lxor x (N.lxor y z).
Definition I (x y z : N) : N := N.lxor y (N.lor x (not32 z)).

(** [floor(2^32 * abs(sin(i + 1)))] *)
Definition K : list N :=
  [ 0xd76aa478; 0xe8c7b756; 0x242070db; 0xc1bdceee; 0xf57c0faf; 0x4787c62a;
    0xa8304613; 0xfd469501; 0x698098d8; 0x8b44f7af; 0xffff5bb1; 0x895cd7be;
    0x6b901122; 0xfd987193; 0xa679438e; 0x49b40821; 0xf61e2562; 0xc040b340;
    0x265e5a51; 0xe9b6c7aa; 0xd62f105d; 0x02441453; 0xd8a1e681; 0xe7d3fbc8;
    0x21e1cde6; 0xc33707d6; 0xf4d50d87; 0x455a14ed; 0xa9e3e905; 0xfcefa3f8;
    0x676f02d9; 0x8d2a4c8a; 0xfffa3942; 0x8771f681; 0x6d9d6122; 0xfde5380c;
    0xa4beea44; 0x4bdecfa9; 0xf6bb4b60; 0xbebfbc70; 0x289b7ec6; 0xeaa127fa;
    0xd4ef3085; 0x04881d05; 0xd9d4d039; 0xe6db99e5; 0x1fa27cf8; 0xc4ac5665;
    0xf4292244; 0x432aff97; 0xab9423a7; 0xfc93a039; 0x655b59c3; 0x8f0ccc92;
    0xffeff47d; 0x85845dd1; 0x6fa87e4f; 0xfe2ce6e0; 0xa3014314; 0x4e0811a1;
    0xf7537e82; 0xbd3af235; 0x2ad7d2bb; 0xeb86d391 ].

Definition shifts : list N :=
  [ 7; 12; 17; 22; 7; 12; 17; 22; 7; 12; 17; 22; 7; 12; 17; 22;
    5; 9; 14; 20; 5; 9; 14; 20; 5; 9; 14; 20; 5; 9; 14; 20;
    4; 11; 16; 23; 4; 11; 16; 23; 4; 11; 16; 23; 4; 11; 16; 23;
    6; 10; 15; 21; 6; 10; 15; 21; 6; 10; 15; 21; 6; 10; 15; 21 ].

Definition state : Type := (N * N * N * N)%type.

Definition step (block : list N) (st : state) (i : nat) : state :=
  let '(a, b, c, d) := st in
  let '(f, g) :=
    if (i <? 16)%nat then (F b c d, i)
    else if (i <? 32)%nat then (G b c d, (5 * i + 1) mod 16)%nat
    else if (i <? 48)%nat then (H b c d, (3 * i + 5) mod 16)%nat
    else (I b c d, (7 * i) mod 16)%nat in
  let sum := add32 (add32 (add32 a f) (nth i K 0)) (nth g block 0) in
  (d, add32 b (rotl32 sum (nth i shifts 0)), b, c).

Definition compress (st : state) (block : list N) : state :=
  let '(a0, b0, c0, d0) := st in
  let '(a, b, c, d) := fold_left (step block) (seq 0 64) st in
  (add32 a0 a, add32 b0 b, add32 c0 c, add32 d0 d).

(** Little-endian bytes of a number, and back. *)
Fixpoint le_bytes (n : nat) (x : N) : list N :=
  match n with
  | O => []
  | S n => N.land x 0xff :: le_bytes n (N.shiftr x 8)
  end.

Fixpoint le_words (fuel : nat) (bytes : list N) : list N :=
  match fuel, bytes with
  | S fuel, b0 :: b1 :: b2 :: b3 :: rest =>
      (b0 + N.shiftl b1 8 + N.shiftl b2 16 + N.shiftl b3 24) :: le_words fuel rest
  | _, _ => []
  end.

Fixpoint blocks (fuel : nat) (words : list N) : list (list N) :=
  match fuel, words with
  | S fuel, _ :: _ => firstn 16 words :: blocks fuel (skipn 16 words)
  | _, _ => []
  end.

Definition pad (message : list N) : list N :=
  let len := List.length message in
  let zeros := ((55 + 64 - len mod 64) mod 64)%nat in
  message ++ [0x80] ++ repeat 0 zeros ++ le_bytes 8 (8 * N.of_nat len).

Definition digest (message : list N) : list N :=
  let padded := pad message in
  let words := le_words (List.length padded) padded in
  let '(a, b, c, d) :=
    fold_left compress (blocks (List.length words) words)
      (0x67452301, 0xefcdab89, 0x98badcfe, 0x10325476) in
  le_bytes 4 a ++ le_bytes 4 b ++ le_bytes 4 c ++ le_bytes 4 d.

Definition hex_digit (x : N) : ascii :=
  ascii_of_N (if x <? 10 then 48 + x else 87 + x).

Definition hex (bytes : list N) : string :=
  fold_right (fun b s => String (hex_digit (N.shiftr b 4)) (String (hex_digit (N.land b 0xf)) s))
    EmptyString bytes.

Definition bytes_of_string (s : string) : list N :=
  List.map N_of_ascii (list_ascii_of_string s).

(** [crypto.createHash('md5').update(s).digest('hex')] *)
Definition md5_hex (s : string) : string := hex (digest (bytes_of_string s)).

End MD5.

(** ** A small runtime and world for examples *)

Module Demo.

(** The double quote, for JSON text. *)
Definition dq : string := String (ascii_of_nat 34) EmptyString.

(** [{"a":true,"b":5}] and [{"a":false}] *)
Definition json_ab : string :=
  "{" +:+ dq +:+ "a" +:+ dq +:+ ":true," +:+ dq +:+ "b" +:+ dq +:+ ":5}".
Definition json_a_off : string :=
  "{" +:+ dq +:+ "a" +:+ dq +:+ ":false}".

Definition snapshot_ab : gmap string jsval :=
  <["a" := VBool true]> (<["b" := VNum 5]> ∅).
Definition snapshot_a_off : gmap string jsval :=
  <["a" := VBool false]> ∅.

(** [JSON.parse] on the documents the examples use. *)
Definition parse (s : string) : option jsval :=
  if String.eqb s "{}" then Some (VObj ∅)
  else if String.eqb s json_ab then Some (VObj snapshot_ab)
  else if String.eqb s json_a_off then Some (VObj snapshot_a_off)
  else if String.eqb s "null" then Some VNull
  else if String.eqb s "true" then Some (VBool true)
  else if String.eqb s "[]" then Some (VArr [])
  else None.

(** [JSON.stringify] on the snapshots the examples use, told apart by
    their value for [a]. *)
Definition stringify (v : jsval) : string :=
  match v with
  | VObj props =>
      match props !! "a" with
      | Some (VBool true) => json_ab
      | Some _ => json_a_off
      | None => "{}"
      end
  | VArr _ => "[]"
  | _ => "null"
  end.

Definition runtime : Runtime :=
  {| has_require := true;
     md5_hex := MD5.md5_hex;
     tmpdir := "/tmp";
     pid := 4242;
     isNode := true;
     JSON_parse := parse;
     JSON_stringify := stringify;
     member := fun _ _ => VUndefined |}.

Definition options (cache : bool) : PhlagClientOptions :=
  {| opt_baseUrl := "http://localhost:8000";
     opt_apiKey := "key";
     opt_environment := "production";
     opt_timeout := None;
     opt_cache := Some cache;
     opt_cacheFile := Some "/tmp/flags.json";
     opt_cacheTtl := None |}.

(** The instance [new PhlagClient(options cache)] builds, with a given
    in-memory snapshot. *)
Definition instance (cache : bool) (snapshot : jsval) : PhlagClient :=
  {| client := new_Client "http://localhost:8000" "key" 10000;
     environment := "production";
     baseUrl := "http://localhost:8000";
     apiKey := "key";
     timeout := 10000;
     cacheEnabled := cache;
     cacheFile := "/tmp/flags.json";
     cacheTtl := 300;
     useFileCache := cache;
     flagCache := snapshot |}.

(** A server that answers every request after 20 ms with [status] and
    [text], the body complete 1 ms later. *)
Definition server (status : Z) (text : string) : Request -> FetchOutcome :=
  fun _ => Responds 20 {| status := status; body := BodyText 1 text |}.

(** A world at time 1000000 ms. *)
Definition world (files : gmap string File) (faults : FsOp -> Fault)
    (net : Request -> FetchOutcome) (heap : gmap loc PhlagClient) : World :=
  {| fs := files; faults := faults; now := 1000000; net := net;
     fetchLog := []; console := []; heap := heap |}.

Definition no_faults : FsOp -> Fault := fun _ => NoFault.

(** The cache location is read-only: writing it fails. *)
Definition read_only : FsOp -> Fault :=
  fun op =>
    match op with
    | OpWriteFile _ => Fails "EACCES: permission denied" None
    | _ => NoFault
    end.

(** The cache file of [instance], holding [{"a":true,"b":5}] and last
    modified at [mtime]. *)
Definition cache_record (mtime : Q) : File :=
  {| contents := json_ab; mtimeMs := mtime |}.

Definition cached_files (mtime : Q) : gmap string File :=
  <["/tmp/flags.json" := cache_record mtime]> ∅.

(** A world with that cache file and no instance. *)
Definition cached_world (mtime : Q) : World :=
  world (cached_files mtime) no_faults (server 200 "{}") ∅.

(** A world with one instance, at reference 1, and no file. *)
Definition client_world (faults : FsOp -> Fault) (net : Request -> FetchOutcome)
    (c : PhlagClient) : World :=
  world ∅ faults net (<[1%positive := c]> ∅).

(** The transport of [instance]. *)
Definition transport : Client := new_Client "http://localhost:8000" "key" 10000.

(** The server answers the bulk fetch with [{"a":true,"b":5}]; the instance
    is Loaded with that snapshot. *)
Definition loaded_world : World :=
  client_world no_faults (server 200 json_ab) (instance true (VObj snapshot_ab)).

(** The same server, an Empty instance, and a read-only cache location. *)
Definition write_failure_world : World :=
  client_world read_only (server 200 json_ab) (instance true VNull).

(** The server answers every request with status 200 and an empty body. *)
Definition empty_body_world : World :=
  client_world no_faults (server 200 "") (instance true VNull).

(** The server answers every request with [{}]. *)
Definition empty_snapshot_world : World :=
  client_world no_faults (server 200 "{}") (instance true VNull).

(** The server sends the status line and headers after 20 ms and never
    completes the body. *)
Definition stalled_body_world : World :=
  client_world no_faults
    (fun _ => Responds 20 {| status := 200; body := BodyStalls |})
    (instance false VNull).


(** The server knows no environment of that name. *)
Definition unknown_environment_world : World :=
  client_world no_faults (server 404 "") (instance true VNull).

(** The server answers the single-flag endpoint with the text [true]. *)
Definition switch_on_world : World :=
  client_world no_faults (server 200 "true") (instance false VNull).

(** The server answers 404; and a server that never answers. *)
Definition not_found_world : World :=
  client_world no_faults (server 404 "") (instance false VNull).

(** Options that name no cache file. *)
Definition default_options (baseUrl environment : string) : PhlagClientOptions :=
  {| opt_baseUrl := baseUrl;
     opt_apiKey := "key";
     opt_environment := environment;
     opt_timeout := None;
     opt_cache := Some true;
     opt_cacheFile := None;
     opt_cacheTtl := None |}.

(** The same runtime in a browser: [isNodeEnvironment()] is false. *)
Definition browser : Runtime :=
  {| has_require := false;
     md5_hex := MD5.md5_hex;
     tmpdir := "/tmp";
     pid := 4242;
     isNode := false;
     JSON_parse := parse;
     JSON_stringify := stringify;
     member := fun _ _ => VUndefined |}.

(** The instance [new PhlagClient(options true)] builds in the browser: no
    file cache. *)
Definition browser_instance : PhlagClient :=
  {| client := new_Client "http://localhost:8000" "key" 10000;
     environment := "production";
     baseUrl := "http://localhost:8000";
     apiKey := "key";
     timeout := 10000;
     cacheEnabled := true;
     cacheFile := "/tmp/flags.json";
     cacheTtl := 300;
     useFileCache := false;
     flagCache := VNull |}.

(** A world with that instance at reference 1. *)
Definition browser_world : World :=
  client_world no_faults (server 200 json_ab) browser_instance.




(** An Empty instance beside a cache file last modified at [mtime]. *)
Definition restart_world (mtime : Q) (net : Request -> FetchOutcome) : World :=
  world (cached_files mtime) no_faults net (<[1%positive := instance true VNull]> ∅).

(** Two Empty instances of one configuration, at references 1 and 2, and
    no file. *)
Definition two_instances_world : World :=
  world ∅ no_faults (server 200 json_ab)
    (<[1%positive := instance true VNull]> (<[2%positive := instance true VNull]> ∅)).

End Demo.

(** ** Vocabulary of the statements *)

(** The request [Client.get] sends for an endpoint. *)
Definition request_of (c : Client) (endpoint : string) : Request :=
  {| url := client_baseUrl c +:+ "/" +:+ endpoint;
     authorization := "Bearer " +:+ client_apiKey c |}.



(** The string whose digest names the default cache file. *)
Definition cache_key (options : PhlagClientOptions) : string :=
  opt_baseUrl options +:+ "|" +:+ opt_environment options.

(** [unchanged proj m]: running [m] leaves the part [proj] of the world as
    it was. [always_returns m]: [m] returns, whatever the world: it neither
    throws nor hangs. *)
Definition unchanged {A T : Type} (proj : World -> T) (m : M A) : Prop :=
  forall w, proj (snd (m w)) = proj w.

Definition always_returns {A : Type} (m : M A) : Prop :=
  forall w, exists a, fst (m w) = Ok a.

(** [never_hangs m]: [m] settles, whatever the world. *)
Definition never_hangs {A : Type} (m : M A) : Prop :=
  forall w, fst (m w) <> Hang.

(** [throws_only P m]: every error [m] throws satisfies [P]. *)
Definition throws_only {A : Type} (P : JsError -> Prop) (m : M A) : Prop :=
  forall w e, fst (m w) = Throw e -> P e.

(** The error is not the flag-not-found failure. *)
Definition not_flag_not_found (e : JsError) : Prop :=
  kind_of e <> Some InvalidFlagError.

(** The age test of [loadCacheFromFile], [now - mtime >= cacheTtl * 1000],
    in the arithmetic of the code. *)
Definition is_expired (ttl mtime : Q) (now : Z) : bool :=
  Binary64.geb (Binary64.sub (inject_Z now) mtime) (Binary64.mul ttl 1000).

(** A world where the file functions find no [fs/promises]: [require] is
    not defined, and each of their calls fails at once. *)
Definition without_fs (w : World) : Prop :=
  forall op, faults w op = Fails "require is not defined" None.

(** The two states of the in-memory snapshot of a cache-enabled client. *)
Definition Empty (c : PhlagClient) : Prop := flagCache c = VNull.
Definition Loaded (c : PhlagClient) : Prop := flagCache c <> VNull.

(** The endpoint of the bulk fetch. *)
Definition bulk_endpoint (c : PhlagClient) : string := "all-flags/" +:+ environment c.

Section Vocabulary.
Context {rt : Runtime}.

(** [snapshot[name] ?? null]: the answer [getFlag] gives from memory. *)
Definition answer_from_memory (snapshot : jsval) (name : string) : Result jsval :=
  match get_property snapshot name with
  | Ok v => Ok (nullish_coalesce v VNull)
  | Throw e => Throw e
  | Hang => Hang
  end.

(** The durable cache does not answer: it is not in use, or its read
    returns [null]. *)
Definition file_miss (c : PhlagClient) (w : World) : Prop :=
  useFileCache c = true ->
  fst (loadCacheFromFile (cacheFile c) (cacheTtl c) w) = Ok VNull.

End Vocabulary.

(** * Properties *)

(** Unfolding the monad. *)
Ltac unfold_M := unfold bind, try_catch, lift, ret, throw in *.

(** ** Rounding *)

(** Rounding to the nearest float is monotone: the fact about binary64
    that the expiry test depends on. *)
Module Binary64Facts.
Import Binary64.
Local Open Scope Q_scope.

Lemma pow2_pos (e : Z) : 0 < pow2 e.
Proof. apply Qpower_0_lt. reflexivity. Qed.

Lemma pow2_le (a b : Z) : (a <= b)%Z -> pow2 a <= pow2 b.
Proof. intros H. apply Qpower_le_compat_l; [exact H|]. discriminate. Qed.

Lemma pow2_lt (a b : Z) : (a < b)%Z -> pow2 a < pow2 b.
Proof. intros H. apply Qpower_lt_compat_l; [exact H|]. reflexivity. Qed.

Lemma pow2_nat (a : Z) : (0 <= a)%Z -> pow2 a == inject_Z (2 ^ a).
Proof. intros H. unfold pow2. rewrite Zpower_Qpower by exact H. reflexivity. Qed.

Lemma pow2_plus (a b : Z) : pow2 (a + b) == pow2 a * pow2 b.
Proof. unfold pow2. apply Qpower_plus. discriminate. Qed.

Lemma pow2_minus (a b : Z) : pow2 (a - b) == pow2 a / pow2 b.
Proof. unfold pow2. apply Qpower_minus. discriminate. Qed.

Lemma div_mul_cancel (p q b : Q) : ~ b == 0 -> p * q / b * b == p * q.
Proof. intros Hb. field. exact Hb. Qed.

Lemma ilog2_spec (x : Q) : 0 < x -> pow2 (ilog2 x) <= x /\ x < pow2 (ilog2 x + 1).
Proof.
  intros Hx. destruct x as [n d]. unfold Qlt in Hx. simpl in Hx.
  assert (Hn : (0 < n)%Z) by lia.
  unfold ilog2. simpl Qnum. simpl Qden.
  set (a := Z.log2 n). set (b := Z.log2 (Z.pos d)).
  destruct (Z.log2_spec n Hn) as [Ha1 Ha2]. fold a in Ha1, Ha2.
  destruct (Z.log2_spec (Z.pos d) (Pos2Z.is_pos d)) as [Hb1 Hb2]. fold b in Hb1, Hb2.
  assert (Ha0 : (0 <= a)%Z) by apply Z.log2_nonneg.
  assert (Hb0 : (0 <= b)%Z) by apply Z.log2_nonneg.
  assert (Hpa : (0 < 2 ^ a)%Z) by (apply Z.pow_pos_nonneg; lia).
  assert (Hpb : (0 < 2 ^ b)%Z) by (apply Z.pow_pos_nonneg; lia).
  assert (Hsa : (2 ^ Z.succ a = 2 * 2 ^ a)%Z) by (apply Z.pow_succ_r; lia).
  assert (Hsb : (2 ^ Z.succ b = 2 * 2 ^ b)%Z) by (apply Z.pow_succ_r; lia).
  set (D := inject_Z (Z.pos d)). set (B := inject_Z (2 ^ b)).
  assert (HD : 0 < D) by (unfold D, Qlt; simpl; lia).
  assert (HB : 0 < B) by (unfold B, Qlt; simpl; lia).
  assert (Hx' : (n # d) * D == inject_Z n).
  { unfold D, Qeq. simpl. rewrite Pos.mul_1_r. ring. }
  assert (Hk : forall j : Z, pow2 (a - b + j) * B == inject_Z (2 ^ a) * pow2 j).
  { intros j. replace (a - b + j)%Z with (a + j - b)%Z by lia.
    rewrite pow2_minus, pow2_plus. rewrite (pow2_nat a), (pow2_nat b) by lia. fold B.
    apply div_mul_cancel. lra. }
  assert (Hcmp : forall P A : Q, P * B == A ->
            ((n # d) < P <-> inject_Z n * B < A * D)).
  { intros P A HP. rewrite <- HP, <- Hx'.
    assert (HDB : 0 < D * B) by (apply Qmult_lt_0_compat; assumption).
    setoid_replace ((n # d) * D * B) with ((n # d) * (D * B)) using relation Qeq by ring.
    setoid_replace (P * B * D) with (P * (D * B)) using relation Qeq by ring.
    symmetry. apply Qmult_lt_r. exact HDB. }
  assert (Hupper : (n # d) < pow2 (a - b + 1)).
  { apply (Hcmp _ _ (Hk 1%Z)). change (pow2 1) with (inject_Z 2).
    unfold B, D. rewrite <- !inject_Z_mult. rewrite <- Zlt_Qlt. nia. }
  assert (Hlower : pow2 (a - b + -1) <= (n # d)).
  { apply Qnot_lt_le. intros Hlt. apply (Hcmp _ _ (Hk (-1)%Z)) in Hlt.
    change (pow2 (-1)) with (1 # 2) in Hlt. unfold B, D in Hlt.
    assert (H2 : inject_Z n * inject_Z (2 ^ b) * 2 < inject_Z (2 ^ a) * inject_Z (Z.pos d)).
    { lra. }
    change 2 with (inject_Z 2) in H2. rewrite <- !inject_Z_mult in H2.
    rewrite <- Zlt_Qlt in H2. nia. }
  destruct (Qle_bool (pow2 (a - b)) (n # d)) eqn:Hle.
  - apply Qle_bool_iff in Hle. split; [exact Hle|exact Hupper].
  - split.
    + replace (a - b - 1)%Z with (a - b + -1)%Z by lia. exact Hlower.
    + replace (a - b - 1 + 1)%Z with (a - b)%Z by lia.
      apply Qnot_le_lt. intros H. apply Qle_bool_iff in H. congruence.
Qed.


(** Rounding to an integer. *)
Lemma round_half_even_bounds (x : Q) :
  (Qfloor x <= round_half_even x <= Qfloor x + 1)%Z.
Proof.
  unfold round_half_even.
  destruct (Qcompare _ _); [destruct (Z.even _)| |]; lia.
Qed.

Lemma round_half_even_int (n : Z) : round_half_even (inject_Z n) = n.
Proof.
  unfold round_half_even. rewrite Qfloor_Z.
  destruct (Qcompare_spec (inject_Z n - inject_Z n) (1 # 2)); [lra|reflexivity|lra].
Qed.

Lemma round_half_even_monotone (x y : Q) :
  x <= y -> (round_half_even x <= round_half_even y)%Z.
Proof.
  intros Hxy.
  pose proof (Qfloor_resp_le _ _ Hxy) as Hfloor.
  pose proof (round_half_even_bounds x) as Hx.
  pose proof (round_half_even_bounds y) as Hy.
  destruct (Z.eq_dec (Qfloor x) (Qfloor y)) as [Heq|Hne]; [|lia].
  unfold round_half_even. rewrite <- Heq.
  destruct (Qcompare_spec (x - inject_Z (Qfloor x)) (1 # 2));
    destruct (Qcompare_spec (y - inject_Z (Qfloor x)) (1 # 2));
    try (destruct (Z.even (Qfloor x))); try lia; lra.
Qed.

Lemma round_half_even_le (x : Q) (n : Z) :
  x <= inject_Z n -> (round_half_even x <= n)%Z.
Proof.
  intros H. rewrite <- (round_half_even_int n). by apply round_half_even_monotone.
Qed.

Lemma round_half_even_ge (x : Q) (n : Z) :
  inject_Z n <= x -> (n <= round_half_even x)%Z.
Proof.
  intros H. rewrite <- (round_half_even_int n). by apply round_half_even_monotone.
Qed.

(** The two ends of a binade. *)
Lemma ulp_exponent_upper (x : Q) : 0 < x -> x < pow2 (ulp_exponent x + 53).
Proof.
  intros Hx. destruct (ilog2_spec x Hx) as [_ Hupper].
  eapply Qlt_le_trans; [exact Hupper|]. apply pow2_le. unfold ulp_exponent. lia.
Qed.

Lemma ulp_exponent_lower (x : Q) :
  0 < x -> (-1074 < ulp_exponent x)%Z -> pow2 (ulp_exponent x + 52) <= x.
Proof.
  intros Hx He. destruct (ilog2_spec x Hx) as [Hlower _].
  eapply Qle_trans; [|exact Hlower]. apply pow2_le. unfold ulp_exponent in *. lia.
Qed.

Lemma nearest_nonneg (x : Q) : 0 <= nearest x.
Proof.
  unfold nearest. destruct (Qle_bool x 0) eqn:Hx; [lra|].
  assert (Hpos : 0 < x).
  { apply Qnot_le_lt. intros H. apply Qle_bool_iff in H. congruence. }
  pose proof (pow2_pos (ulp_exponent x)) as Hu.
  apply Qmult_le_0_compat; [|lra].
  change 0 with (inject_Z 0). rewrite <- Zle_Qle.
  apply round_half_even_ge. change (inject_Z 0) with 0.
  apply Qle_shift_div_l; [exact Hu|]. lra.
Qed.

Lemma nearest_upper (x : Q) : 0 < x -> nearest x <= pow2 (ulp_exponent x + 53).
Proof.
  intros Hx. unfold nearest.
  assert (Hb : Qle_bool x 0 = false).
  { destruct (Qle_bool x 0) eqn:H; [|reflexivity]. apply Qle_bool_iff in H. lra. }
  rewrite Hb.
  pose proof (pow2_pos (ulp_exponent x)) as Hu.
  rewrite pow2_plus, (pow2_nat 53) by lia. rewrite (Qmult_comm (pow2 _)).
  apply Qmult_le_compat_r; [|lra].
  rewrite <- Zle_Qle. apply round_half_even_le.
  apply Qle_shift_div_r; [exact Hu|].
  pose proof (ulp_exponent_upper x Hx) as Hupper.
  rewrite pow2_plus, (pow2_nat 53) in Hupper by lia. lra.
Qed.

Lemma nearest_lower (x : Q) :
  0 < x -> (-1074 < ulp_exponent x)%Z -> pow2 (ulp_exponent x + 52) <= nearest x.
Proof.
  intros Hx He. unfold nearest.
  assert (Hb : Qle_bool x 0 = false).
  { destruct (Qle_bool x 0) eqn:H; [|reflexivity]. apply Qle_bool_iff in H. lra. }
  rewrite Hb.
  pose proof (pow2_pos (ulp_exponent x)) as Hu.
  rewrite pow2_plus, (pow2_nat 52) by lia. rewrite (Qmult_comm (pow2 _)).
  apply Qmult_le_compat_r; [|lra].
  rewrite <- Zle_Qle. apply round_half_even_ge.
  apply Qle_shift_div_l; [exact Hu|].
  pose proof (ulp_exponent_lower x Hx He) as Hlower.
  rewrite pow2_plus, (pow2_nat 52) in Hlower by lia. lra.
Qed.

Lemma nearest_monotone (x y : Q) : x <= y -> nearest x <= nearest y.
Proof.
  intros Hxy.
  destruct (Qlt_le_dec 0 x) as [Hx|Hx].
  2: { unfold nearest at 1. apply Qle_bool_iff in Hx. rewrite Hx. apply nearest_nonneg. }
  assert (Hy : 0 < y) by lra.
  destruct (Z.lt_trichotomy (ulp_exponent x) (ulp_exponent y)) as [Hlt|[Heq|Hgt]].
  - eapply Qle_trans; [apply nearest_upper, Hx|].
    eapply Qle_trans; [|apply nearest_lower; [exact Hy|]].
    + apply pow2_le. lia.
    + unfold ulp_exponent in *. lia.
  - unfold nearest.
    assert (Hbx : Qle_bool x 0 = false).
    { destruct (Qle_bool x 0) eqn:H; [|reflexivity]. apply Qle_bool_iff in H. lra. }
    assert (Hby : Qle_bool y 0 = false).
    { destruct (Qle_bool y 0) eqn:H; [|reflexivity]. apply Qle_bool_iff in H. lra. }
    rewrite Hbx, Hby, Heq.
    pose proof (pow2_pos (ulp_exponent y)) as Hu.
    apply Qmult_le_compat_r; [|lra].
    rewrite <- Zle_Qle. apply round_half_even_monotone.
    apply Qmult_le_compat_r; [exact Hxy|]. apply Qlt_le_weak, Qinv_lt_0_compat, Hu.
  - exfalso.
    assert (He : (-1074 < ulp_exponent x)%Z) by (unfold ulp_exponent in *; lia).
    pose proof (ulp_exponent_lower x Hx He) as Hlower.
    pose proof (ulp_exponent_upper y Hy) as Hupper.
    assert (Hpow : pow2 (ulp_exponent y + 53) <= pow2 (ulp_exponent x + 52))
      by (apply pow2_le; lia).
    lra.
Qed.

Lemma nearest_signed_monotone (x y : Q) : x <= y -> nearest_signed x <= nearest_signed y.
Proof.
  intros Hxy. unfold nearest_signed.
  destruct (Qle_bool 0 x) eqn:Hx; destruct (Qle_bool 0 y) eqn:Hy.
  - by apply nearest_monotone.
  - apply Qle_bool_iff in Hx.
    assert (~ 0 <= y) by (intros H; apply Qle_bool_iff in H; congruence). lra.
  - pose proof (nearest_nonneg (- x)). pose proof (nearest_nonneg y). lra.
  - assert (H : nearest (- y) <= nearest (- x)) by (apply nearest_monotone; lra). lra.
Qed.

Lemma round_monotone (x y : Q) : x <= y -> leb (round x) (round y) = true.
Proof.
  intros Hxy. pose proof (nearest_signed_monotone x y Hxy) as H.
  pose proof (pow2_pos 1024) as Hp.
  unfold round.
  destruct (Qle_bool (pow2 1024) (nearest_signed y)) eqn:Hy1.
  { destruct (Qle_bool (pow2 1024) (nearest_signed x)); [reflexivity|].
    destruct (Qle_bool (nearest_signed x) (- pow2 1024)); reflexivity. }
  assert (Hy1' : nearest_signed y < pow2 1024).
  { apply Qnot_le_lt. intros Hle. apply Qle_bool_iff in Hle. congruence. }
  destruct (Qle_bool (pow2 1024) (nearest_signed x)) eqn:Hx1.
  { apply Qle_bool_iff in Hx1. lra. }
  destruct (Qle_bool (nearest_signed x) (- pow2 1024)) eqn:Hx2; [reflexivity|].
  assert (Hx2' : - pow2 1024 < nearest_signed x).
  { apply Qnot_le_lt. intros Hle. apply Qle_bool_iff in Hle. congruence. }
  destruct (Qle_bool (nearest_signed y) (- pow2 1024)) eqn:Hy2.
  { apply Qle_bool_iff in Hy2. lra. }
  simpl. by apply Qle_bool_iff.
Qed.


(** A float is rounded to itself, up to the fraction that writes it. *)
Lemma is_float_round (x : Q) :
  is_float x = true -> exists y, round x = Finite y /\ y == x.
Proof.
  unfold is_float. destruct (round x) as [y| |]; [|done..].
  intros H. exists y. split; [done|]. by apply Qeq_bool_iff.
Qed.

Lemma round_half_even_of_int (y : Q) (m : Z) : y == inject_Z m -> round_half_even y = m.
Proof.
  intros Hy. apply Z.le_antisymm.
  - apply round_half_even_le. rewrite Hy. apply Qle_refl.
  - apply round_half_even_ge. rewrite Hy. apply Qle_refl.
Qed.

Lemma Qle_bool_false (x y : Q) : y < x -> Qle_bool x y = false.
Proof.
  intros H. destruct (Qle_bool x y) eqn:E; [|reflexivity].
  apply Qle_bool_iff in E. lra.
Qed.

Lemma nearest_of_integer (x : Q) (n : Z) :
  x == inject_Z n -> (0 < n < 2 ^ 53)%Z -> nearest x == x.
Proof.
  intros Hx [Hpos Hbound].
  assert (Hx0 : 0 < x).
  { rewrite Hx. change 0 with (inject_Z 0). rewrite <- Zlt_Qlt. exact Hpos. }
  unfold nearest. rewrite (Qle_bool_false x 0 Hx0).
  set (ue := ulp_exponent x).
  assert (Hue : (ue <= 0)%Z).
  { subst ue. unfold ulp_exponent.
    destruct (ilog2_spec x Hx0) as [Hlow _].
    assert (ilog2 x < 53)%Z; [|lia].
    destruct (Z_lt_le_dec (ilog2 x) 53) as [|Hge]; [assumption|exfalso].
    pose proof (pow2_le 53 (ilog2 x) Hge) as Hle.
    assert (x < pow2 53).
    { rewrite Hx, (pow2_nat 53) by lia. rewrite <- Zlt_Qlt. exact Hbound. }
    lra. }
  assert (Hulp : pow2 ue * inject_Z (2 ^ (- ue)) == 1).
  { rewrite <- (pow2_nat (- ue)) by lia. rewrite <- pow2_plus.
    replace (ue + - ue)%Z with 0%Z by lia. reflexivity. }
  pose proof (pow2_pos ue) as Hup.
  assert (Hdiv : x / pow2 ue == inject_Z (n * 2 ^ (- ue))).
  { rewrite inject_Z_mult, Hx.
    apply (Qmult_inj_r _ _ (pow2 ue)); [lra|].
    setoid_replace (inject_Z n * inject_Z (2 ^ (- ue)) * pow2 ue)
      with (inject_Z n * (pow2 ue * inject_Z (2 ^ (- ue)))) using relation Qeq by ring.
    rewrite Hulp. field. lra. }
  rewrite (round_half_even_of_int _ _ Hdiv).
  rewrite inject_Z_mult, Hx.
  setoid_replace (inject_Z n * inject_Z (2 ^ (- ue)) * pow2 ue)
    with (inject_Z n * (pow2 ue * inject_Z (2 ^ (- ue)))) using relation Qeq by ring.
  rewrite Hulp. ring.
Qed.

(** Whole numbers below [2^53] are floats. *)
Lemma integer_is_float (x : Q) (n : Z) :
  x == inject_Z n -> (0 <= n < 2 ^ 53)%Z -> is_float x = true.
Proof.
  intros Hx [Hpos Hbound]. unfold is_float, round, nearest_signed.
  pose proof (pow2_pos 1024) as Hp.
  assert (Hx0 : 0 <= x).
  { rewrite Hx. change 0 with (inject_Z 0). rewrite <- Zle_Qle. exact Hpos. }
  assert (Hnear : nearest x == x).
  { destruct (Z.eq_dec n 0%Z) as [->|Hne].
    - unfold nearest.
      assert (Hz : Qle_bool x 0 = true) by (apply Qle_bool_iff; rewrite Hx; apply Qle_refl).
      rewrite Hz. rewrite Hx. reflexivity.
    - apply (nearest_of_integer x n Hx). lia. }
  assert (H0 : Qle_bool 0 x = true) by (by apply Qle_bool_iff).
  rewrite H0.
  assert (Hlt : x < pow2 1024).
  { apply Qlt_trans with (pow2 53).
    - rewrite Hx, (pow2_nat 53) by lia. rewrite <- Zlt_Qlt. exact Hbound.
    - apply pow2_lt. lia. }
  rewrite (Qle_bool_false (pow2 1024) (nearest x)) by (rewrite Hnear; exact Hlt).
  rewrite (Qle_bool_false (nearest x) (- pow2 1024)) by (rewrite Hnear; lra).
  apply Qeq_bool_iff. exact Hnear.
Qed.
End Binary64Facts.

(** ** The durable cache store *)

Section CacheProperties.
Context {rt : Runtime}.

(** A read never throws and changes nothing; what it returns is [null] or a
    plain object. *)
Lemma loadCacheFromFile_total (cacheFile : string) (ttl : Q) (w : World) :
  exists v, loadCacheFromFile cacheFile ttl w = (Ok v, w)
            /\ (v = VNull \/ is_plain_object v = true).
Proof.
  unfold loadCacheFromFile, fs_stat, fs_readFile, Date_now, JSON_parse_M; unfold_M.
  destruct (faults w (OpStat cacheFile)); [|by eauto].
  destruct (fs w !! cacheFile) as [f|] eqn:Hf; [|by eauto].
  destruct (Binary64.geb _ _); [by eauto|].
  destruct (faults w (OpReadFile cacheFile)); [|by eauto].
  rewrite Hf.
  destruct (JSON_parse (contents f)) as [d|]; simpl; [|by eauto].
  destruct (is_plain_object d) eqn:Hd; by eauto.
Qed.

(** The read depends on the file system, the injected faults and the clock
    only. *)
Lemma loadCacheFromFile_frame (cacheFile : string) (ttl : Q) (w w' : World) :
  fs w' = fs w -> faults w' = faults w -> now w' = now w ->
  fst (loadCacheFromFile cacheFile ttl w') = fst (loadCacheFromFile cacheFile ttl w).
Proof.
  intros Hfs Hfaults Hnow.
  unfold loadCacheFromFile, fs_stat, fs_readFile, Date_now, JSON_parse_M; unfold_M.
  rewrite Hfaults, Hfs.
  destruct (faults w (OpStat cacheFile)); [|done].
  destruct (fs w !! cacheFile) as [f|] eqn:Hf; [|done].
  rewrite Hnow.
  destruct (Binary64.geb _ _); [done|].
  rewrite Hfaults, Hfs, Hf.
  destruct (faults w (OpReadFile cacheFile)); [|done].
  destruct (JSON_parse (contents f)) as [d|]; simpl; [|done].
  by destruct (is_plain_object d).
Qed.

(** The age test of the read and the exact ages. Rounding is monotone, so
    a record whose exact age is the ttl or more is expired for the code, and
    a record the code takes for fresh is younger than the ttl; the two
    tests agree when the product and the age are floats. *)
Lemma expired_exact (ttl mtime : Q) (now : Z) :
  (mtime + ttl * 1000 <= inject_Z now)%Q -> is_expired ttl mtime now = true.
Proof.
  intros Hage. unfold is_expired, Binary64.geb, Binary64.sub, Binary64.mul.
  apply Binary64Facts.round_monotone. lra.
Qed.

Lemma fresh_exact (ttl mtime : Q) (now : Z) :
  is_expired ttl mtime now = false -> (inject_Z now < mtime + ttl * 1000)%Q.
Proof.
  intros Hfresh.
  destruct (Qlt_le_dec (inject_Z now) (mtime + ttl * 1000)) as [|Hle]; [done|].
  apply expired_exact in Hle. congruence.
Qed.

Lemma fresh_floats (ttl mtime : Q) (now : Z) :
  Binary64.is_float (ttl * 1000) = true ->
  Binary64.is_float (inject_Z now - mtime) = true ->
  (inject_Z now < mtime + ttl * 1000)%Q ->
  is_expired ttl mtime now = false.
Proof.
  intros Hproduct Hage Hlt.
  apply Binary64Facts.is_float_round in Hproduct as (p & Hp & Hpeq).
  apply Binary64Facts.is_float_round in Hage as (a & Ha & Haeq).
  unfold is_expired, Binary64.geb, Binary64.sub, Binary64.mul. rewrite Hp, Ha. simpl.
  destruct (Qle_bool p a) eqn:Hle; [|done].
  apply Qle_bool_iff in Hle. lra.
Qed.

(** Times in whole milliseconds: the age is a float, so only the product
    can round. *)
Lemma fresh_whole_milliseconds (ttl : Q) (written elapsed : Z) :
  Binary64.is_float (ttl * 1000) = true ->
  0 <= elapsed < 2 ^ 53 ->
  (inject_Z elapsed < ttl * 1000)%Q ->
  is_expired ttl (inject_Z written) (written + elapsed) = false.
Proof.
  intros Hproduct Helapsed Hlt.
  assert (Hage : (inject_Z (written + elapsed) - inject_Z written == inject_Z elapsed)%Q).
  { rewrite inject_Z_plus. ring. }
  apply fresh_floats; [done| |].
  - by apply (Binary64Facts.integer_is_float _ elapsed).
  - rewrite inject_Z_plus. lra.
Qed.

(** C4. Reading the durable cache never raises an error: for every
    location, ttl and world the read returns a value and leaves the world as
    it was; and it returns [null] when the file is missing, when [stat] or
    [readFile] fails, when the content is not JSON, when it is JSON but no
    plain object (an array, [null], a number, ...), and when the file's age
    is at least the ttl. *)
Theorem loadCacheFromFile_fails_closed (cacheFile : string) (ttl : Q) (w : World) :
  (exists v, loadCacheFromFile cacheFile ttl w = (Ok v, w))
  /\ (fs w !! cacheFile = None ->
      loadCacheFromFile cacheFile ttl w = (Ok VNull, w))
  /\ (faults w (OpStat cacheFile) <> NoFault \/ faults w (OpReadFile cacheFile) <> NoFault ->
      loadCacheFromFile cacheFile ttl w = (Ok VNull, w))
  /\ (forall f, fs w !! cacheFile = Some f ->
        (JSON_parse (contents f) = None ->
         loadCacheFromFile cacheFile ttl w = (Ok VNull, w))
        /\ (forall data, JSON_parse (contents f) = Some data ->
                         is_plain_object data = false ->
            loadCacheFromFile cacheFile ttl w = (Ok VNull, w))
        /\ ((mtimeMs f + ttl * 1000 <= inject_Z (now w))%Q ->
            loadCacheFromFile cacheFile ttl w = (Ok VNull, w))).
Proof.
  split.
  { destruct (loadCacheFromFile_total cacheFile ttl w) as (v & Hv & _). eauto. }
  unfold loadCacheFromFile, fs_stat, fs_readFile, Date_now, JSON_parse_M; unfold_M.
  split; [|split].
  - intros Hf. rewrite Hf. by destruct (faults w (OpStat cacheFile)).
  - intros Hfault.
    destruct (faults w (OpStat cacheFile)); [|done].
    destruct (fs w !! cacheFile) as [f|] eqn:Hf; [|done].
    destruct (Binary64.geb _ _); [done|].
    destruct (faults w (OpReadFile cacheFile)); [|done].
    by destruct Hfault.
  - intros f Hf. rewrite Hf.
    destruct (faults w (OpStat cacheFile)); [|done].
    split; [|split].
    + intros Hparse.
      destruct (Binary64.geb _ _); [done|].
      destruct (faults w (OpReadFile cacheFile)); [|done].
      by rewrite Hf, Hparse.
    + intros data Hparse Hdata.
      destruct (Binary64.geb _ _); [done|].
      destruct (faults w (OpReadFile cacheFile)); [|done].
      rewrite Hf, Hparse. simpl. by rewrite Hdata.
    + intros Hage%expired_exact. unfold is_expired in Hage. by rewrite Hage.
Qed.

(** C3 (as amended). Expiry boundary: for every ttl and every durable
    record whose last-modified time is [T = mtimeMs f] (the ttl counted in
    seconds, the times in milliseconds). A read at time [T + ttl] or later
    returns [null]. When [stat] and [readFile] succeed and the content
    parses to a plain object, the read returns that object exactly when the
    test of the code, [now - T >= ttl * 1000] in binary64, fails; then the
    read is strictly before [T + ttl]; and every read strictly before
    [T + ttl] returns the object when the product [ttl * 1000] and the age
    [now - T] are floats, as they are for a ttl and a time [T] of whole
    milliseconds. *)
Theorem loadCacheFromFile_expiry_boundary
    (cacheFile : string) (ttl : Q) (w : World) (f : File) :
  fs w !! cacheFile = Some f ->
  ((mtimeMs f + ttl * 1000 <= inject_Z (now w))%Q ->
   loadCacheFromFile cacheFile ttl w = (Ok VNull, w))
  /\ (faults w (OpStat cacheFile) = NoFault ->
      faults w (OpReadFile cacheFile) = NoFault ->
      forall snapshot, JSON_parse (contents f) = Some (VObj snapshot) ->
      (loadCacheFromFile cacheFile ttl w = (Ok (VObj snapshot), w)
       <-> is_expired ttl (mtimeMs f) (now w) = false)
      /\ (is_expired ttl (mtimeMs f) (now w) = false ->
          (inject_Z (now w) < mtimeMs f + ttl * 1000)%Q)
      /\ (Binary64.is_float (ttl * 1000) = true ->
          Binary64.is_float (inject_Z (now w) - mtimeMs f) = true ->
          (inject_Z (now w) < mtimeMs f + ttl * 1000)%Q ->
          loadCacheFromFile cacheFile ttl w = (Ok (VObj snapshot), w))
      /\ (forall T ms : Z,
            (mtimeMs f == inject_Z T)%Q -> (ttl * 1000 == inject_Z ms)%Q ->
            0 <= ms < 2 ^ 53 -> 0 <= now w - T < 2 ^ 53 ->
            now w < T + ms ->
            loadCacheFromFile cacheFile ttl w = (Ok (VObj snapshot), w))).
Proof.
  intros Hf.
  assert (Hread : faults w (OpStat cacheFile) = NoFault ->
                  faults w (OpReadFile cacheFile) = NoFault ->
                  forall snapshot, JSON_parse (contents f) = Some (VObj snapshot) ->
                  loadCacheFromFile cacheFile ttl w
                  = (Ok (if is_expired ttl (mtimeMs f) (now w)
                         then VNull else VObj snapshot), w)).
  { intros Hstat Hread snapshot Hparse.
    unfold loadCacheFromFile, fs_stat, fs_readFile, Date_now, JSON_parse_M; unfold_M.
    rewrite Hstat, Hf. fold (is_expired ttl (mtimeMs f) (now w)).
    destruct (is_expired ttl (mtimeMs f) (now w)); [done|].
    by rewrite Hread, Hf, Hparse. }
  split.
  - intros Hage%expired_exact.
    unfold loadCacheFromFile, fs_stat, fs_readFile, Date_now, JSON_parse_M; unfold_M.
    rewrite Hf. destruct (faults w (OpStat cacheFile)); [|done].
    unfold is_expired in Hage. by rewrite Hage.
  - intros Hstat Hreadable snapshot Hparse.
    rewrite (Hread Hstat Hreadable snapshot Hparse).
    split; [|split; [|split]].
    + destruct (is_expired ttl (mtimeMs f) (now w)); split; intros; congruence.
    + apply fresh_exact.
    + intros Hproduct Hage Hlt. by rewrite fresh_floats.
    + intros T ms HT Hms Hproduct Hage Hlt.
      rewrite fresh_floats; [done| | |].
      * by apply (Binary64Facts.integer_is_float _ ms).
      * apply (Binary64Facts.integer_is_float _ (now w - T)); [|done].
        rewrite HT. unfold Z.sub. rewrite inject_Z_plus, inject_Z_opp. ring.
      * rewrite HT, Hms, <- inject_Z_plus, <- Zlt_Qlt. done.
Qed.

End CacheProperties.

(** ** Frame rules for the monad *)

Section Frame.
Context {A B T : Type} (proj : World -> T).

Lemma unchanged_ret (a : A) : unchanged proj (ret a).
Proof. done. Qed.

Lemma unchanged_throw (e : JsError) : unchanged proj (@throw A e).
Proof. done. Qed.

Lemma unchanged_lift (r : Result A) : unchanged proj (lift r).
Proof. done. Qed.

Lemma unchanged_bind (m : M A) (k : A -> M B) :
  unchanged proj m -> (forall a, unchanged proj (k a)) -> unchanged proj (bind m k).
Proof.
  intros Hm Hk w. unfold bind. specialize (Hm w).
  destruct (m w) as [[a|e|] w']; simpl in *; [|done..].
  by rewrite Hk.
Qed.

Lemma unchanged_try_catch (m : M A) (h : JsError -> M A) :
  unchanged proj m -> (forall e, unchanged proj (h e)) -> unchanged proj (try_catch m h).
Proof.
  intros Hm Hh w. unfold try_catch. specialize (Hm w).
  destruct (m w) as [[a|e|] w']; simpl in *; [done| |done].
  by rewrite Hh.
Qed.

Lemma unchanged_if (b : bool) (m1 m2 : M A) :
  unchanged proj m1 -> unchanged proj m2 -> unchanged proj (if b then m1 else m2).
Proof. by destruct b. Qed.

Lemma unchanged_fs_stat (path : string) : unchanged proj (fs_stat path).
Proof. intros w. unfold fs_stat. by repeat case_match. Qed.

Lemma unchanged_fs_readFile (path : string) : unchanged proj (fs_readFile path).
Proof. intros w. unfold fs_readFile. by repeat case_match. Qed.

Lemma unchanged_Date_now : unchanged proj Date_now.
Proof. done. Qed.

Lemma unchanged_get_this (this : loc) : unchanged proj (get_this this).
Proof. intros w. unfold get_this. by case_match. Qed.

Lemma unchanged_response_text (r : Response) : unchanged proj (response_text r).
Proof. unfold response_text. by case_match. Qed.

Lemma unchanged_fs_writeFile (path data : string) :
  (forall f w, proj (set_fs f w) = proj w) -> unchanged proj (fs_writeFile path data).
Proof. intros Hproj w. unfold fs_writeFile. by repeat case_match; simpl. Qed.

Lemma unchanged_fs_unlink (path : string) :
  (forall f w, proj (set_fs f w) = proj w) -> unchanged proj (fs_unlink path).
Proof. intros Hproj w. unfold fs_unlink. by repeat case_match; simpl. Qed.

Lemma unchanged_console_error (a b : string) :
  (forall c w, proj (set_console c w) = proj w) -> unchanged proj (console_error a b).
Proof. intros Hproj w. by unfold console_error; simpl. Qed.

Lemma unchanged_fetch (req : Request) (timeout : Z) :
  (forall l w, proj (set_fetchLog l w) = proj w) -> unchanged proj (fetch req timeout).
Proof. intros Hproj w. unfold fetch. by repeat case_match; simpl. Qed.

Lemma unchanged_set_flagCache (this : loc) (v : jsval) :
  (forall h w, proj (set_heap h w) = proj w) -> unchanged proj (set_flagCache this v).
Proof. intros Hproj w. unfold set_flagCache. by case_match; simpl. Qed.

End Frame.

(** Under a [try], what follows the first step and the handler leave
    [proj] alone: the whole changes it as the first step does. *)
Lemma after_first_step {A B T : Type} (proj : World -> T)
    (m : M A) (k : A -> M B) (h : JsError -> M B) (w : World) :
  (forall a, unchanged proj (k a)) -> (forall e, unchanged proj (h e)) ->
  proj (snd (try_catch (bind m k) h w)) = proj (snd (m w)).
Proof.
  intros Hk Hh. unfold try_catch, bind.
  destruct (m w) as [[a|e|] w1]; simpl; [|apply Hh|done].
  specialize (Hk a w1).
  destruct (k a w1) as [[b|e|] w2]; simpl in *; [done| |done].
  by rewrite Hh.
Qed.

Section Settling.
Context {A B : Type}.

Lemma never_hangs_ret (a : A) : never_hangs (ret a).
Proof. by intros w. Qed.

Lemma never_hangs_throw (e : JsError) : never_hangs (@throw A e).
Proof. by intros w. Qed.

Lemma never_hangs_bind (m : M A) (k : A -> M B) :
  never_hangs m -> (forall a, never_hangs (k a)) -> never_hangs (bind m k).
Proof.
  intros Hm Hk w. unfold bind. specialize (Hm w).
  destruct (m w) as [[a|e|] w']; simpl in *; [apply Hk|done..].
Qed.

Lemma never_hangs_try_catch (m : M A) (h : JsError -> M A) :
  never_hangs m -> (forall e, never_hangs (h e)) -> never_hangs (try_catch m h).
Proof.
  intros Hm Hh w. unfold try_catch. specialize (Hm w).
  destruct (m w) as [[a|e|] w']; simpl in *; [done|apply Hh|done].
Qed.

Lemma never_hangs_if (b : bool) (m1 m2 : M A) :
  never_hangs m1 -> never_hangs m2 -> never_hangs (if b then m1 else m2).
Proof. by destruct b. Qed.

Lemma always_returns_never_hangs (m : M A) : always_returns m -> never_hangs m.
Proof. intros Hm w. destruct (Hm w) as (a & Ha). by rewrite Ha. Qed.

Lemma always_returns_ret (a : A) : always_returns (ret a).
Proof. intros w. by exists a. Qed.

Lemma always_returns_try_catch (m : M A) (h : JsError -> M A) :
  never_hangs m -> (forall e, always_returns (h e)) -> always_returns (try_catch m h).
Proof.
  intros Hm Hh w. unfold try_catch. specialize (Hm w).
  destruct (m w) as [[a|e|] w']; simpl in *; [by exists a|apply Hh|done].
Qed.

End Settling.

Lemma never_hangs_fs_stat (path : string) : never_hangs (fs_stat path).
Proof. intros w. unfold fs_stat. by repeat case_match. Qed.

Lemma never_hangs_fs_readFile (path : string) : never_hangs (fs_readFile path).
Proof. intros w. unfold fs_readFile. by repeat case_match. Qed.

Lemma never_hangs_fs_writeFile (path data : string) : never_hangs (fs_writeFile path data).
Proof. intros w. unfold fs_writeFile. by repeat case_match. Qed.

Lemma never_hangs_fs_unlink (path : string) : never_hangs (fs_unlink path).
Proof. intros w. unfold fs_unlink. by repeat case_match. Qed.

Lemma always_returns_console_error (a b : string) : always_returns (console_error a b).
Proof. intros w. by exists tt. Qed.

(** Running a computation whose first step is known. *)
Lemma bind_ok {A B : Type} (m : M A) (k : A -> M B) (w w' : World) (a : A) :
  m w = (Ok a, w') -> bind m k w = k a w'.
Proof. unfold bind. by intros ->. Qed.

Lemma bind_throw {A B : Type} (m : M A) (k : A -> M B) (w w' : World) (e : JsError) :
  m w = (Throw e, w') -> bind m k w = (Throw e, w').
Proof. unfold bind. by intros ->. Qed.

Lemma bind_hang {A B : Type} (m : M A) (k : A -> M B) (w w' : World) :
  m w = (Hang, w') -> bind m k w = (Hang, w').
Proof. unfold bind. by intros ->. Qed.

Lemma get_this_ok (this : loc) (c : PhlagClient) (w : World) :
  heap w !! this = Some c -> get_this this w = (Ok c, w).
Proof. unfold get_this. by intros ->. Qed.

Lemma set_flagCache_ok (this : loc) (v : jsval) (c : PhlagClient) (w : World) :
  heap w !! this = Some c ->
  set_flagCache this v w
  = (Ok tt, set_heap (<[this := with_flagCache v c]> (heap w)) w).
Proof. unfold set_flagCache. by intros ->. Qed.

Create HintDb frame.
#[export] Hint Resolve unchanged_ret unchanged_throw unchanged_lift unchanged_bind
  unchanged_try_catch unchanged_if unchanged_fs_stat unchanged_fs_readFile
  unchanged_Date_now unchanged_get_this unchanged_response_text
  unchanged_fs_writeFile unchanged_fs_unlink unchanged_console_error
  unchanged_fetch unchanged_set_flagCache
  always_returns_ret always_returns_try_catch always_returns_console_error
  always_returns_never_hangs never_hangs_ret never_hangs_throw never_hangs_bind
  never_hangs_try_catch never_hangs_if never_hangs_fs_stat never_hangs_fs_readFile
  never_hangs_fs_writeFile never_hangs_fs_unlink : frame.
#[export] Hint Extern 1 (forall _ _, _ = _) => (intros; reflexivity) : frame.

(** Proves [unchanged proj m] for a composite [m] by following its
    structure. *)
Ltac frame :=
  repeat first
    [ progress (intros)
    | solve [ eauto with frame ]
    | apply unchanged_bind
    | apply unchanged_try_catch
    | apply unchanged_if
    | match goal with
      | |- unchanged _ (match ?x with _ => _ end) => destruct x
      end ].

(** ** The write protocol *)

Section WriteProperties.
Context {rt : Runtime}.

Lemma unchanged_JSON_parse_M {T : Type} (proj : World -> T) (text : string) :
  unchanged proj (JSON_parse_M text).
Proof. unfold JSON_parse_M. by case_match. Qed.

Lemma unchanged_loadCacheFromFile {T : Type} (proj : World -> T)
    (cacheFile : string) (ttl : Q) :
  unchanged proj (loadCacheFromFile cacheFile ttl).
Proof.
  intros w. by destruct (loadCacheFromFile_total cacheFile ttl w) as (v & -> & _).
Qed.

Lemma unchanged_writeCacheToFile {T : Type} (proj : World -> T)
    (cacheFile : string) (data : jsval) :
  (forall f w, proj (set_fs f w) = proj w) ->
  (forall c w, proj (set_console c w) = proj w) ->
  unchanged proj (writeCacheToFile cacheFile data).
Proof. intros Hfs Hconsole. unfold writeCacheToFile. frame. Qed.

(** No failure of the write protocol reaches the caller. *)
Lemma always_returns_writeCacheToFile (cacheFile : string) (data : jsval) :
  always_returns (writeCacheToFile cacheFile data).
Proof.
  unfold writeCacheToFile. apply always_returns_try_catch.
  - eauto 10 with frame.
  - intros e. destruct (instanceof_Error e); eauto with frame.
Qed.

Lemma unchanged_deleteCacheFile {T : Type} (proj : World -> T) (cacheFile : string) :
  (forall f w, proj (set_fs f w) = proj w) ->
  unchanged proj (deleteCacheFile cacheFile).
Proof. intros Hfs. unfold deleteCacheFile. frame. Qed.

Lemma always_returns_deleteCacheFile (cacheFile : string) :
  always_returns (deleteCacheFile cacheFile).
Proof. unfold deleteCacheFile. eauto with frame. Qed.

(** [writeCacheToFile] is its four steps under the outer [try]. *)
Lemma writeCacheToFile_steps (cacheFile : string) (data : jsval) (w : World) :
  writeCacheToFile cacheFile data w
  = try_catch (run_steps (write_steps cacheFile data))
      (fun error =>
         if instanceof_Error error
         then console_error ("Phlag: Unable to write cache file: " +:+ cacheFile)
                            (error_message error)
         else ret tt) w.
Proof.
  unfold writeCacheToFile, write_steps, run_steps, run_step. unfold_M.
  destruct (fs_writeFile _ _ w) as [[[]|e1|] w1]; [|done..].
  destruct (fs_unlink cacheFile w1) as [[[]|e2|] w2]; [| |done].
  - destruct (fs_writeFile _ _ w2) as [[[]|e3|] w3]; [|done..].
    by destruct (fs_unlink _ w3) as [[[]|e4|] w4].
  - destruct (fs_writeFile _ _ w2) as [[[]|e3|] w3]; [|done..].
    by destruct (fs_unlink _ w3) as [[[]|e4|] w4].
Qed.

(** A failing [writeFile], of the temporary file or of the cache file, is
    reported on the console and nowhere else. *)
Lemma writeCacheToFile_reports_failure
    (cacheFile : string) (data : jsval) (w : World) (msg : string) (left : option string) :
  let tempFile := cacheFile +:+ "." +:+ pretty pid +:+ ".tmp" in
  faults w (OpWriteFile tempFile) = Fails msg left
  \/ (faults w (OpWriteFile tempFile) = NoFault
      /\ faults w (OpWriteFile cacheFile) = Fails msg left) ->
  exists w', writeCacheToFile cacheFile data w = (Ok tt, w')
    /\ console w'
       = (console w ++ [("Phlag: Unable to write cache file: " +:+ cacheFile, msg)])%list.
Proof.
  intros tempFile Hfail.
  unfold writeCacheToFile. fold tempFile.
  unfold fs_writeFile, fs_unlink, console_error; unfold_M.
  destruct Hfail as [Htemp|[Htemp Hfile]]; rewrite Htemp.
  - destruct left; simpl; eauto.
  - simpl. destruct (faults w (OpUnlink cacheFile)); simpl.
    + destruct (_ !! cacheFile); simpl; rewrite Hfile; destruct left; simpl; eauto.
    + rewrite Hfile; destruct left; simpl; eauto.
Qed.

End WriteProperties.

(** ** The transport *)

Section TransportProperties.
Context {rt : Runtime}.

Lemma unchanged_handleErrorResponse {T : Type} (proj : World -> T)
    (r : Response) (endpoint : string) :
  unchanged proj (handleErrorResponse r endpoint).
Proof. unfold handleErrorResponse. frame. Qed.

Lemma unchanged_Client_get {T : Type} (proj : World -> T)
    (c : Client) (endpoint : string) (returnObject : bool) :
  (forall l w, proj (set_fetchLog l w) = proj w) ->
  unchanged proj (Client_get c endpoint returnObject).
Proof.
  intros Hlog. unfold Client_get.
  pose proof (unchanged_handleErrorResponse proj). frame.
Qed.

(** Every call of [Client.get] issues exactly one request. *)
Lemma Client_get_fetchLog (c : Client) (endpoint : string) (returnObject : bool) (w : World) :
  fetchLog (snd (Client_get c endpoint returnObject w))
  = (fetchLog w ++ [request_of c endpoint])%list.
Proof.
  unfold Client_get. fold (request_of c endpoint).
  rewrite (after_first_step fetchLog).
  - unfold fetch. by repeat case_match.
  - pose proof (unchanged_handleErrorResponse fetchLog). frame.
  - frame.
Qed.

(** How [handleErrorResponse] ends, case by case: it never returns. *)
Lemma handleErrorResponse_outcome (r : Response) (endpoint : string) (w : World) :
  exists res, handleErrorResponse r endpoint w = (res, w)
    /\ (status r = 401 -> res = Throw (new_AuthenticationError "Invalid API key"))
    /\ (status r = 404 -> String.prefix "flag/" endpoint = true ->
        res = Throw (new_InvalidFlagError ("Flag not found: " +:+ endpoint)))
    /\ (status r = 404 -> String.prefix "flag/" endpoint = false ->
        res = Throw (new_InvalidEnvironmentError ("Environment not found: " +:+ endpoint)))
    /\ (status r <> 401 -> status r <> 404 -> body r <> BodyStalls ->
        exists message, res = Throw (new_PhlagError message (status r)))
    /\ (status r <> 401 -> status r <> 404 -> body r = BodyStalls -> res = Hang).
Proof.
  unfold handleErrorResponse, response_text; unfold_M.
  destruct (status r =? 401) eqn:H401.
  { apply Z.eqb_eq in H401. eexists. split; [done|].
    repeat split; intros; first [done|lia]. }
  apply Z.eqb_neq in H401.
  destruct (status r =? 404) eqn:H404.
  { apply Z.eqb_eq in H404.
    destruct (String.prefix "flag/" endpoint) eqn:Hp;
      (eexists; split; [done|]; repeat split; intros; first [done|lia]). }
  apply Z.eqb_neq in H404.
  destruct (body r) as [after text|after name message|]; simpl.
  - destruct (String.eqb text ""); simpl;
      (eexists; split; [done|]; repeat split; intros; first [done|by eauto]).
  - eexists; split; [done|]; repeat split; intros; first [done|by eauto].
  - eexists; split; [done|]; repeat split; intros; done.
Qed.


(** A timeout of a millisecond or more is never exceeded by its timer. *)
Lemma setTimeout_delay_le (timeout : Z) :
  1 <= timeout -> setTimeout_delay timeout <= timeout.
Proof.
  intros Hlow. unfold setTimeout_delay.
  destruct ((1 <=? timeout) && (timeout <=? TIMEOUT_MAX)); lia.
Qed.


End TransportProperties.

(** ** The flag client *)

Section FlagClientProperties.
Context {rt : Runtime}.

Lemma loadCacheFromFile_miss (c : PhlagClient) (w : World) :
  file_miss c w -> useFileCache c = true ->
  loadCacheFromFile (cacheFile c) (cacheTtl c) w = (Ok VNull, w).
Proof.
  intros Hmiss Hfile. specialize (Hmiss Hfile).
  destruct (loadCacheFromFile_total (cacheFile c) (cacheTtl c) w) as (v & Hv & _).
  rewrite Hv in *. simpl in Hmiss. congruence.
Qed.

(** After a miss, the first part of [loadCache] falls through to the fetch. *)
Lemma loadCache_miss_falls_through (this : loc) (c : PhlagClient) (w : World)
    (k : bool -> M unit) :
  file_miss c w ->
  bind (if useFileCache c
        then bind (loadCacheFromFile (cacheFile c) (cacheTtl c))
               (fun cached => if negb (is_null cached)
                              then bind (set_flagCache this cached) (fun _ => ret true)
                              else ret false)
        else ret false) k w
  = k false w.
Proof.
  intros Hmiss. destruct (useFileCache c) eqn:Hfile; [|done].
  rewrite (bind_ok _ _ w w false); [done|].
  by rewrite (bind_ok _ _ _ _ _ (loadCacheFromFile_miss c w Hmiss Hfile)).
Qed.

(** The Load algorithm after a miss of the durable cache: a failing bulk
    fetch propagates; a successful one is adopted into memory and then
    written, when the durable cache is in use and the result is truthy. *)
Lemma loadCache_fetch_throws (this : loc) (c : PhlagClient) (w w1 : World) (e : JsError) :
  heap w !! this = Some c -> file_miss c w ->
  Client_get (client c) (bulk_endpoint c) true w = (Throw e, w1) ->
  loadCache this w = (Throw e, w1).
Proof.
  intros Hthis Hmiss Hget.
  unfold loadCache. rewrite (bind_ok _ _ _ _ _ (get_this_ok _ _ _ Hthis)).
  fold (bulk_endpoint c).
  rewrite (loadCache_miss_falls_through this c w _ Hmiss).
  by rewrite (bind_throw _ _ _ _ _ Hget).
Qed.

Lemma loadCache_fetch_hangs (this : loc) (c : PhlagClient) (w w1 : World) :
  heap w !! this = Some c -> file_miss c w ->
  Client_get (client c) (bulk_endpoint c) true w = (Hang, w1) ->
  loadCache this w = (Hang, w1).
Proof.
  intros Hthis Hmiss Hget.
  unfold loadCache. rewrite (bind_ok _ _ _ _ _ (get_this_ok _ _ _ Hthis)).
  fold (bulk_endpoint c).
  rewrite (loadCache_miss_falls_through this c w _ Hmiss).
  by rewrite (bind_hang _ _ _ _ Hget).
Qed.

Lemma loadCache_fetch_ok (this : loc) (c : PhlagClient) (w w1 : World) (v : jsval) :
  heap w !! this = Some c -> file_miss c w ->
  Client_get (client c) (bulk_endpoint c) true w = (Ok v, w1) ->
  let w2 := set_heap (<[this := with_flagCache v c]> (heap w)) w1 in
  loadCache this w
  = if useFileCache c && truthy v then writeCacheToFile (cacheFile c) v w2 else (Ok tt, w2).
Proof.
  intros Hthis Hmiss Hget w2.
  assert (Hheap : heap w1 = heap w).
  { pose proof (unchanged_Client_get heap (client c) (bulk_endpoint c) true
                  (fun _ _ => eq_refl) w) as Hh. by rewrite Hget in Hh. }
  assert (Hthis1 : heap w1 !! this = Some c) by by rewrite Hheap.
  unfold loadCache. rewrite (bind_ok _ _ _ _ _ (get_this_ok _ _ _ Hthis)).
  fold (bulk_endpoint c).
  rewrite (loadCache_miss_falls_through this c w _ Hmiss).
  rewrite (bind_ok _ _ _ _ _ Hget).
  rewrite (bind_ok _ _ _ _ _ (set_flagCache_ok _ v _ _ Hthis1)).
  rewrite Hheap. fold w2.
  by destruct (useFileCache c && truthy v).
Qed.

(** [getFlag] on a loaded client: the answer comes from memory and the
    world stays as it was. *)
Lemma getFlag_loaded (this : loc) (c : PhlagClient) (name : string) (w : World) :
  heap w !! this = Some c -> cacheEnabled c = true -> Loaded c ->
  getFlag this name w = (answer_from_memory (flagCache c) name, w).
Proof.
  intros Hthis Hcache Hloaded.
  unfold getFlag. rewrite (bind_ok _ _ _ _ _ (get_this_ok _ _ _ Hthis)).
  rewrite Hcache.
  assert (Hnull : is_null (flagCache c) = false).
  { unfold Loaded in Hloaded. by destruct (flagCache c). }
  rewrite Hnull. unfold_M. rewrite (get_this_ok _ _ _ Hthis).
  unfold answer_from_memory. by destruct (get_property (flagCache c) name).
Qed.

(** [getFlag] on an empty client runs the Load algorithm first. *)
Lemma getFlag_empty (this : loc) (c : PhlagClient) (name : string) (w : World) :
  heap w !! this = Some c -> cacheEnabled c = true -> Empty c ->
  getFlag this name w
  = bind (loadCache this)
      (fun _ => c <- get_this this ;;
                v <- lift (get_property (flagCache c) name) ;;
                ret (nullish_coalesce v VNull)) w.
Proof.
  intros Hthis Hcache Hempty.
  unfold getFlag. rewrite (bind_ok _ _ _ _ _ (get_this_ok _ _ _ Hthis)).
  by rewrite Hcache, Hempty.
Qed.

Lemma with_flagCache_same (c : PhlagClient) : with_flagCache (flagCache c) c = c.
Proof. by destruct c. Qed.

(** A truthy value has properties to read: the read does not throw. *)
Lemma truthy_get_property (v : jsval) (name : string) :
  truthy v = true -> exists x, get_property v name = Ok x.
Proof. destruct v; simpl; try done; eauto. by repeat case_match; eauto. Qed.

Lemma unchanged_loadCache {T : Type} (proj : World -> T) (this : loc) :
  (forall l w, proj (set_fetchLog l w) = proj w) ->
  (forall f w, proj (set_fs f w) = proj w) ->
  (forall c w, proj (set_console c w) = proj w) ->
  (forall v, unchanged proj (set_flagCache this v)) ->
  unchanged proj (loadCache this).
Proof.
  intros Hlog Hfs Hconsole Hset. unfold loadCache.
  pose proof (unchanged_loadCacheFromFile proj).
  pose proof (fun f d => unchanged_writeCacheToFile proj f d Hfs Hconsole).
  pose proof (fun c e r => unchanged_Client_get proj c e r Hlog).
  frame.
Qed.

Lemma unchanged_getFlag {T : Type} (proj : World -> T) (this : loc) (name : string) :
  (forall l w, proj (set_fetchLog l w) = proj w) ->
  (forall f w, proj (set_fs f w) = proj w) ->
  (forall c w, proj (set_console c w) = proj w) ->
  (forall v, unchanged proj (set_flagCache this v)) ->
  unchanged proj (getFlag this name).
Proof.
  intros Hlog Hfs Hconsole Hset. unfold getFlag.
  pose proof (unchanged_loadCache proj this Hlog Hfs Hconsole Hset).
  pose proof (fun c e r => unchanged_Client_get proj c e r Hlog).
  frame.
Qed.

Lemma unchanged_isEnabled {T : Type} (proj : World -> T) (this : loc) (name : string) :
  (forall l w, proj (set_fetchLog l w) = proj w) ->
  (forall f w, proj (set_fs f w) = proj w) ->
  (forall c w, proj (set_console c w) = proj w) ->
  (forall v, unchanged proj (set_flagCache this v)) ->
  unchanged proj (isEnabled this name).
Proof.
  intros Hlog Hfs Hconsole Hset. unfold isEnabled.
  pose proof (unchanged_getFlag proj this name Hlog Hfs Hconsole Hset).
  frame.
Qed.

Lemma unchanged_warmCache {T : Type} (proj : World -> T) (this : loc) :
  (forall l w, proj (set_fetchLog l w) = proj w) ->
  (forall f w, proj (set_fs f w) = proj w) ->
  (forall c w, proj (set_console c w) = proj w) ->
  (forall v, unchanged proj (set_flagCache this v)) ->
  unchanged proj (warmCache this).
Proof.
  intros Hlog Hfs Hconsole Hset. unfold warmCache.
  pose proof (unchanged_loadCache proj this Hlog Hfs Hconsole Hset).
  frame.
Qed.

Lemma unchanged_clearCache {T : Type} (proj : World -> T) (this : loc) :
  (forall f w, proj (set_fs f w) = proj w) ->
  (forall v, unchanged proj (set_flagCache this v)) ->
  unchanged proj (clearCache this).
Proof.
  intros Hfs Hset. unfold clearCache.
  pose proof (fun f => unchanged_deleteCacheFile proj f Hfs).
  frame.
Qed.

(** On an empty client whose durable cache misses, [getFlag] issues exactly
    one Transport call: the bulk fetch. *)
Lemma getFlag_empty_fetches (this : loc) (c : PhlagClient) (name : string) (w : World) :
  heap w !! this = Some c -> cacheEnabled c = true -> Empty c -> file_miss c w ->
  fetchLog (snd (getFlag this name w))
  = (fetchLog w ++ [request_of (client c) (bulk_endpoint c)])%list.
Proof.
  intros Hthis Hcache Hempty Hmiss.
  rewrite (getFlag_empty this c name w Hthis Hcache Hempty).
  pose proof (Client_get_fetchLog (client c) (bulk_endpoint c) true w) as Hlog.
  destruct (Client_get (client c) (bulk_endpoint c) true w) as [[v|e|] w1] eqn:Hget;
    simpl in Hlog.
  - pose proof (loadCache_fetch_ok this c w w1 v Hthis Hmiss Hget) as Hload.
    simpl in Hload.
    set (w2 := set_heap (<[this:=with_flagCache v c]> (heap w)) w1) in *.
    assert (Hload' : fetchLog (snd (loadCache this w)) = fetchLog w1).
    { rewrite Hload. destruct (useFileCache c && truthy v); [|done].
      by rewrite (unchanged_writeCacheToFile fetchLog _ _
                    (fun _ _ => eq_refl) (fun _ _ => eq_refl) w2). }
    rewrite <- Hlog, <- Hload'. unfold bind.
    destruct (loadCache this w) as [[[]|e|] w3]; [|done..]. simpl.
    assert (Hk : unchanged fetchLog
              (c0 <- get_this this ;;
               v0 <- lift (get_property (flagCache c0) name) ;;
               ret (nullish_coalesce v0 VNull))) by frame.
    apply Hk.
  - by rewrite (bind_throw _ _ _ _ _
                  (loadCache_fetch_throws this c w w1 e Hthis Hmiss Hget)).
  - by rewrite (bind_hang _ _ _ _
                  (loadCache_fetch_hangs this c w w1 Hthis Hmiss Hget)).
Qed.

(** [clearCache] on a cache-enabled client returns, and empties the
    snapshot. *)
Lemma clearCache_enabled (this : loc) (c : PhlagClient) (w : World) :
  heap w !! this = Some c -> cacheEnabled c = true ->
  exists w', clearCache this w = (Ok tt, w')
    /\ heap w' = <[this := with_flagCache VNull c]> (heap w)
    /\ fetchLog w' = fetchLog w.
Proof.
  intros Hthis Hcache.
  unfold clearCache. rewrite (bind_ok _ _ _ _ _ (get_this_ok _ _ _ Hthis)).
  rewrite Hcache. rewrite (bind_ok _ _ _ _ _ (set_flagCache_ok _ VNull _ _ Hthis)).
  set (w1 := set_heap _ w).
  destruct (useFileCache c); [|by exists w1].
  destruct (always_returns_deleteCacheFile (cacheFile c) w1) as ([] & Hok).
  pose proof (unchanged_deleteCacheFile heap (cacheFile c) (fun _ _ => eq_refl) w1) as Hh.
  pose proof (unchanged_deleteCacheFile fetchLog (cacheFile c) (fun _ _ => eq_refl) w1) as Hl.
  destruct (deleteCacheFile (cacheFile c) w1) as [r w2]. simpl in *. subst r.
  exists w2. by rewrite Hh, Hl.
Qed.

Lemma run_getFlags_loaded (this : loc) (c : PhlagClient) (names : list string) (w : World) :
  heap w !! this = Some c -> cacheEnabled c = true -> Loaded c ->
  run_calls this (CallGetFlag <$> names) w = w.
Proof.
  intros Hthis Hcache Hloaded. induction names as [|name names IH]; [done|].
  simpl. unfold run_calls in *. simpl.
  by rewrite (getFlag_loaded this c name w Hthis Hcache Hloaded).
Qed.

(** Writing the snapshot of one instance leaves every other instance
    alone, and so does every call on it. *)
Lemma set_flagCache_other (this other : loc) (v : jsval) :
  other <> this -> unchanged (fun w => heap w !! other) (set_flagCache this v).
Proof.
  intros Hne w. unfold set_flagCache.
  destruct (heap w !! this); simpl; [|done].
  by apply lookup_insert_ne.
Qed.

Lemma run_call_other (this other : loc) (call : Call) (w : World) :
  other <> this -> heap (run_call this call w) !! other = heap w !! other.
Proof.
  intros Hne.
  pose proof (fun v => set_flagCache_other this other v Hne) as Hset.
  destruct call as [name|name| |]; simpl.
  - by apply (unchanged_getFlag (fun w => heap w !! other)).
  - by apply (unchanged_isEnabled (fun w => heap w !! other)).
  - by apply (unchanged_warmCache (fun w => heap w !! other)).
  - by apply (unchanged_clearCache (fun w => heap w !! other)).
Qed.

Lemma run_calls_other (this other : loc) (calls : list Call) (w : World) :
  other <> this -> heap (run_calls this calls w) !! other = heap w !! other.
Proof.
  intros Hne. revert w. induction calls as [|call calls IH]; intros w; [done|].
  unfold run_calls in *. simpl. rewrite IH. by apply run_call_other.
Qed.

(** C6. A cache-enabled client whose Load reaches the bulk fetch (the
    snapshot is empty and the durable cache misses) and fetches a truthy
    snapshot, so that the durable write is attempted: whatever the file
    system does to that write, [getFlag] returns the value the fetched
    snapshot holds for the name, the snapshot is adopted into memory, and no
    exception surfaces. When a [writeFile] of the protocol fails, the failure
    is reported with one [console.error] line. *)
Theorem getFlag_survives_write_failure
    (this : loc) (c : PhlagClient) (name : string) (w w1 : World) (snapshot : jsval) :
  heap w !! this = Some c ->
  cacheEnabled c = true -> useFileCache c = true -> Empty c ->
  file_miss c w ->
  Client_get (client c) (bulk_endpoint c) true w = (Ok snapshot, w1) ->
  truthy snapshot = true ->
  exists x w',
    get_property snapshot name = Ok x
    /\ getFlag this name w = (Ok (nullish_coalesce x VNull), w')
    /\ heap w' !! this = Some (with_flagCache snapshot c)
    /\ forall msg left,
         let tempFile := cacheFile c +:+ "." +:+ pretty pid +:+ ".tmp" in
         faults w (OpWriteFile tempFile) = Fails msg left
         \/ (faults w (OpWriteFile tempFile) = NoFault
             /\ faults w (OpWriteFile (cacheFile c)) = Fails msg left) ->
         console w'
         = (console w
            ++ [("Phlag: Unable to write cache file: " +:+ cacheFile c, msg)])%list.
Proof.
  intros Hthis Hcache Hfile Hempty Hmiss Hget Htruthy.
  destruct (truthy_get_property snapshot name Htruthy) as (x & Hx).
  rewrite (getFlag_empty this c name w Hthis Hcache Hempty).
  pose proof (loadCache_fetch_ok this c w w1 snapshot Hthis Hmiss Hget) as Hload.
  simpl in Hload. rewrite Hfile, Htruthy in Hload. simpl in Hload.
  set (w2 := set_heap (<[this:=with_flagCache snapshot c]> (heap w)) w1) in *.
  assert (Hfaults : faults w2 = faults w).
  { pose proof (unchanged_Client_get faults (client c) (bulk_endpoint c) true
                  (fun _ _ => eq_refl) w) as Hf. by rewrite Hget in Hf. }
  assert (Hconsole : console w2 = console w).
  { pose proof (unchanged_Client_get console (client c) (bulk_endpoint c) true
                  (fun _ _ => eq_refl) w) as Hf. by rewrite Hget in Hf. }
  destruct (always_returns_writeCacheToFile (cacheFile c) snapshot w2) as ([] & Hok).
  pose proof (unchanged_writeCacheToFile heap (cacheFile c) snapshot
                (fun _ _ => eq_refl) (fun _ _ => eq_refl) w2) as Hheap3.
  destruct (writeCacheToFile (cacheFile c) snapshot w2) as [r w3] eqn:Hwrite.
  simpl in Hok, Hheap3. subst r.
  assert (Hthis3 : heap w3 !! this = Some (with_flagCache snapshot c)).
  { rewrite Hheap3. subst w2. simpl. apply lookup_insert_eq. }
  exists x, w3. split; [done|]. split; [|split; [done|]].
  - rewrite (bind_ok _ _ _ _ _ Hload).
    rewrite (bind_ok _ _ _ _ _ (get_this_ok _ _ _ Hthis3)).
    unfold_M. simpl. by rewrite Hx.
  - intros msg left tempFile Hfail.
    destruct (writeCacheToFile_reports_failure (cacheFile c) snapshot w2 msg left)
      as (w3' & Hwrite' & Hlog).
    { fold tempFile. by rewrite Hfaults. }
    rewrite Hwrite in Hwrite'. injection Hwrite' as <-.
    by rewrite Hlog, Hconsole.
Qed.

(** C7. Once a cache-enabled client is Loaded, every [getFlag] answers from
    the in-memory snapshot and leaves the world as it was: after any number
    of [getFlag] calls a further one issues no Transport call and the
    instance is the same, still Loaded; [clearCache] resets it to Empty. *)
Theorem loaded_is_terminal_under_getFlag (this : loc) (c : PhlagClient) (w : World) :
  heap w !! this = Some c -> cacheEnabled c = true -> Loaded c ->
  (forall name, getFlag this name w = (answer_from_memory (flagCache c) name, w))
  /\ (forall names name,
        let w' := run_calls this (CallGetFlag <$> names) w in
        transport_calls (getFlag this name) w' = 0%nat
        /\ heap w' !! this = Some c)
  /\ (exists w', clearCache this w = (Ok tt, w')
        /\ exists c', heap w' !! this = Some c' /\ Empty c').
Proof.
  intros Hthis Hcache Hloaded. split; [|split].
  - intros name. by apply getFlag_loaded.
  - intros names name w'. subst w'.
    rewrite (run_getFlags_loaded this c names w Hthis Hcache Hloaded).
    split; [|done]. unfold transport_calls.
    rewrite (getFlag_loaded this c name w Hthis Hcache Hloaded). simpl. lia.
  - destruct (clearCache_enabled this c w Hthis Hcache) as (w' & Hclear & Hheap & _).
    exists w'. split; [done|]. exists (with_flagCache VNull c).
    rewrite Hheap. split; [apply lookup_insert_eq|done].
Qed.

(** C9. A cache-enabled, Empty client whose durable cache misses and whose
    bulk fetch yields [null] (an empty response body, for one): [getFlag]
    throws the [TypeError] of reading a property of [null], which is none of
    the five failure kinds; one Transport call was issued; the instance is
    as it was, still Empty; and the next [getFlag] runs the Load again,
    issuing one more Transport call. *)
Theorem getFlag_null_bulk_result
    (this : loc) (c : PhlagClient) (name : string) (w w1 : World) :
  heap w !! this = Some c ->
  cacheEnabled c = true -> Empty c -> file_miss c w ->
  Client_get (client c) (bulk_endpoint c) true w = (Ok VNull, w1) ->
  exists w',
    getFlag this name w
    = (Throw (EError "TypeError"
                ("Cannot read properties of null (reading '" +:+ name +:+ "')")), w')
    /\ (forall e, fst (getFlag this name w) = Throw e -> kind_of e = None)
    /\ heap w' !! this = Some c
    /\ fetchLog w' = (fetchLog w ++ [request_of (client c) (bulk_endpoint c)])%list
    /\ forall name',
         fetchLog (snd (getFlag this name' w'))
         = (fetchLog w' ++ [request_of (client c) (bulk_endpoint c)])%list.
Proof.
  intros Hthis Hcache Hempty Hmiss Hget.
  pose proof (loadCache_fetch_ok this c w w1 VNull Hthis Hmiss Hget) as Hload.
  simpl in Hload. rewrite andb_false_r in Hload.
  unfold Empty in Hempty.
  assert (Hc : with_flagCache VNull c = c) by (rewrite <- Hempty; apply with_flagCache_same).
  rewrite Hc in Hload.
  rewrite insert_id in Hload by done.
  assert (Hw1 : set_heap (heap w) w1 = w1).
  { pose proof (unchanged_Client_get heap (client c) (bulk_endpoint c) true
                  (fun _ _ => eq_refl) w) as Hh. rewrite Hget in Hh. simpl in Hh.
    rewrite <- Hh. by destruct w1. }
  rewrite Hw1 in Hload.
  assert (Hthis1 : heap w1 !! this = Some c) by by rewrite <- Hw1.
  assert (Hflag : getFlag this name w
    = (Throw (EError "TypeError"
                ("Cannot read properties of null (reading '" +:+ name +:+ "')")), w1)).
  { rewrite (getFlag_empty this c name w Hthis Hcache Hempty).
    rewrite (bind_ok _ _ _ _ _ Hload).
    rewrite (bind_ok _ _ _ _ _ (get_this_ok _ _ _ Hthis1)).
    by rewrite Hempty. }
  exists w1. split; [done|]. split; [|split; [done|split]].
  - intros e. rewrite Hflag. simpl. by intros [= <-].
  - pose proof (Client_get_fetchLog (client c) (bulk_endpoint c) true w) as Hlog.
    by rewrite Hget in Hlog.
  - intros name'. apply getFlag_empty_fetches; [done..|].
    intros Hfile. specialize (Hmiss Hfile).
    rewrite <- Hmiss. apply loadCacheFromFile_frame.
    + pose proof (unchanged_Client_get fs (client c) (bulk_endpoint c) true
                    (fun _ _ => eq_refl) w) as Hh. by rewrite Hget in Hh.
    + pose proof (unchanged_Client_get faults (client c) (bulk_endpoint c) true
                    (fun _ _ => eq_refl) w) as Hh. by rewrite Hget in Hh.
    + pose proof (unchanged_Client_get now (client c) (bulk_endpoint c) true
                    (fun _ _ => eq_refl) w) as Hh. by rewrite Hget in Hh.
Qed.

End FlagClientProperties.

(** ** Which errors a call can throw *)

Section Throws.
Context {A B : Type} (P : JsError -> Prop).

Lemma throws_only_ret (a : A) : throws_only P (ret a).
Proof. by intros w e. Qed.

Lemma throws_only_throw (e : JsError) : P e -> throws_only P (@throw A e).
Proof. intros He w e'. simpl. by intros [= <-]. Qed.

Lemma throws_only_returns (m : M A) : always_returns m -> throws_only P m.
Proof. intros Hm w e He. destruct (Hm w) as (a & Ha). congruence. Qed.

Lemma throws_only_bind (m : M A) (k : A -> M B) :
  throws_only P m -> (forall a, throws_only P (k a)) -> throws_only P (bind m k).
Proof.
  intros Hm Hk w e. unfold bind. specialize (Hm w).
  destruct (m w) as [[a|e'|] w']; simpl in *; [apply Hk| |done].
  intros [= <-]. by apply Hm.
Qed.

Lemma throws_only_try_catch (Q : JsError -> Prop) (m : M A) (h : JsError -> M A) :
  throws_only Q m -> (forall e, Q e -> throws_only P (h e)) ->
  throws_only P (try_catch m h).
Proof.
  intros Hm Hh w e. unfold try_catch. specialize (Hm w).
  destruct (m w) as [[a|e'|] w']; simpl in *; [done| |done].
  apply Hh. by apply Hm.
Qed.

Lemma throws_only_if (b : bool) (m1 m2 : M A) :
  throws_only P m1 -> throws_only P m2 -> throws_only P (if b then m1 else m2).
Proof. by destruct b. Qed.

End Throws.

Section NoFlagNotFound.
Context {rt : Runtime}.

Lemma throws_only_fetch (req : Request) (timeout : Z) :
  throws_only not_flag_not_found (fetch req timeout).
Proof. intros w e. unfold fetch. repeat case_match; simpl; intros [= <-]; done. Qed.

Lemma throws_only_response_text (r : Response) :
  throws_only not_flag_not_found (response_text r).
Proof. intros w e. unfold response_text. case_match; simpl; intros [= <-]; done. Qed.

Lemma throws_only_handleErrorResponse (r : Response) (endpoint : string) :
  String.prefix "flag/" endpoint = false ->
  throws_only not_flag_not_found (handleErrorResponse r endpoint).
Proof.
  intros Hprefix w e.
  destruct (handleErrorResponse_outcome r endpoint w)
    as (res & -> & H401 & _ & H404 & Hother & Hstall).
  simpl. intros ->.
  destruct (Z.eq_dec (status r) 401) as [E|N1]; [by injection (H401 E) as ->|].
  destruct (Z.eq_dec (status r) 404) as [E|N2]; [by injection (H404 E Hprefix) as ->|].
  destruct (body r) as [text|name message|] eqn:Hbody.
  - destruct (Hother N1 N2) as (m & Hm); [done|]. by injection Hm as ->.
  - destruct (Hother N1 N2) as (m & Hm); [done|]. by injection Hm as ->.
  - by specialize (Hstall N1 N2 eq_refl).
Qed.

(** On an endpoint that does not begin with [flag/], [Client.get] never
    throws an [InvalidFlagError]. *)
Lemma throws_only_Client_get (c : Client) (endpoint : string) (returnObject : bool) :
  String.prefix "flag/" endpoint = false ->
  throws_only not_flag_not_found (Client_get c endpoint returnObject).
Proof.
  intros Hprefix. unfold Client_get.
  apply (throws_only_try_catch _ not_flag_not_found).
  - apply throws_only_bind; [apply throws_only_fetch|]. intros response.
    apply throws_only_bind.
    { apply throws_only_if; [by apply throws_only_handleErrorResponse|apply throws_only_ret]. }
    intros _. apply throws_only_bind; [apply throws_only_response_text|]. intros text.
    repeat case_match; apply throws_only_ret.
  - intros e He. repeat case_match; by apply throws_only_throw.
Qed.

Lemma throws_only_get_this (this : loc) : throws_only not_flag_not_found (get_this this).
Proof. intros w e. unfold get_this. case_match; simpl; intros [= <-]; done. Qed.

Lemma throws_only_set_flagCache (this : loc) (v : jsval) :
  throws_only not_flag_not_found (set_flagCache this v).
Proof. intros w e. unfold set_flagCache. case_match; simpl; intros [= <-]; done. Qed.

Lemma throws_only_get_property (v : jsval) (name : string) :
  throws_only not_flag_not_found (lift (get_property v name)).
Proof.
  intros w e. unfold lift, get_property. simpl.
  repeat case_match; intros [= <-]; done.
Qed.

Lemma throws_only_loadCache (this : loc) : throws_only not_flag_not_found (loadCache this).
Proof.
  unfold loadCache.
  apply throws_only_bind; [apply throws_only_get_this|]. intros c.
  apply throws_only_bind.
  { apply throws_only_if; [|apply throws_only_ret].
    apply throws_only_bind.
    - apply throws_only_returns. intros w.
      destruct (loadCacheFromFile_total (cacheFile c) (cacheTtl c) w) as (v & -> & _).
      eauto.
    - intros cached. apply throws_only_if; [|apply throws_only_ret].
      apply throws_only_bind; [apply throws_only_set_flagCache|].
      intros _. apply throws_only_ret. }
  intros fromFile. apply throws_only_if; [apply throws_only_ret|].
  apply throws_only_bind; [by apply throws_only_Client_get|]. intros fetched.
  apply throws_only_bind; [apply throws_only_set_flagCache|]. intros _.
  apply throws_only_if; [|apply throws_only_ret].
  apply throws_only_returns, always_returns_writeCacheToFile.
Qed.

(** With caching enabled, no error [getFlag] throws is an
    [InvalidFlagError], for any name and any world. *)
Theorem getFlag_cached_never_flag_not_found
    (this : loc) (c : PhlagClient) (name : string) (w : World) (e : JsError) :
  heap w !! this = Some c -> cacheEnabled c = true ->
  fst (getFlag this name w) = Throw e -> kind_of e <> Some InvalidFlagError.
Proof.
  intros Hthis Hcache.
  unfold getFlag. rewrite (bind_ok _ _ _ _ _ (get_this_ok _ _ _ Hthis)), Hcache.
  assert (H : throws_only not_flag_not_found
    ((if is_null (flagCache c) then loadCache this else ret tt) ;;;
     c0 <- get_this this ;;
     v <- lift (get_property (flagCache c0) name) ;;
     ret (nullish_coalesce v VNull))).
  { apply throws_only_bind.
    - apply throws_only_if; [apply throws_only_loadCache|apply throws_only_ret].
    - intros _. apply throws_only_bind; [apply throws_only_get_this|]. intros c0.
      apply throws_only_bind; [apply throws_only_get_property|]. intros v.
      apply throws_only_ret. }
  apply H.
Qed.

(** On a Loaded client whose snapshot is a plain object, [getFlag] returns
    [null] for every name that is neither a key of the snapshot nor the name
    of a member of [Object.prototype]. *)
Theorem getFlag_absent_name
    (this : loc) (c : PhlagClient) (snapshot : gmap string jsval) (name : string)
    (w : World) :
  heap w !! this = Some c -> cacheEnabled c = true ->
  flagCache c = VObj snapshot ->
  snapshot !! name = None -> inherited name = false ->
  getFlag this name w = (Ok VNull, w).
Proof.
  intros Hthis Hcache Hsnapshot Hname Hinherited.
  rewrite (getFlag_loaded this c name w Hthis Hcache); [|unfold Loaded; congruence].
  unfold answer_from_memory, get_property. by rewrite Hsnapshot, Hname, Hinherited.
Qed.

(** For a name that is no key of the snapshot but names a member of
    [Object.prototype], the answer is that member, not [null]. *)
Lemma getFlag_inherited_name
    (this : loc) (c : PhlagClient) (snapshot : gmap string jsval) (name : string)
    (w : World) :
  heap w !! this = Some c -> cacheEnabled c = true ->
  flagCache c = VObj snapshot ->
  snapshot !! name = None -> inherited name = true ->
  getFlag this name w = (Ok (VBuiltin name), w).
Proof.
  intros Hthis Hcache Hsnapshot Hname Hinherited.
  rewrite (getFlag_loaded this c name w Hthis Hcache); [|unfold Loaded; congruence].
  unfold answer_from_memory, get_property. by rewrite Hsnapshot, Hname, Hinherited.
Qed.

End NoFlagNotFound.

(** ** The default cache location *)

Lemma string_app_cons (a : ascii) (s t : string) : String a s +:+ t = String a (s +:+ t).
Proof. reflexivity. Qed.

Lemma string_app_nil_l (t : string) : "" +:+ t = t.
Proof. reflexivity. Qed.

Lemma string_app_assoc (s t u : string) : (s +:+ t) +:+ u = s +:+ (t +:+ u).
Proof. induction s as [|a s IH]; [done|]. by rewrite !string_app_cons, IH. Qed.

Lemma string_app_length (s t : string) :
  String.length (s +:+ t) = (String.length s + String.length t)%nat.
Proof.
  induction s as [|a s IH]; [done|]. rewrite string_app_cons. simpl. by rewrite IH.
Qed.

Lemma string_app_inj_r (t s1 s2 : string) : s1 +:+ t = s2 +:+ t -> s1 = s2.
Proof.
  revert s2. induction s1 as [|a s1 IH]; intros [|b s2] Heq; [done| | |].
  - apply (f_equal String.length) in Heq.
    rewrite string_app_nil_l, string_app_cons in Heq. simpl in Heq.
    rewrite string_app_length in Heq. lia.
  - apply (f_equal String.length) in Heq.
    rewrite string_app_nil_l, string_app_cons in Heq. simpl in Heq.
    rewrite string_app_length in Heq. lia.
  - rewrite !string_app_cons in Heq. injection Heq as -> Heq. f_equal. by apply IH.
Qed.

(** The transport drops the slash that was added. *)
Lemma strip_trailing_slash_added (b : string) : strip_trailing_slash (b +:+ "/") = b.
Proof.
  induction b as [|a b IH]; [done|].
  rewrite string_app_cons. destruct b as [|a' b]; [done|].
  rewrite string_app_cons in *. simpl. simpl in IH. by rewrite IH.
Qed.

(** The hashed string keeps it. *)
Lemma trailing_slash_changes_key (b e : string) :
  b +:+ "|" +:+ e <> (b +:+ "/") +:+ "|" +:+ e.
Proof.
  rewrite string_app_assoc. intros Heq. apply (inj (String.app b)) in Heq. done.
Qed.

(** The derived locations are equal exactly when the digests are. *)
Lemma derived_location_inj (dir h1 h2 : string) :
  dir +:+ "/phlag_cache_" +:+ h1 +:+ ".json" = dir +:+ "/phlag_cache_" +:+ h2 +:+ ".json"
  <-> h1 = h2.
Proof.
  split; [|by intros ->].
  intros Heq. apply (inj (String.app _)) in Heq. apply (inj (String.app _)) in Heq.
  by apply string_app_inj_r in Heq.
Qed.

Section CacheLocation.
Context {rt : Runtime}.

Lemma default_location (b e : string) :
  has_require = true ->
  generateCacheFilename b e None
  = Ok (tmpdir +:+ "/phlag_cache_" +:+ md5_hex (b +:+ "|" +:+ e) +:+ ".json").
Proof. unfold generateCacheFilename. by intros ->. Qed.

Lemma constructor_with_default_location (o : PhlagClientOptions) :
  has_require = true -> opt_cacheFile o = None ->
  exists c, PhlagClient_constructor o = Ok c
    /\ cacheFile c = tmpdir +:+ "/phlag_cache_" +:+ md5_hex (cache_key o) +:+ ".json"
    /\ client c = new_Client (opt_baseUrl o) (opt_apiKey o) (default 10000 (opt_timeout o)).
Proof.
  intros Hrequire Hfile. unfold PhlagClient_constructor.
  rewrite Hfile, (default_location _ _ Hrequire). by eexists.
Qed.

(** Where [require] is defined, two clients constructed without a custom
    cache file. The cache location of each is the temporary directory,
    [/phlag_cache_], the MD5 digest of the raw string
    [baseUrl|environment] and [.json], while its transport keeps the base
    URL with one trailing slash stripped. The two locations are equal
    exactly when the two digests are; equal strings [baseUrl|environment]
    give equal locations. When the second base URL is the first plus a
    trailing slash and the environments are equal, the hashed strings
    differ, so the locations differ whenever the digests do; and when the
    first base URL has no trailing slash and the API keys are equal, the
    two transports send the same request for every endpoint. *)
Theorem default_cache_location_hashes_raw_base_url (o1 o2 : PhlagClientOptions) :
  has_require = true ->
  opt_cacheFile o1 = None -> opt_cacheFile o2 = None ->
  exists c1 c2,
    PhlagClient_constructor o1 = Ok c1 /\ PhlagClient_constructor o2 = Ok c2
    /\ cacheFile c1 = tmpdir +:+ "/phlag_cache_" +:+ md5_hex (cache_key o1) +:+ ".json"
    /\ client_baseUrl (client c1) = strip_trailing_slash (opt_baseUrl o1)
    /\ (cacheFile c1 = cacheFile c2 <-> md5_hex (cache_key o1) = md5_hex (cache_key o2))
    /\ (cache_key o1 = cache_key o2 -> cacheFile c1 = cacheFile c2)
    /\ (opt_baseUrl o2 = opt_baseUrl o1 +:+ "/" ->
        opt_environment o2 = opt_environment o1 ->
        cache_key o1 <> cache_key o2
        /\ (md5_hex (cache_key o1) <> md5_hex (cache_key o2) -> cacheFile c1 <> cacheFile c2)
        /\ (strip_trailing_slash (opt_baseUrl o1) = opt_baseUrl o1 ->
            opt_apiKey o2 = opt_apiKey o1 ->
            forall endpoint,
              request_of (client c1) endpoint = request_of (client c2) endpoint)).
Proof.
  intros Hrequire Hfile1 Hfile2.
  destruct (constructor_with_default_location o1 Hrequire Hfile1) as (c1 & Hc1 & Hloc1 & Hcl1).
  destruct (constructor_with_default_location o2 Hrequire Hfile2) as (c2 & Hc2 & Hloc2 & Hcl2).
  exists c1, c2.
  assert (Hiff : cacheFile c1 = cacheFile c2
                 <-> md5_hex (cache_key o1) = md5_hex (cache_key o2)).
  { rewrite Hloc1, Hloc2. apply derived_location_inj. }
  split; [done|split; [done|split; [done|split; [by rewrite Hcl1|split; [done|split]]]]].
  - intros Hkey. apply Hiff. by rewrite Hkey.
  - intros Hbase Henv. split; [|split].
    + unfold cache_key. rewrite Hbase, Henv. apply trailing_slash_changes_key.
    + intros Hdigest Hsame. by apply Hdigest, Hiff.
    + intros Hstrip Hkey endpoint.
      unfold request_of. rewrite Hcl1, Hcl2. unfold new_Client. simpl.
      by rewrite Hbase, strip_trailing_slash_added, Hstrip, Hkey.
Qed.

(** C8. [withEnvironment e] on any instance, where [require] is defined:
    it returns a new instance, at a reference that was not in use, with the
    original's base URL, API key, timeout, cache-enabled flag and ttl, the
    environment [e], an Empty snapshot, and the cache location derived for
    [e]: the temporary directory, [/phlag_cache_], the MD5 digest of
    [baseUrl|e] and [.json], which is the location derived for the
    original's environment exactly when the two digests agree. The call
    leaves every field of the original as it was, and so does any sequence
    of [getFlag], [isEnabled], [warmCache] and [clearCache] calls on the new
    instance, in any later world. Where [require] is not defined, the call
    throws a [ReferenceError] and there is no new instance, whatever cache
    file the original was given. *)
Theorem withEnvironment_derives_new_instance
    (this : loc) (c : PhlagClient) (e : string) (w : World) :
  heap w !! this = Some c ->
  (has_require = true ->
   exists new c',
     withEnvironment this e w = (Ok new, set_heap (<[new := c']> (heap w)) w)
     /\ new <> this /\ heap w !! new = None
     /\ baseUrl c' = baseUrl c /\ apiKey c' = apiKey c /\ timeout c' = timeout c
     /\ cacheEnabled c' = cacheEnabled c /\ cacheTtl c' = cacheTtl c
     /\ client c' = new_Client (baseUrl c) (apiKey c) (timeout c)
     /\ environment c' = e
     /\ Empty c'
     /\ cacheFile c'
        = tmpdir +:+ "/phlag_cache_" +:+ md5_hex (baseUrl c +:+ "|" +:+ e) +:+ ".json"
     /\ (cacheFile c'
         = tmpdir +:+ "/phlag_cache_"
           +:+ md5_hex (baseUrl c +:+ "|" +:+ environment c) +:+ ".json"
         <-> md5_hex (baseUrl c +:+ "|" +:+ e)
             = md5_hex (baseUrl c +:+ "|" +:+ environment c))
     /\ (forall calls,
           heap (run_calls new calls (set_heap (<[new := c']> (heap w)) w)) !! this
           = Some c)
     /\ (forall calls w', heap (run_calls new calls w') !! this = heap w' !! this))
  /\ (has_require = false ->
      withEnvironment this e w = (Throw ReferenceError, w)).
Proof.
  intros Hthis.
  unfold withEnvironment. rewrite (bind_ok _ _ _ _ _ (get_this_ok _ _ _ Hthis)).
  unfold new_PhlagClient, PhlagClient_constructor, generateCacheFilename. simpl.
  split; intros ->; [|done].
  set (new := fresh (dom (heap w))).
  assert (Hnew : heap w !! new = None).
  { apply not_elem_of_dom. apply is_fresh. }
  assert (Hne : new <> this) by congruence.
  eexists new, _. split; [done|].
  repeat (split; [done|]). simpl.
  split; [apply derived_location_inj|split].
  - intros calls. rewrite run_calls_other by done.
    simpl. by rewrite lookup_insert_ne.
  - intros calls w'. by apply run_calls_other.
Qed.

End CacheLocation.

(** ** The window of the write protocol *)

Section UnlinkWindow.
Context {rt : Runtime}.

(** When the first write and the unlink go through, the world after the
    second step of the protocol has no file at the cache location: the old
    one is gone and the new one is not written yet. *)
Lemma write_steps_unlink_window (cacheFile : string) (data : jsval) (w : World) :
  faults w (OpWriteFile (cacheFile +:+ "." +:+ pretty pid +:+ ".tmp")) = NoFault ->
  faults w (OpUnlink cacheFile) = NoFault ->
  observe cacheFile (snd (run_steps (take 2 (write_steps cacheFile data)) w)) = None.
Proof.
  intros Hwrite Hunlink.
  unfold write_steps, observe. simpl.
  unfold run_step, fs_writeFile, fs_unlink; unfold_M.
  rewrite Hwrite. simpl. rewrite Hunlink.
  destruct (<[_ := _]> (fs w) !! cacheFile) as [f|] eqn:Hf; simpl.
  - by rewrite lookup_delete_eq.
  - by rewrite Hf.
Qed.

End UnlinkWindow.

(** ** Writing, then reading *)

Lemma temp_file_differs (cacheFile suffix : string) :
  cacheFile +:+ "." +:+ suffix <> cacheFile.
Proof.
  intros Heq. apply (f_equal String.length) in Heq.
  rewrite !string_app_length in Heq. simpl in Heq. lia.
Qed.

Lemma set_fs_same (w : World) : set_fs (fs w) w = w.
Proof. by destruct w. Qed.

Lemma fs_writeFile_ok (path data : string) (w : World) :
  faults w (OpWriteFile path) = NoFault ->
  fs_writeFile path data w = (Ok tt, set_fs (<[path := written data w]> (fs w)) w).
Proof. unfold fs_writeFile. by intros ->. Qed.

Lemma fs_unlink_ignoring_errors (path : string) (w : World) :
  faults w (OpUnlink path) = NoFault ->
  try_catch (fs_unlink path) (fun _ => ret tt) w
  = (Ok tt, set_fs (delete path (fs w)) w).
Proof.
  intros Hfault. unfold try_catch, fs_unlink, ret. rewrite Hfault.
  destruct (fs w !! path) as [f|] eqn:Hf; [done|].
  by rewrite delete_id, set_fs_same.
Qed.

Section RoundTrip.
Context {rt : Runtime}.

(** With no I/O failure the write leaves the new content at the cache
    location, stamped with the current time. *)
Lemma writeCacheToFile_writes (cacheFile : string) (data : jsval) (w : World) :
  (forall op, faults w op = NoFault) ->
  exists w', writeCacheToFile cacheFile data w = (Ok tt, w')
    /\ fs w' !! cacheFile = Some (written (JSON_stringify data) w)
    /\ faults w' = faults w /\ now w' = now w.
Proof.
  intros Hfaults.
  pose proof (temp_file_differs cacheFile (pretty pid +:+ ".tmp")) as Hne.
  unfold writeCacheToFile.
  set (tempFile := cacheFile +:+ "." +:+ pretty pid +:+ ".tmp") in *.
  unfold try_catch at 1.
  erewrite bind_ok; [|apply fs_writeFile_ok, Hfaults].
  erewrite bind_ok; [|apply fs_unlink_ignoring_errors, Hfaults].
  erewrite bind_ok; [|apply fs_writeFile_ok, Hfaults].
  rewrite fs_unlink_ignoring_errors by apply Hfaults.
  eexists. split; [done|]. simpl. split; [|done].
  rewrite lookup_delete_ne by done. by rewrite lookup_insert_eq.
Qed.

(** When the write of the cache file itself fails part-way, what it left
    behind is what the cache location holds afterwards. *)
Lemma failed_write_leaves_partial_content
    (cacheFile : string) (data : jsval) (w : World) (msg part : string) :
  faults w (OpWriteFile (cacheFile +:+ "." +:+ pretty pid +:+ ".tmp")) = NoFault ->
  faults w (OpUnlink cacheFile) = NoFault ->
  faults w (OpWriteFile cacheFile) = Fails msg (Some part) ->
  observe cacheFile (snd (writeCacheToFile cacheFile data w)) = Some part.
Proof.
  intros Htemp Hunlink Hwrite.
  unfold writeCacheToFile.
  set (tempFile := cacheFile +:+ "." +:+ pretty pid +:+ ".tmp") in *.
  unfold try_catch at 1.
  erewrite bind_ok; [|by apply fs_writeFile_ok].
  erewrite bind_ok; [|by apply fs_unlink_ignoring_errors].
  unfold bind, fs_writeFile, console_error, observe. simpl. rewrite Hwrite. simpl.
  by rewrite lookup_insert_eq.
Qed.


End RoundTrip.

(** ** Without caching, and [isEnabled] *)

Section Stateless.
Context {rt : Runtime}.

(** With caching disabled [getFlag] is the Transport call on the
    single-flag endpoint, whatever that call does; [warmCache] and
    [clearCache] do nothing. *)
Theorem cache_disabled_is_pass_through
    (this : loc) (c : PhlagClient) (name : string) (w : World) :
  heap w !! this = Some c -> cacheEnabled c = false ->
  getFlag this name w
  = Client_get (client c) ("flag/" +:+ environment c +:+ "/" +:+ name) false w
  /\ heap (snd (getFlag this name w)) = heap w
  /\ warmCache this w = (Ok tt, w)
  /\ clearCache this w = (Ok tt, w).
Proof.
  intros Hthis Hcache.
  assert (Hflag : getFlag this name w
    = Client_get (client c) ("flag/" +:+ environment c +:+ "/" +:+ name) false w).
  { unfold getFlag. rewrite (bind_ok _ _ _ _ _ (get_this_ok _ _ _ Hthis)).
    by rewrite Hcache. }
  split; [done|split; [|split]].
  - rewrite Hflag. by apply (unchanged_Client_get heap).
  - unfold warmCache. rewrite (bind_ok _ _ _ _ _ (get_this_ok _ _ _ Hthis)).
    by rewrite Hcache.
  - unfold clearCache. rewrite (bind_ok _ _ _ _ _ (get_this_ok _ _ _ Hthis)).
    by rewrite Hcache.
Qed.

(** [isEnabled] passes the result of [getFlag] through [=== true]. *)
Lemma isEnabled_of_getFlag (this : loc) (name : string) (w : World) :
  isEnabled this name w
  = (match fst (getFlag this name w) with
     | Ok (VBool true) => Ok true
     | Ok _ => Ok false
     | Throw e => Throw e
     | Hang => Hang
     end, snd (getFlag this name w)).
Proof.
  unfold isEnabled, bind, ret.
  destruct (getFlag this name w) as [[v|e|] w']; [|done..].
  by destruct v as [| |[]| | | | |].
Qed.

(** A switch is on only when the snapshot says so. On a cache-enabled
    client Loaded with a plain-object snapshot, [isEnabled] returns, sends
    no request and changes nothing, and its answer is [true] exactly when
    the name is a key of the snapshot whose value is the boolean [true]: a
    missing flag, a flag holding [false], the number 1 or the string
    ["true"], and a name that only [Object.prototype] knows are all off. *)
Theorem isEnabled_reads_the_snapshot
    (this : loc) (c : PhlagClient) (name : string) (w : World)
    (snapshot : gmap string jsval) :
  heap w !! this = Some c -> cacheEnabled c = true ->
  flagCache c = VObj snapshot ->
  exists enabled : bool,
    isEnabled this name w = (Ok enabled, w)
    /\ (enabled = true <-> snapshot !! name = Some (VBool true)).
Proof.
  intros Hthis Hcache Hsnapshot.
  assert (Hloaded : Loaded c) by (unfold Loaded; by rewrite Hsnapshot).
  rewrite isEnabled_of_getFlag, (getFlag_loaded this c name w Hthis Hcache Hloaded).
  rewrite Hsnapshot. unfold answer_from_memory, get_property. simpl.
  destruct (snapshot !! name) as [v|] eqn:Hname.
  - destruct v as [| |[]| | | | |]; simpl;
      (eexists; split; [done|]; split; intros; congruence).
  - destruct (inherited name); simpl;
      (eexists; split; [done|]; split; intros; congruence).
Qed.

End Stateless.

(** ** The transport, call by call *)

(** Two worlds are equal when their seven parts are. *)
Lemma World_eq (w1 w2 : World) :
  fs w1 = fs w2 -> faults w1 = faults w2 -> now w1 = now w2 -> net w1 = net w2 ->
  fetchLog w1 = fetchLog w2 -> console w1 = console w2 -> heap w1 = heap w2 ->
  w1 = w2.
Proof. destruct w1, w2. simpl. by intros -> -> -> -> -> -> ->. Qed.

Section TransportCalls.
Context {rt : Runtime}.

(** The second argument of [Client.get] changes nothing at run time: both
    branches of the test on [returnObject] return the parsed value. *)
Theorem Client_get_ignores_returnObject (c : Client) (endpoint : string) (w : World) :
  Client_get c endpoint true w = Client_get c endpoint false w.
Proof.
  unfold Client_get, bind, try_catch.
  destruct (fetch _ _ w) as [[r|e|] w1]; [|done..].
  destruct ((if negb (Response_ok r) then handleErrorResponse r endpoint else ret VUndefined) w1)
    as [[x|e|] w2]; [|done..].
  destruct (response_text r w2) as [[text|e|] w3]; [|done..].
  destruct (String.eqb text ""); [done|].
  destruct (JSON_parse text) as [parsed|]; [|done].
  simpl. by destruct (is_plain_object parsed).
Qed.

(** Whatever its outcome, a call of [Client.get] sends exactly one
    request, to [<baseUrl>/<endpoint>] with the header
    [Authorization: Bearer <apiKey>], and has no other effect: files,
    clock, console and instances are as before. *)
Theorem Client_get_sends_one_request
    (c : Client) (endpoint : string) (returnObject : bool) (w : World) :
  snd (Client_get c endpoint returnObject w)
  = set_fetchLog
      (fetchLog w ++ [ {| url := client_baseUrl c +:+ "/" +:+ endpoint;
                          authorization := "Bearer " +:+ client_apiKey c |} ])%list w.
Proof.
  fold (request_of c endpoint).
  apply World_eq; simpl;
    try (by apply (unchanged_Client_get _ c endpoint returnObject)).
  apply Client_get_fetchLog.
Qed.

(** Decoding of a successful response: when the response arrives before
    the timer fires, with a status in 200-299, and its body reads as [text],
    however long after the response, [Client.get] returns [null] for the
    empty text, the parsed value when the text is JSON, and the text itself
    as a string otherwise. *)
Theorem Client_get_decodes_body
    (c : Client) (endpoint : string) (returnObject : bool) (w : World)
    (latency after : Z) (r : Response) (text : string) :
  net w (request_of c endpoint) = Responds latency r ->
  latency < setTimeout_delay (client_timeout c) ->
  Response_ok r = true ->
  body r = BodyText after text ->
  (text = "" -> fst (Client_get c endpoint returnObject w) = Ok VNull)
  /\ (text <> "" -> forall parsed, JSON_parse text = Some parsed ->
      fst (Client_get c endpoint returnObject w) = Ok parsed)
  /\ (text <> "" -> JSON_parse text = None ->
      fst (Client_get c endpoint returnObject w) = Ok (VStr text)).
Proof.
  intros Hnet Hlat Hok Hbody.
  unfold Client_get, fetch, response_text; unfold_M. fold (request_of c endpoint).
  rewrite Hnet. apply Z.ltb_lt in Hlat. rewrite Hlat, Hok, Hbody. simpl.
  split; [|split].
  - by intros ->.
  - intros Hne parsed Hparse. apply String.eqb_neq in Hne. rewrite Hne, Hparse.
    by destruct (returnObject && is_plain_object parsed).
  - intros Hne Hparse. apply String.eqb_neq in Hne. by rewrite Hne, Hparse.
Qed.

(** [handleErrorResponse] never returns, and what it throws is a
    [PhlagError], not a [NetworkError], whose code is the status of the
    response. *)
Lemma handleErrorResponse_never_returns (r : Response) (endpoint : string) (w : World) :
  forall x, fst (handleErrorResponse r endpoint w) <> Ok x.
Proof.
  intros x.
  destruct (handleErrorResponse_outcome r endpoint w)
    as (res & -> & H401 & H404f & H404e & Hother & Hstall).
  simpl. intros ->.
  destruct (Z.eq_dec (status r) 401) as [E|N1]; [by specialize (H401 E)|].
  destruct (Z.eq_dec (status r) 404) as [E|N2].
  { destruct (String.prefix "flag/" endpoint) eqn:Hp.
    - by specialize (H404f E eq_refl).
    - by specialize (H404e E eq_refl). }
  destruct (body r) as [text|name message|] eqn:Hbody.
  - by destruct (Hother N1 N2) as (m & Hm).
  - by destruct (Hother N1 N2) as (m & Hm).
  - by specialize (Hstall N1 N2 eq_refl).
Qed.

Lemma handleErrorResponse_code (r : Response) (endpoint : string) (w : World) (e : JsError) :
  fst (handleErrorResponse r endpoint w) = Throw e ->
  error_code e = Some (status r) /\ instanceof_PhlagError e = true
  /\ kind_of e <> Some NetworkError.
Proof.
  destruct (handleErrorResponse_outcome r endpoint w)
    as (res & -> & H401 & H404f & H404e & Hother & Hstall).
  simpl. intros ->.
  destruct (Z.eq_dec (status r) 401) as [E|N1].
  { injection (H401 E) as ->. by rewrite E. }
  destruct (Z.eq_dec (status r) 404) as [E|N2].
  { destruct (String.prefix "flag/" endpoint) eqn:Hp.
    - injection (H404f E eq_refl) as ->. by rewrite E.
    - injection (H404e E eq_refl) as ->. by rewrite E. }
  destruct (body r) as [text|name message|] eqn:Hbody.
  - destruct (Hother N1 N2) as (m & Hm); [done|]. by injection Hm as ->.
  - destruct (Hother N1 N2) as (m & Hm); [done|]. by injection Hm as ->.
  - by specialize (Hstall N1 N2 eq_refl).
Qed.

(** Everything [Client.get] throws is an instance of [PhlagError]. It is
    either a [NetworkError], which carries no code, or the error of a
    response that arrived before the timer fired, and so within a
    configured timeout of a millisecond or more, with a status outside
    200-299, and then its code is that status. *)
Theorem Client_get_error_taxonomy
    (c : Client) (endpoint : string) (returnObject : bool) (w : World) (e : JsError) :
  fst (Client_get c endpoint returnObject w) = Throw e ->
  instanceof_PhlagError e = true
  /\ ((kind_of e = Some NetworkError /\ error_code e = None)
      \/ (exists latency r,
            net w (request_of c endpoint) = Responds latency r
            /\ latency < setTimeout_delay (client_timeout c)
            /\ (1 <= client_timeout c -> latency < client_timeout c)
            /\ Response_ok r = false
            /\ kind_of e <> Some NetworkError
            /\ error_code e = Some (status r))).
Proof.
  unfold Client_get, fetch; unfold_M. fold (request_of c endpoint).
  set (w1 := set_fetchLog _ w).
  destruct (net w (request_of c endpoint)) as [latency r|latency name message|] eqn:Hnet.
  - destruct (latency <? setTimeout_delay (client_timeout c)) eqn:Hlat.
    + apply Z.ltb_lt in Hlat.
      destruct (Response_ok r) eqn:Hok; simpl.
      * unfold response_text.
        destruct (body r) as [after text|after name message|]; simpl.
        -- destruct (String.eqb text ""); [done|].
           destruct (JSON_parse text) as [parsed|]; [|done].
           by destruct (returnObject && is_plain_object parsed).
        -- destruct (String.eqb name "AbortError"); simpl; intros [= <-]; eauto.
        -- done.
      * pose proof (handleErrorResponse_code r endpoint w1) as Hcode.
        pose proof (handleErrorResponse_never_returns r endpoint w1) as Hnever.
        destruct (handleErrorResponse r endpoint w1) as [[x|e'|] w2]; simpl in *.
        -- by destruct (Hnever x).
        -- destruct (Hcode e' eq_refl) as (Hc & Hi & Hk).
           rewrite Hi. simpl. intros [= <-]. split; [done|]. right.
           exists latency, r.
           split; [done|split; [done|split; [|by eauto]]].
           intros Hlow. pose proof (setTimeout_delay_le _ Hlow). lia.
        -- done.
    + simpl. intros [= <-]. eauto.
  - destruct (latency <? setTimeout_delay (client_timeout c)); simpl.
    + destruct (String.eqb name "AbortError"); simpl; intros [= <-]; eauto.
    + intros [= <-]. eauto.
  - simpl. intros [= <-]. eauto.
Qed.


End TransportCalls.

(** A string that does not end in a slash is left alone. *)
Lemma strip_trailing_slash_fixed (s : string) :
  (forall b, s <> b +:+ "/") -> strip_trailing_slash s = s.
Proof.
  induction s as [|a s IH]; [done|]. intros Hno.
  destruct s as [|a' s].
  - simpl. destruct (Ascii.eqb a "/") eqn:Ha; [|done].
    apply Ascii.eqb_eq in Ha. subst a. by destruct (Hno "").
  - change (strip_trailing_slash (String a (String a' s)))
      with (String a (strip_trailing_slash (String a' s))).
    rewrite IH; [done|]. intros b Hb. apply (Hno (String a b)).
    by rewrite string_app_cons, <- Hb.
Qed.

(** The constructor of [Client] drops one trailing slash of the base URL
    and nothing else: a base URL that is [b] plus a slash is stored as [b],
    even when [b] itself ends in a slash; one that does not end in a slash
    is stored as it is; so the stored URL is the given one, or the given
    one is the stored one plus a slash. *)
Theorem Client_constructor_removes_one_slash (s apiKey : string) (timeout : Z) :
  (forall b, s = b +:+ "/" -> client_baseUrl (new_Client s apiKey timeout) = b)
  /\ ((forall b, s <> b +:+ "/") -> client_baseUrl (new_Client s apiKey timeout) = s)
  /\ (client_baseUrl (new_Client s apiKey timeout) = s
      \/ client_baseUrl (new_Client s apiKey timeout) +:+ "/" = s).
Proof.
  unfold new_Client. cbn [client_baseUrl].
  split; [|split].
  - intros b ->. apply strip_trailing_slash_added.
  - apply strip_trailing_slash_fixed.
  - induction s as [|a s IH]; [by left|].
    destruct s as [|a' s].
    + simpl. destruct (Ascii.eqb a "/") eqn:Ha; [|by left].
      apply Ascii.eqb_eq in Ha. subst a. by right.
    + change (strip_trailing_slash (String a (String a' s)))
        with (String a (strip_trailing_slash (String a' s))).
      destruct IH as [IH|IH]; [left|right].
      * by rewrite IH.
      * by rewrite string_app_cons, IH.
Qed.

(** ** The durable store, file by file *)

Section StoreFiles.
Context {rt : Runtime}.

(** Where [require] is not defined, the file functions degrade as their
    [catch] clauses say: the read returns [null], the write reports the
    failure on the console and writes nothing, the delete does nothing. *)
Lemma file_functions_without_require
    (cacheFile : string) (ttl : Q) (data : jsval) (w : World) :
  without_fs w ->
  loadCacheFromFile cacheFile ttl w = (Ok VNull, w)
  /\ writeCacheToFile cacheFile data w
     = (Ok tt, set_console
                 (console w ++ [("Phlag: Unable to write cache file: " +:+ cacheFile,
                                 "require is not defined")]) w)
  /\ deleteCacheFile cacheFile w = (Ok tt, w).
Proof.
  intros Hnone. split; [|split].
  - unfold loadCacheFromFile, fs_stat; unfold_M. by rewrite Hnone.
  - unfold writeCacheToFile, fs_writeFile, console_error; unfold_M. by rewrite Hnone.
  - unfold deleteCacheFile, fs_unlink; unfold_M. by rewrite Hnone.
Qed.

(** The three ways a read meets the file. *)
Lemma loadCacheFromFile_absent (cacheFile : string) (ttl : Q) (w : World) :
  fs w !! cacheFile = None -> loadCacheFromFile cacheFile ttl w = (Ok VNull, w).
Proof.
  intros Hf. unfold loadCacheFromFile, fs_stat; unfold_M.
  destruct (faults w (OpStat cacheFile)); [|done]. by rewrite Hf.
Qed.

Lemma loadCacheFromFile_expired (cacheFile : string) (ttl : Q) (w : World) (f : File) :
  fs w !! cacheFile = Some f ->
  (mtimeMs f + ttl * 1000 <= inject_Z (now w))%Q ->
  loadCacheFromFile cacheFile ttl w = (Ok VNull, w).
Proof.
  intros Hf Hexpired. apply expired_exact in Hexpired. unfold is_expired in Hexpired.
  unfold loadCacheFromFile, fs_stat, Date_now; unfold_M.
  destruct (faults w (OpStat cacheFile)); [|done]. by rewrite Hf, Hexpired.
Qed.

Lemma loadCacheFromFile_fresh (cacheFile : string) (ttl : Q) (w : World)
    (f : File) (v : jsval) :
  faults w (OpStat cacheFile) = NoFault ->
  faults w (OpReadFile cacheFile) = NoFault ->
  fs w !! cacheFile = Some f ->
  is_expired ttl (mtimeMs f) (now w) = false ->
  JSON_parse (contents f) = Some v -> is_plain_object v = true ->
  loadCacheFromFile cacheFile ttl w = (Ok v, w).
Proof.
  intros Hstat Hread Hf Hfresh Hparse Hobj. unfold is_expired in Hfresh.
  unfold loadCacheFromFile, fs_stat, fs_readFile, Date_now, JSON_parse_M; unfold_M.
  rewrite Hstat, Hf, Hfresh, Hread, Hf, Hparse. simpl. by rewrite Hobj.
Qed.

(** A read that returns anything but [null] has found a file at the
    location, could [stat] and read it, found it younger than the ttl, and
    returns what [JSON.parse] makes of its content, which is a plain
    object: the read invents nothing and overlooks no expiry. *)
Theorem loadCacheFromFile_hit_is_sound
    (cacheFile : string) (ttl : Q) (w : World) (v : jsval) :
  fst (loadCacheFromFile cacheFile ttl w) = Ok v -> v <> VNull ->
  exists f,
    fs w !! cacheFile = Some f
    /\ faults w (OpStat cacheFile) = NoFault
    /\ faults w (OpReadFile cacheFile) = NoFault
    /\ (inject_Z (now w) < mtimeMs f + ttl * 1000)%Q
    /\ JSON_parse (contents f) = Some v
    /\ is_plain_object v = true.
Proof.
  unfold loadCacheFromFile, fs_stat, fs_readFile, Date_now, JSON_parse_M; unfold_M.
  destruct (faults w (OpStat cacheFile)) eqn:Hstat; [|by intros [= <-]].
  destruct (fs w !! cacheFile) as [f|] eqn:Hf; [|by intros [= <-]].
  destruct (Binary64.geb _ _) eqn:Hage; [by intros [= <-]|].
  destruct (faults w (OpReadFile cacheFile)) eqn:Hread; [|by intros [= <-]].
  rewrite Hf.
  destruct (JSON_parse (contents f)) as [d|] eqn:Hparse; simpl; [|by intros [= <-]].
  destruct (is_plain_object d) eqn:Hd; simpl; [|by intros [= <-]].
  intros [= <-] _. exists f. repeat split; try done. by apply fresh_exact.
Qed.

(** With no I/O failure, a write changes the file system in two places
    only: the cache location holds the serialized snapshot, stamped with the
    current time, and the temporary file is gone; every other file is as it
    was, and nothing is printed. *)
Theorem writeCacheToFile_final_files (cacheFile : string) (data : jsval) (w : World) :
  (forall op, faults w op = NoFault) ->
  let tempFile := cacheFile +:+ "." +:+ pretty pid +:+ ".tmp" in
  writeCacheToFile cacheFile data w
  = (Ok tt,
     set_fs (<[cacheFile := written (JSON_stringify data) w]> (delete tempFile (fs w))) w).
Proof.
  intros Hfaults tempFile.
  pose proof (temp_file_differs cacheFile (pretty pid +:+ ".tmp")) as Hne.
  unfold writeCacheToFile. fold tempFile. fold tempFile in Hne.
  unfold try_catch at 1.
  erewrite bind_ok; [|apply fs_writeFile_ok, Hfaults].
  erewrite bind_ok; [|apply fs_unlink_ignoring_errors, Hfaults].
  erewrite bind_ok; [|apply fs_writeFile_ok, Hfaults].
  rewrite fs_unlink_ignoring_errors by apply Hfaults.
  f_equal. unfold set_fs. simpl. f_equal.
  apply map_eq. intros p.
  destruct (decide (p = tempFile)) as [->|Htemp].
  - rewrite lookup_delete_eq, lookup_insert_ne, lookup_delete_eq; done.
  - rewrite lookup_delete_ne by done.
    destruct (decide (p = cacheFile)) as [->|Hfile].
    + by rewrite !lookup_insert_eq.
    + rewrite !lookup_insert_ne by done. rewrite lookup_delete_ne by done.
      rewrite lookup_insert_ne by done. by rewrite lookup_delete_ne.
Qed.


End StoreFiles.

(** [deleteCacheFile] always returns: unless [unlink] is made to fail, the
    file system afterwards is the one before without the file at the
    location, whether there was one or not, and a failing [unlink] leaves
    the world as it was; deleting twice is deleting once. *)
Theorem deleteCacheFile_removes_the_record (cacheFile : string) (w : World) :
  deleteCacheFile cacheFile w
  = (Ok tt, match faults w (OpUnlink cacheFile) with
            | NoFault => set_fs (delete cacheFile (fs w)) w
            | Fails _ _ => w
            end)
  /\ deleteCacheFile cacheFile (snd (deleteCacheFile cacheFile w))
     = (Ok tt, snd (deleteCacheFile cacheFile w)).
Proof.
  assert (H : forall w, deleteCacheFile cacheFile w
    = (Ok tt, match faults w (OpUnlink cacheFile) with
              | NoFault => set_fs (delete cacheFile (fs w)) w
              | Fails _ _ => w
              end)).
  { clear w. intros w. unfold deleteCacheFile.
    destruct (faults w (OpUnlink cacheFile)) eqn:Hfault.
    - by apply fs_unlink_ignoring_errors.
    - unfold try_catch, fs_unlink, ret. by rewrite Hfault. }
  split; [apply H|].
  rewrite !H. simpl.
  destruct (faults w (OpUnlink cacheFile)) eqn:Hfault; simpl; rewrite Hfault; [|done].
  f_equal. unfold set_fs. simpl. f_equal. by rewrite delete_delete_eq.
Qed.

(** ** The life of the snapshot *)

Section SnapshotLife.
Context {rt : Runtime}.

Lemma is_null_false (v : jsval) : v <> VNull -> is_null v = false.
Proof. by destruct v. Qed.

(** The tail of [getFlag]: the answer from the snapshot in memory. *)
Lemma getFlag_answer (this : loc) (c : PhlagClient) (name : string) (w : World) :
  heap w !! this = Some c ->
  (c0 <- get_this this ;;
   v <- lift (get_property (flagCache c0) name) ;;
   ret (nullish_coalesce v VNull)) w
  = (answer_from_memory (flagCache c) name, w).
Proof.
  intros Hthis. rewrite (bind_ok _ _ _ _ _ (get_this_ok _ _ _ Hthis)).
  unfold answer_from_memory; unfold_M. by destruct (get_property (flagCache c) name).
Qed.

(** The Load algorithm when the durable cache answers: the record is
    adopted and nothing else happens. *)
Lemma loadCache_durable_hit (this : loc) (c : PhlagClient) (w : World) (snapshot : jsval) :
  heap w !! this = Some c -> useFileCache c = true ->
  fst (loadCacheFromFile (cacheFile c) (cacheTtl c) w) = Ok snapshot ->
  snapshot <> VNull ->
  loadCache this w
  = (Ok tt, set_heap (<[this := with_flagCache snapshot c]> (heap w)) w).
Proof.
  intros Hthis Hfile Hread Hsnapshot.
  destruct (loadCacheFromFile_total (cacheFile c) (cacheTtl c) w) as (v & Hv & _).
  rewrite Hv in Hread. simpl in Hread. injection Hread as ->.
  unfold loadCache. rewrite (bind_ok _ _ _ _ _ (get_this_ok _ _ _ Hthis)).
  rewrite Hfile.
  rewrite (bind_ok _ _ w (set_heap (<[this := with_flagCache snapshot c]> (heap w)) w) true);
    [done|].
  rewrite (bind_ok _ _ _ _ _ Hv), (is_null_false _ Hsnapshot). simpl.
  by rewrite (bind_ok _ _ _ _ _ (set_flagCache_ok _ snapshot _ _ Hthis)).
Qed.

Lemma getFlag_durable_hit
    (this : loc) (c : PhlagClient) (name : string) (w : World) (snapshot : jsval) :
  heap w !! this = Some c ->
  cacheEnabled c = true -> useFileCache c = true -> Empty c ->
  fst (loadCacheFromFile (cacheFile c) (cacheTtl c) w) = Ok snapshot ->
  snapshot <> VNull ->
  getFlag this name w
  = (answer_from_memory snapshot name,
     set_heap (<[this := with_flagCache snapshot c]> (heap w)) w).
Proof.
  intros Hthis Hcache Hfile Hempty Hread Hsnapshot.
  rewrite (getFlag_empty this c name w Hthis Hcache Hempty).
  rewrite (bind_ok _ _ _ _ _
             (loadCache_durable_hit this c w snapshot Hthis Hfile Hread Hsnapshot)).
  apply (getFlag_answer this (with_flagCache snapshot c)). simpl.
  by rewrite lookup_insert_eq.
Qed.

(** What [getFlag] leaves behind when it loads a plain-object snapshot
    from the network and the file system takes the write. *)
Lemma getFlag_load_writes
    (this : loc) (c : PhlagClient) (name : string) (w w1 : World)
    (snapshot : gmap string jsval) :
  heap w !! this = Some c ->
  cacheEnabled c = true -> useFileCache c = true -> Empty c ->
  file_miss c w ->
  (forall op, faults w op = NoFault) ->
  Client_get (client c) (bulk_endpoint c) true w = (Ok (VObj snapshot), w1) ->
  exists w2,
    getFlag this name w = (answer_from_memory (VObj snapshot) name, w2)
    /\ heap w2 = <[this := with_flagCache (VObj snapshot) c]> (heap w)
    /\ fetchLog w2 = (fetchLog w ++ [request_of (client c) (bulk_endpoint c)])%list
    /\ fs w2 !! cacheFile c
       = Some {| contents := JSON_stringify (VObj snapshot); mtimeMs := inject_Z (now w) |}
    /\ faults w2 = faults w /\ now w2 = now w.
Proof.
  intros Hthis Hcache Hfile Hempty Hmiss Hfaults Hget.
  assert (Hsnd : w1 = snd (Client_get (client c) (bulk_endpoint c) true w))
    by by rewrite Hget.
  assert (Hfaults1 : faults w1 = faults w).
  { rewrite Hsnd. by apply (unchanged_Client_get faults). }
  assert (Hnow1 : now w1 = now w).
  { rewrite Hsnd. by apply (unchanged_Client_get now). }
  assert (Hlog : fetchLog w1
                 = (fetchLog w ++ [request_of (client c) (bulk_endpoint c)])%list).
  { rewrite Hsnd. apply Client_get_fetchLog. }
  pose proof (loadCache_fetch_ok this c w w1 (VObj snapshot) Hthis Hmiss Hget) as Hload.
  simpl in Hload. rewrite Hfile in Hload. simpl in Hload.
  set (wh := set_heap (<[this := with_flagCache (VObj snapshot) c]> (heap w)) w1) in *.
  destruct (writeCacheToFile_writes (cacheFile c) (VObj snapshot) wh)
    as (w2 & Hwrite & Hrecord & Hfaults2 & Hnow2).
  { intros op. simpl. by rewrite Hfaults1. }
  pose proof (unchanged_writeCacheToFile heap (cacheFile c) (VObj snapshot)
                (fun _ _ => eq_refl) (fun _ _ => eq_refl) wh) as Hheap.
  pose proof (unchanged_writeCacheToFile fetchLog (cacheFile c) (VObj snapshot)
                (fun _ _ => eq_refl) (fun _ _ => eq_refl) wh) as Hl.
  rewrite Hwrite in Hheap, Hl. simpl in Hheap, Hl.
  exists w2. split; [|split; [done|split; [by rewrite Hl|split; [|split]]]].
  - rewrite (getFlag_empty this c name w Hthis Hcache Hempty).
    rewrite (bind_ok _ _ w w2 tt) by by rewrite Hload.
    apply (getFlag_answer this (with_flagCache (VObj snapshot) c)).
    rewrite Hheap. apply lookup_insert_eq.
  - rewrite Hrecord. unfold written. simpl. by rewrite Hnow1.
  - by rewrite Hfaults2.
  - by rewrite Hnow2.
Qed.

(** Load from the durable cache. On an Empty client that uses the file
    cache, when the read of the cache location returns a snapshot,
    [getFlag] adopts it into memory and answers from it: no Transport call
    is issued, and apart from the snapshot of this instance the world is as
    it was. *)
Theorem getFlag_adopts_durable_record
    (this : loc) (c : PhlagClient) (name : string) (w : World) (snapshot : jsval) :
  heap w !! this = Some c ->
  cacheEnabled c = true -> useFileCache c = true -> Empty c ->
  fst (loadCacheFromFile (cacheFile c) (cacheTtl c) w) = Ok snapshot ->
  snapshot <> VNull ->
  getFlag this name w
  = (answer_from_memory snapshot name,
     set_heap (<[this := with_flagCache snapshot c]> (heap w)) w)
  /\ transport_calls (getFlag this name) w = 0%nat.
Proof.
  intros Hthis Hcache Hfile Hempty Hread Hsnapshot.
  pose proof (getFlag_durable_hit this c name w snapshot
                Hthis Hcache Hfile Hempty Hread Hsnapshot) as Hflag.
  split; [done|]. unfold transport_calls. rewrite Hflag. simpl. lia.
Qed.

(** Two instances that share a cache location. The first, Empty, loads a
    plain-object snapshot from the network and writes it, with no I/O
    failure; [elapsed] milliseconds later the second, Empty too, is asked
    for a flag. While the record is younger than the ttl of the second
    instance (the comparison of the code, on doubles), the second answers
    from that record: it issues no Transport call and holds the snapshot
    the first one fetched. Once [elapsed] has reached the ttl, the record
    no longer counts and the second instance issues its own bulk fetch.
    When the product [ttl * 1000] is a float, the record is younger than
    the ttl for the code for every [elapsed] below the ttl. *)
Theorem second_instance_loads_from_shared_file
    (first second : loc) (c1 c2 : PhlagClient) (name name' : string) (w w1 : World)
    (snapshot : gmap string jsval) (elapsed : Z) :
  first <> second ->
  heap w !! first = Some c1 -> heap w !! second = Some c2 ->
  cacheEnabled c1 = true -> useFileCache c1 = true -> Empty c1 ->
  cacheEnabled c2 = true -> useFileCache c2 = true -> Empty c2 ->
  cacheFile c2 = cacheFile c1 ->
  (forall op, faults w op = NoFault) ->
  file_miss c1 w ->
  Client_get (client c1) (bulk_endpoint c1) true w = (Ok (VObj snapshot), w1) ->
  JSON_parse (JSON_stringify (VObj snapshot)) = Some (VObj snapshot) ->
  let w2 := elapse elapsed (snd (getFlag first name w)) in
  (is_expired (cacheTtl c2) (inject_Z (now w)) (now w + elapsed) = false ->
   fst (getFlag second name' w2) = answer_from_memory (VObj snapshot) name'
   /\ transport_calls (getFlag second name') w2 = 0%nat
   /\ heap (snd (getFlag second name' w2)) !! second
      = Some (with_flagCache (VObj snapshot) c2)
   /\ fetchLog (snd (getFlag second name' w2))
      = (fetchLog w ++ [request_of (client c1) (bulk_endpoint c1)])%list)
  /\ ((cacheTtl c2 * 1000 <= inject_Z elapsed)%Q ->
      fetchLog (snd (getFlag second name' w2))
      = (fetchLog w ++ [request_of (client c1) (bulk_endpoint c1);
                         request_of (client c2) (bulk_endpoint c2)])%list)
  /\ (Binary64.is_float (cacheTtl c2 * 1000) = true -> 0 <= elapsed < 2 ^ 53 ->
      (inject_Z elapsed < cacheTtl c2 * 1000)%Q ->
      is_expired (cacheTtl c2) (inject_Z (now w)) (now w + elapsed) = false).
Proof.
  intros Hne Hfirst Hsecond Hcache1 Hfile1 Hempty1 Hcache2 Hfile2 Hempty2
         Hsame Hfaults Hmiss Hget Hparse w2.
  destruct (getFlag_load_writes first c1 name w w1 snapshot
              Hfirst Hcache1 Hfile1 Hempty1 Hmiss Hfaults Hget)
    as (w2' & Hflag & Hheap & Hlog & Hrecord & Hfaults2 & Hnow2).
  assert (Hw2 : w2 = elapse elapsed w2') by (subst w2; by rewrite Hflag).
  rewrite Hw2. clear Hw2 w2.
  assert (Hsecond2 : heap (elapse elapsed w2') !! second = Some c2).
  { simpl. rewrite Hheap. by rewrite lookup_insert_ne. }
  split; [|split; [|apply fresh_whole_milliseconds]].
  - intros Hfresh.
    assert (Hread : loadCacheFromFile (cacheFile c2) (cacheTtl c2) (elapse elapsed w2')
                    = (Ok (VObj snapshot), elapse elapsed w2')).
    { rewrite Hsame.
      eapply loadCacheFromFile_fresh;
        [by simpl; rewrite Hfaults2|by simpl; rewrite Hfaults2|exact Hrecord| |done|done].
      cbn [elapse now mtimeMs]. by rewrite Hnow2. }
    assert (Hhit := getFlag_durable_hit second c2 name' (elapse elapsed w2') (VObj snapshot)
                      Hsecond2 Hcache2 Hfile2 Hempty2).
    rewrite Hread in Hhit. specialize (Hhit eq_refl ltac:(done)).
    unfold transport_calls. rewrite Hhit. simpl.
    split; [done|split; [lia|split; [apply lookup_insert_eq|done]]].
  - intros Hexpired.
    rewrite (getFlag_empty_fetches second c2 name' (elapse elapsed w2')); try done.
    + simpl. by rewrite Hlog, <- app_assoc.
    + intros _. rewrite Hsame.
      rewrite (loadCacheFromFile_expired (cacheFile c1) (cacheTtl c2)
                 (elapse elapsed w2') _ Hrecord); [done|].
      cbn [elapse now mtimeMs]. rewrite Hnow2, inject_Z_plus. lra.
Qed.

(** An expired record is replaced. On an Empty client that uses the file
    cache, when the file at the cache location is as old as the ttl or
    older, [getFlag] issues the bulk fetch; when that returns a plain
    object and no I/O fails, the cache location afterwards holds the
    serialized new snapshot, stamped with the current time. *)
Theorem expired_record_is_replaced
    (this : loc) (c : PhlagClient) (name : string) (w w1 : World) (f : File)
    (snapshot : gmap string jsval) :
  heap w !! this = Some c ->
  cacheEnabled c = true -> useFileCache c = true -> Empty c ->
  fs w !! cacheFile c = Some f ->
  (mtimeMs f + cacheTtl c * 1000 <= inject_Z (now w))%Q ->
  (forall op, faults w op = NoFault) ->
  Client_get (client c) (bulk_endpoint c) true w = (Ok (VObj snapshot), w1) ->
  exists w2,
    getFlag this name w = (answer_from_memory (VObj snapshot) name, w2)
    /\ fetchLog w2 = (fetchLog w ++ [request_of (client c) (bulk_endpoint c)])%list
    /\ fs w2 !! cacheFile c
       = Some {| contents := JSON_stringify (VObj snapshot);
                 mtimeMs := inject_Z (now w) |}.
Proof.
  intros Hthis Hcache Hfile Hempty Hf Hexpired Hfaults Hget.
  assert (Hmiss : file_miss c w).
  { intros _. by rewrite (loadCacheFromFile_expired _ _ _ f). }
  destruct (getFlag_load_writes this c name w w1 snapshot
              Hthis Hcache Hfile Hempty Hmiss Hfaults Hget)
    as (w2 & Hflag & _ & Hlog & Hrecord & _).
  by exists w2.
Qed.

(** A failed Load is not remembered. On an Empty client whose durable
    cache misses, an error of the bulk fetch is the error of [getFlag],
    unchanged; instances, files and console are as before; and the next
    [getFlag] runs the Load again, issuing a second Transport call. *)
Theorem getFlag_failed_fetch_is_not_cached
    (this : loc) (c : PhlagClient) (name : string) (w w1 : World) (e : JsError) :
  heap w !! this = Some c ->
  cacheEnabled c = true -> Empty c -> file_miss c w ->
  Client_get (client c) (bulk_endpoint c) true w = (Throw e, w1) ->
  getFlag this name w = (Throw e, w1)
  /\ heap w1 = heap w /\ fs w1 = fs w /\ console w1 = console w
  /\ forall name',
       fetchLog (snd (getFlag this name' w1))
       = (fetchLog w ++ [request_of (client c) (bulk_endpoint c);
                          request_of (client c) (bulk_endpoint c)])%list.
Proof.
  intros Hthis Hcache Hempty Hmiss Hget.
  assert (Hsnd : w1 = snd (Client_get (client c) (bulk_endpoint c) true w))
    by by rewrite Hget.
  assert (Hheap : heap w1 = heap w).
  { rewrite Hsnd. by apply (unchanged_Client_get heap). }
  assert (Hfs : fs w1 = fs w).
  { rewrite Hsnd. by apply (unchanged_Client_get fs). }
  assert (Hfaults : faults w1 = faults w).
  { rewrite Hsnd. by apply (unchanged_Client_get faults). }
  assert (Hnow : now w1 = now w).
  { rewrite Hsnd. by apply (unchanged_Client_get now). }
  assert (Hlog : fetchLog w1 = (fetchLog w ++ [request_of (client c) (bulk_endpoint c)])%list).
  { rewrite Hsnd. apply Client_get_fetchLog. }
  split; [|split; [done|split; [done|split]]].
  - rewrite (getFlag_empty this c name w Hthis Hcache Hempty).
    by rewrite (bind_throw _ _ _ _ _ (loadCache_fetch_throws this c w w1 e Hthis Hmiss Hget)).
  - rewrite Hsnd. by apply (unchanged_Client_get console).
  - intros name'.
    rewrite (getFlag_empty_fetches this c name' w1); try done.
    + by rewrite Hlog, <- app_assoc.
    + by rewrite Hheap.
    + intros Hfile. rewrite (loadCacheFromFile_frame _ _ w w1 Hfs Hfaults Hnow).
      by apply Hmiss.
Qed.

(** The fields a call can never write: all of them but [flagCache]. *)
Lemma set_flagCache_configuration (this : loc) (v : jsval) :
  unchanged (fun w => with_flagCache VNull <$> heap w !! this) (set_flagCache this v).
Proof.
  intros w. unfold set_flagCache.
  destruct (heap w !! this) as [c|] eqn:Hthis; simpl; [|by rewrite Hthis].
  by rewrite lookup_insert_eq.
Qed.

Lemma same_configuration (c c' : PhlagClient) :
  with_flagCache VNull c' = with_flagCache VNull c ->
  cacheEnabled c' = cacheEnabled c /\ useFileCache c' = useFileCache c
  /\ cacheFile c' = cacheFile c /\ cacheTtl c' = cacheTtl c
  /\ client c' = client c /\ environment c' = environment c.
Proof. destruct c, c'. simpl. by intros [= -> -> -> -> -> -> -> -> ->]. Qed.

Lemma run_call_configuration (this : loc) (call : Call) (w : World) :
  with_flagCache VNull <$> heap (run_call this call w) !! this
  = with_flagCache VNull <$> heap w !! this.
Proof.
  pose proof (set_flagCache_configuration this) as Hset.
  destruct call as [name|name| |]; simpl.
  - by apply (unchanged_getFlag (fun w => with_flagCache VNull <$> heap w !! this)).
  - by apply (unchanged_isEnabled (fun w => with_flagCache VNull <$> heap w !! this)).
  - by apply (unchanged_warmCache (fun w => with_flagCache VNull <$> heap w !! this)).
  - by apply (unchanged_clearCache (fun w => with_flagCache VNull <$> heap w !! this)).
Qed.

(** Empty to Loaded. With caching enabled, whenever [getFlag] returns a
    value, from whatever state and by whatever path, the instance is
    Loaded afterwards, and every later [getFlag] answers from that snapshot
    and leaves the world as it is. *)
Theorem getFlag_success_leaves_Loaded
    (this : loc) (c : PhlagClient) (name : string) (w w' : World) (v : jsval) :
  heap w !! this = Some c -> cacheEnabled c = true ->
  getFlag this name w = (Ok v, w') ->
  exists c', heap w' !! this = Some c' /\ Loaded c'
    /\ forall name', getFlag this name' w' = (answer_from_memory (flagCache c') name', w').
Proof.
  intros Hthis Hcache Hflag.
  pose proof (unchanged_getFlag (fun w => with_flagCache VNull <$> heap w !! this)
                this name (fun _ _ => eq_refl) (fun _ _ => eq_refl) (fun _ _ => eq_refl)
                (set_flagCache_configuration this) w) as Hconf.
  rewrite Hflag, Hthis in Hconf. cbn [snd] in Hconf.
  destruct (heap w' !! this) as [c'|] eqn:Hthis'; [|done].
  assert (Hsame : with_flagCache VNull c' = with_flagCache VNull c)
    by exact (Some_inj _ _ Hconf).
  apply same_configuration in Hsame as (Hcache' & _).
  assert (Hloaded : Loaded c').
  { revert Hflag. unfold getFlag.
    rewrite (bind_ok _ _ _ _ _ (get_this_ok _ _ _ Hthis)), Hcache.
    unfold bind at 1.
    destruct ((if is_null (flagCache c) then loadCache this else ret tt) w)
      as [[[]|e|] w2]; [|done..].
    unfold get_this; unfold_M.
    destruct (heap w2 !! this) as [c2|] eqn:Hthis2; [|done].
    destruct (get_property (flagCache c2) name) as [x|e|] eqn:Hprop; [|done..].
    intros [= _ <-]. rewrite Hthis2 in Hthis'. injection Hthis' as <-.
    unfold Loaded. intros Hnull. by rewrite Hnull in Hprop. }
  exists c'. split; [done|split; [done|]].
  intros name'. apply getFlag_loaded; [done| |done]. by rewrite Hcache'.
Qed.

(** [warmCache] runs the Load whatever the state of the snapshot, Loaded
    included. When the durable cache answers, its record replaces the
    snapshot and nothing else happens. When it misses and the bulk fetch
    returns, the fetched value replaces the snapshot as a whole after one
    Transport call; and unless the file cache is in use and the value is
    truthy, nothing is written or printed. *)
Theorem warmCache_reloads (this : loc) (c : PhlagClient) (w : World) :
  heap w !! this = Some c -> cacheEnabled c = true ->
  (forall snapshot,
      useFileCache c = true ->
      fst (loadCacheFromFile (cacheFile c) (cacheTtl c) w) = Ok snapshot ->
      snapshot <> VNull ->
      warmCache this w
      = (Ok tt, set_heap (<[this := with_flagCache snapshot c]> (heap w)) w))
  /\ (forall fetched w1,
        file_miss c w ->
        Client_get (client c) (bulk_endpoint c) true w = (Ok fetched, w1) ->
        exists w', warmCache this w = (Ok tt, w')
          /\ heap w' = <[this := with_flagCache fetched c]> (heap w)
          /\ fetchLog w' = (fetchLog w ++ [request_of (client c) (bulk_endpoint c)])%list
          /\ (useFileCache c && truthy fetched = false ->
              fs w' = fs w /\ console w' = console w)).
Proof.
  intros Hthis Hcache.
  assert (Hwarm : warmCache this w = loadCache this w).
  { unfold warmCache. by rewrite (bind_ok _ _ _ _ _ (get_this_ok _ _ _ Hthis)), Hcache. }
  rewrite Hwarm. split.
  - intros snapshot Hfile Hread Hsnapshot. by apply loadCache_durable_hit.
  - intros fetched w1 Hmiss Hget.
    pose proof (loadCache_fetch_ok this c w w1 fetched Hthis Hmiss Hget) as Hload.
    simpl in Hload. rewrite Hload.
    set (w2 := set_heap (<[this := with_flagCache fetched c]> (heap w)) w1).
    assert (Hsnd : w1 = snd (Client_get (client c) (bulk_endpoint c) true w))
      by by rewrite Hget.
    assert (Hlog : fetchLog w1
                   = (fetchLog w ++ [request_of (client c) (bulk_endpoint c)])%list).
    { rewrite Hsnd. apply Client_get_fetchLog. }
    destruct (useFileCache c && truthy fetched).
    + destruct (always_returns_writeCacheToFile (cacheFile c) fetched w2) as ([] & Hok).
      pose proof (unchanged_writeCacheToFile heap (cacheFile c) fetched
                    (fun _ _ => eq_refl) (fun _ _ => eq_refl) w2) as Hheap.
      pose proof (unchanged_writeCacheToFile fetchLog (cacheFile c) fetched
                    (fun _ _ => eq_refl) (fun _ _ => eq_refl) w2) as Hl.
      destruct (writeCacheToFile (cacheFile c) fetched w2) as [r w3]. simpl in *. subst r.
      exists w3. by rewrite Hheap, Hl.
    + exists w2. split; [done|split; [done|split; [done|]]]. intros _. simpl. split.
      * rewrite Hsnd. by apply (unchanged_Client_get fs).
      * rewrite Hsnd. by apply (unchanged_Client_get console).
Qed.

(** [clearCache] on a cache-enabled client, when the [unlink] of the cache
    location is not made to fail: the call returns, the snapshot is Empty,
    the cache location holds no file when the file cache is in use, and the
    next [getFlag] goes back to the network with one bulk fetch. *)
Theorem clearCache_forces_refetch (this : loc) (c : PhlagClient) (w : World) :
  heap w !! this = Some c -> cacheEnabled c = true ->
  (useFileCache c = true -> faults w (OpUnlink (cacheFile c)) = NoFault) ->
  exists w', clearCache this w = (Ok tt, w')
    /\ heap w' = <[this := with_flagCache VNull c]> (heap w)
    /\ (useFileCache c = true -> fs w' !! cacheFile c = None)
    /\ forall name,
         fetchLog (snd (getFlag this name w'))
         = (fetchLog w ++ [request_of (client c) (bulk_endpoint c)])%list.
Proof.
  intros Hthis Hcache Hunlink.
  assert (Hclear : exists w', clearCache this w = (Ok tt, w')
            /\ heap w' = <[this := with_flagCache VNull c]> (heap w)
            /\ fetchLog w' = fetchLog w
            /\ (useFileCache c = true -> fs w' !! cacheFile c = None)).
  { unfold clearCache. rewrite (bind_ok _ _ _ _ _ (get_this_ok _ _ _ Hthis)), Hcache.
    rewrite (bind_ok _ _ _ _ _ (set_flagCache_ok _ VNull _ _ Hthis)).
    destruct (useFileCache c) eqn:Hfile.
    - unfold deleteCacheFile. rewrite fs_unlink_ignoring_errors by by apply Hunlink.
      eexists. split; [done|]. simpl. by rewrite lookup_delete_eq.
    - eexists. by split. }
  destruct Hclear as (w' & Hrun & Hheap & Hlog & Hgone).
  exists w'. split; [done|split; [done|split; [done|]]].
  intros name. rewrite <- Hlog.
  apply (getFlag_empty_fetches this (with_flagCache VNull c)); try done.
  - rewrite Hheap. apply lookup_insert_eq.
  - intros Hfile. simpl in *. by rewrite loadCacheFromFile_absent by by apply Hgone.
Qed.

(** What the constructor computes when the cache location does not throw. *)
Lemma PhlagClient_constructor_ok (options : PhlagClientOptions) (path : string) :
  generateCacheFilename (opt_baseUrl options) (opt_environment options)
    (opt_cacheFile options) = Ok path ->
  PhlagClient_constructor options
  = Ok {| client := new_Client (opt_baseUrl options) (opt_apiKey options)
                      (default 10000 (opt_timeout options));
          environment := opt_environment options;
          baseUrl := opt_baseUrl options;
          apiKey := opt_apiKey options;
          timeout := default 10000 (opt_timeout options);
          cacheEnabled := default false (opt_cache options);
          cacheFile := path;
          cacheTtl := default (300 : Q) (opt_cacheTtl options);
          useFileCache := default false (opt_cache options) && isNodeEnvironment;
          flagCache := VNull |}.
Proof. intros Hpath. unfold PhlagClient_constructor. by rewrite Hpath. Qed.

(** The constructor, read back through the accessors. Where [require] is a
    global, or when the [cacheFile] option is a non-empty string,
    [new PhlagClient] returns a reference that was not in use and leaves
    every other instance alone; on it, [getEnvironment] returns the
    environment of the options, [isCacheEnabled] the [cache] option or
    [false], [getCacheTtl] the [cacheTtl] option or 300, [getCacheFile] the
    [cacheFile] option when it is a non-empty string and the derived
    location when it is left out or empty; and without caching [getFlag]
    goes through a transport built from the base URL, the API key and the
    [timeout] option or 10000. Where [require] is not a global and the
    [cacheFile] option is left out or empty, [new PhlagClient] throws the
    [ReferenceError] of [require] and allocates nothing, whatever the
    [cache] option says. *)
Theorem new_PhlagClient_accessors (options : PhlagClientOptions) (w : World) :
  (has_require = true
   \/ (exists path, opt_cacheFile options = Some path /\ path <> "") ->
   exists this w',
     new_PhlagClient options w = (Ok this, w')
     /\ heap w !! this = None
     /\ (forall other, other <> this -> heap w' !! other = heap w !! other)
     /\ getEnvironment this w' = (Ok (opt_environment options), w')
     /\ isCacheEnabled this w' = (Ok (default false (opt_cache options)), w')
     /\ getCacheTtl this w' = (Ok (default (300 : Q) (opt_cacheTtl options)), w')
     /\ (forall path, opt_cacheFile options = Some path -> path <> "" ->
         getCacheFile this w' = (Ok path, w'))
     /\ (opt_cacheFile options = None \/ opt_cacheFile options = Some "" ->
         getCacheFile this w'
         = (Ok (tmpdir +:+ "/phlag_cache_"
                +:+ md5_hex (opt_baseUrl options +:+ "|" +:+ opt_environment options)
                +:+ ".json"), w'))
     /\ (forall name,
           default false (opt_cache options) = false ->
           getFlag this name w'
           = Client_get (new_Client (opt_baseUrl options) (opt_apiKey options)
                           (default 10000 (opt_timeout options)))
               ("flag/" +:+ opt_environment options +:+ "/" +:+ name) false w'))
  /\ (has_require = false ->
      opt_cacheFile options = None \/ opt_cacheFile options = Some "" ->
      new_PhlagClient options w = (Throw ReferenceError, w)).
Proof.
  split.
  - intros Havailable.
    assert (Hlocation : exists path,
      generateCacheFilename (opt_baseUrl options) (opt_environment options)
        (opt_cacheFile options) = Ok path
      /\ (forall p, opt_cacheFile options = Some p -> p <> "" -> path = p)
      /\ (opt_cacheFile options = None \/ opt_cacheFile options = Some "" ->
          path = tmpdir +:+ "/phlag_cache_"
                 +:+ md5_hex (opt_baseUrl options +:+ "|" +:+ opt_environment options)
                 +:+ ".json")).
    { unfold generateCacheFilename.
      destruct (opt_cacheFile options) as [p|] eqn:Hp.
      - destruct (String.eqb_spec p "") as [->|Hne].
        + destruct Havailable as [->|(p' & Hp' & Hne)]; [|congruence].
          eexists. split; [done|]. split; [by intros ? [= <-]|done].
        + exists p. split; [done|]. split; [by intros ? [= <-]|].
          intros [|[= ->]]; done.
      - destruct Havailable as [->|(p' & Hp' & Hne)]; [|done].
        eexists. split; [done|]. split; done. }
    destruct Hlocation as (path & Hpath & Hcustom & Hderived).
    unfold new_PhlagClient. rewrite (PhlagClient_constructor_ok options path Hpath).
    set (this := fresh (dom (heap w))).
    set (c := Build_PhlagClient _ _ _ _ _ _ _ _ _ _).
    set (w' := set_heap _ w).
    assert (Hnew : heap w !! this = None) by apply not_elem_of_dom, is_fresh.
    assert (Hthis : heap w' !! this = Some c) by apply lookup_insert_eq.
    exists this, w'. split; [done|split; [done|split]].
    { intros other Hne. subst w'. simpl. by rewrite lookup_insert_ne. }
    unfold getEnvironment, isCacheEnabled, getCacheTtl, getCacheFile, getFlag.
    rewrite !(bind_ok _ _ _ _ _ (get_this_ok _ _ _ Hthis)).
    repeat (split; [done|]). split; [|split].
    + intros p Hp Hne. simpl. by rewrite (Hcustom p Hp Hne).
    + intros Hnone. simpl. by rewrite (Hderived Hnone).
    + intros name Hcache.
      rewrite (bind_ok _ _ _ _ _ (get_this_ok this _ w' Hthis)).
      subst c. cbn [cacheEnabled client environment].
      by rewrite Hcache.
  - intros Hmissing Hnone. unfold new_PhlagClient, PhlagClient_constructor.
    unfold generateCacheFilename. rewrite Hmissing.
    by destruct Hnone as [->| ->].
Qed.

(** Without the durable cache, the Load algorithm changes the heap and
    the log of requests only, and so does every call. *)
Lemma unchanged_loadCache_in_memory {T : Type} (proj : World -> T)
    (this : loc) (c : PhlagClient) (w : World) :
  (forall l w, proj (set_fetchLog l w) = proj w) ->
  (forall h w, proj (set_heap h w) = proj w) ->
  heap w !! this = Some c -> useFileCache c = false ->
  proj (snd (loadCache this w)) = proj w.
Proof.
  intros Hlog Hheap Hthis Hfile.
  unfold loadCache. rewrite (bind_ok _ _ _ _ _ (get_this_ok _ _ _ Hthis)), Hfile.
  simpl.
  assert (Hset : forall v, unchanged proj (set_flagCache this v)).
  { intros v w0. unfold set_flagCache. destruct (heap w0 !! this); [apply Hheap|done]. }
  pose proof (fun c e r => unchanged_Client_get proj c e r Hlog).
  assert (H' : unchanged proj
    (fromFile <- ret false ;;
     if fromFile : bool then ret tt
     else fetched <- Client_get (client c) ("all-flags/" +:+ environment c) true ;;
          set_flagCache this fetched ;;; ret tt)) by frame.
  apply H'.
Qed.

Lemma unchanged_call_in_memory {T : Type} (proj : World -> T)
    (this : loc) (c : PhlagClient) (call : Call) (w : World) :
  (forall l w, proj (set_fetchLog l w) = proj w) ->
  (forall h w, proj (set_heap h w) = proj w) ->
  heap w !! this = Some c -> useFileCache c = false ->
  proj (run_call this call w) = proj w.
Proof.
  intros Hlog Hheap Hthis Hfile.
  assert (Hset : forall v, unchanged proj (set_flagCache this v)).
  { intros v w0. unfold set_flagCache. destruct (heap w0 !! this); [apply Hheap|done]. }
  pose proof (fun c e r => unchanged_Client_get proj c e r Hlog) as Hget.
  assert (Hload : proj (snd (loadCache this w)) = proj w)
    by by apply (unchanged_loadCache_in_memory proj this c).
  assert (Hflag : forall name, proj (snd (getFlag this name w)) = proj w).
  { intros name. unfold getFlag.
    rewrite (bind_ok _ _ _ _ _ (get_this_ok _ _ _ Hthis)).
    destruct (cacheEnabled c); [|apply Hget].
    unfold bind at 1. destruct (is_null (flagCache c)).
    - destruct (loadCache this w) as [[[]|e|] w1]; simpl in *; [|done..].
      rewrite <- Hload.
      assert (Hk : unchanged proj
                (c0 <- get_this this ;;
                 v0 <- lift (get_property (flagCache c0) name) ;;
                 ret (nullish_coalesce v0 VNull))) by frame.
      apply Hk.
    - simpl.
      assert (Hk : unchanged proj
                (c0 <- get_this this ;;
                 v0 <- lift (get_property (flagCache c0) name) ;;
                 ret (nullish_coalesce v0 VNull))) by frame.
      apply Hk. }
  destruct call as [name|name| |]; simpl.
  - apply Hflag.
  - unfold isEnabled, bind. specialize (Hflag name).
    by destruct (getFlag this name w) as [[v|e|] w1].
  - unfold warmCache. rewrite (bind_ok _ _ _ _ _ (get_this_ok _ _ _ Hthis)).
    by destruct (cacheEnabled c).
  - unfold clearCache. rewrite (bind_ok _ _ _ _ _ (get_this_ok _ _ _ Hthis)), Hfile.
    destruct (cacheEnabled c); [|done].
    assert (Hk : unchanged proj (set_flagCache this VNull ;;; ret tt)) by frame.
    apply Hk.
Qed.

Lemma run_calls_in_memory
    (this : loc) (c : PhlagClient) (calls : list Call) (w : World) :
  heap w !! this = Some c -> useFileCache c = false ->
  fs (run_calls this calls w) = fs w
  /\ console (run_calls this calls w) = console w.
Proof.
  revert c w. induction calls as [|call calls IH]; intros c w Hthis Hfile; [done|].
  unfold run_calls in *. simpl.
  pose proof (run_call_configuration this call w) as Hconf.
  rewrite Hthis in Hconf.
  destruct (heap (run_call this call w) !! this) as [c'|] eqn:Hthis'; [|done].
  assert (Hsame : with_flagCache VNull c' = with_flagCache VNull c)
    by exact (Some_inj _ _ Hconf).
  apply same_configuration in Hsame as (_ & Hfile' & _).
  destruct (IH c' (run_call this call w) Hthis') as (Hfs & Hconsole); [congruence|].
  rewrite Hfs, Hconsole. split.
  - by apply (unchanged_call_in_memory fs this c).
  - by apply (unchanged_call_in_memory console this c).
Qed.

(** The file cache needs both the [cache] option and Node. An instance
    built by the constructor outside Node, or without the [cache] option,
    never touches the file system, whatever its snapshot: no sequence of
    [getFlag], [isEnabled], [warmCache] and [clearCache] calls on it
    changes any file or prints anything. *)
Theorem in_memory_client_never_touches_files
    (this : loc) (options : PhlagClientOptions) (c0 : PhlagClient) (snapshot : jsval)
    (calls : list Call) (w : World) :
  isNodeEnvironment = false \/ default false (opt_cache options) = false ->
  PhlagClient_constructor options = Ok c0 ->
  heap w !! this = Some (with_flagCache snapshot c0) ->
  fs (run_calls this calls w) = fs w
  /\ console (run_calls this calls w) = console w.
Proof.
  intros Hmemory Hbuilt Hthis.
  apply (run_calls_in_memory this _ calls w Hthis).
  unfold PhlagClient_constructor in Hbuilt.
  destruct (generateCacheFilename _ _ _); [|done..].
  injection Hbuilt as <-. simpl.
  destruct Hmemory as [->| ->]; [apply andb_false_r|done].
Qed.

End SnapshotLife.

(** ** One request per call *)

Section RequestBudget.
Context {rt : Runtime}.

(** The requests a Load adds to the log: none, or the bulk fetch. *)
Lemma loadCache_requests (this : loc) (w : World) :
  exists l, fetchLog (snd (loadCache this w)) = (fetchLog w ++ l)%list
            /\ (length l <= 1)%nat.
Proof.
  destruct (heap w !! this) as [c|] eqn:Hthis.
  2: { exists []. unfold loadCache, bind, get_this. rewrite Hthis. simpl.
       split; [by rewrite app_nil_r|lia]. }
  destruct (loadCacheFromFile_total (cacheFile c) (cacheTtl c) w) as (v & Hv & _).
  assert (Hcases : (useFileCache c = true /\ v <> VNull) \/ file_miss c w).
  { unfold file_miss. rewrite Hv.
    destruct (useFileCache c); [|by right].
    destruct v; try (by left). by right. }
  destruct Hcases as [[Hfile Hhit]|Hmiss'].
  - exists []. rewrite (loadCache_durable_hit this c w v); try done.
    + simpl. split; [by rewrite app_nil_r|lia].
    + by rewrite Hv.
  -     exists [request_of (client c) (bulk_endpoint c)]. split; [|simpl; lia].
    pose proof (Client_get_fetchLog (client c) (bulk_endpoint c) true w) as Hlog.
    destruct (Client_get (client c) (bulk_endpoint c) true w) as [[x|e|] w1] eqn:Hget;
      simpl in Hlog.
    + pose proof (loadCache_fetch_ok this c w w1 x Hthis Hmiss' Hget) as Hload.
      simpl in Hload. rewrite Hload.
      destruct (useFileCache c && truthy x); [|done].
      by rewrite (unchanged_writeCacheToFile fetchLog _ _
                    (fun _ _ => eq_refl) (fun _ _ => eq_refl)).
    + by rewrite (loadCache_fetch_throws this c w w1 e Hthis Hmiss' Hget).
    + by rewrite (loadCache_fetch_hangs this c w w1 Hthis Hmiss' Hget).
Qed.

Lemma getFlag_requests (this : loc) (name : string) (w : World) :
  exists l, fetchLog (snd (getFlag this name w)) = (fetchLog w ++ l)%list
            /\ (length l <= 1)%nat.
Proof.
  destruct (heap w !! this) as [c|] eqn:Hthis.
  2: { exists []. unfold getFlag, bind, get_this. rewrite Hthis. simpl.
       split; [by rewrite app_nil_r|lia]. }
  unfold getFlag. rewrite (bind_ok _ _ _ _ _ (get_this_ok _ _ _ Hthis)).
  destruct (cacheEnabled c).
  - assert (Hk : unchanged fetchLog
              (c0 <- get_this this ;;
               v0 <- lift (get_property (flagCache c0) name) ;;
               ret (nullish_coalesce v0 VNull))) by frame.
    unfold bind at 1. destruct (is_null (flagCache c)).
    + destruct (loadCache_requests this w) as (l & Hl & Hlen).
      exists l. split; [|done]. rewrite <- Hl.
      destruct (loadCache this w) as [[[]|e|] w1]; simpl; [apply Hk|done..].
    + exists []. simpl. rewrite app_nil_r. split; [apply Hk|lia].
  - exists [request_of (client c) ("flag/" +:+ environment c +:+ "/" +:+ name)].
    split; [apply Client_get_fetchLog|simpl; lia].
Qed.

(** No call sends more than one request. Each of [getFlag], [isEnabled],
    [warmCache] and [clearCache], on any reference, in any world and
    whatever its outcome, leaves the log of requests as it was or adds one
    request to it; [clearCache] adds none. *)
Theorem at_most_one_request_per_call (this : loc) (call : Call) (w : World) :
  exists l,
    fetchLog (run_call this call w) = (fetchLog w ++ l)%list
    /\ (length l <= 1)%nat
    /\ (call = CallClearCache -> l = []).
Proof.
  destruct call as [name|name| |]; simpl.
  - destruct (getFlag_requests this name w) as (l & Hl & Hlen). by exists l.
  - destruct (getFlag_requests this name w) as (l & Hl & Hlen).
    exists l. split; [|done]. rewrite <- Hl. unfold isEnabled, bind.
    by destruct (getFlag this name w) as [[v|e|] w1].
  - destruct (heap w !! this) as [c|] eqn:Hthis.
    + unfold warmCache. rewrite (bind_ok _ _ _ _ _ (get_this_ok _ _ _ Hthis)).
      destruct (cacheEnabled c).
      * destruct (loadCache_requests this w) as (l & Hl & Hlen). by exists l.
      * exists []. simpl. split; [by rewrite app_nil_r|split; [lia|done]].
    + exists []. unfold warmCache, bind, get_this. rewrite Hthis. simpl.
      split; [by rewrite app_nil_r|split; [lia|done]].
  - exists []. rewrite app_nil_r. split; [|split; [simpl; lia|done]].
    apply (unchanged_clearCache fetchLog); [done|].
    intros v. by apply unchanged_set_flagCache.
Qed.

End RequestBudget.

(** * Concrete inputs *)

(** C1. A cache file holds the old snapshot [{"a":true,"b":5}] and
    [writeCacheToFile] replaces it with [{"a":false}]. A reader (or a crash)
    between the steps of the protocol finds the old content before and
    after the first step, the new content after the third and the fourth,
    and no file at all after the second: neither the old content nor the
    new. [loadCacheFromFile] returns [null] there. *)
Theorem write_protocol_unlink_window :
  let old := Demo.json_ab in
  let data := VObj Demo.snapshot_a_off in
  let new := Demo.json_a_off in
  let w := Demo.cached_world 999000 in
  let after (k : nat) :=
    snd (run_steps (take k (@write_steps Demo.runtime "/tmp/flags.json" data)) w) in
  @JSON_stringify Demo.runtime data = new
  /\ observe "/tmp/flags.json" (after 0%nat) = Some old
  /\ observe "/tmp/flags.json" (after 1%nat) = Some old
  /\ observe "/tmp/flags.json" (after 2%nat) = None
  /\ observe "/tmp/flags.json" (after 3%nat) = Some new
  /\ observe "/tmp/flags.json" (after 4%nat) = Some new
  /\ after 4%nat = snd (@writeCacheToFile Demo.runtime "/tmp/flags.json" data w)
  /\ fst (@loadCacheFromFile Demo.runtime "/tmp/flags.json" 300 (after 2%nat)) = Ok VNull.
Proof. vm_compute. repeat split. Qed.

(** C2. A cache-enabled client loads the snapshot [{}] from the bulk
    endpoint. ["constructor"] is no key of it, yet
    [getFlag("constructor")] returns the member inherited from
    [Object.prototype], not [null]; [getFlag("missing")] returns [null]. *)
Theorem getFlag_inherited_name_is_not_null :
  @JSON_parse Demo.runtime "{}" = Some (VObj ∅)
  /\ (∅ : gmap string jsval) !! "constructor" = None
  /\ fst (@getFlag Demo.runtime 1%positive "constructor" Demo.empty_snapshot_world)
     = Ok (VBuiltin "constructor")
  /\ fst (@getFlag Demo.runtime 1%positive "missing" Demo.empty_snapshot_world)
     = Ok VNull.
Proof. vm_compute. repeat split. Qed.

(** C3, counterexample: the ttl is the double nearest to 0.1, a little
    above it, the record was last modified at 999900 ms and is read at
    1000000 ms, strictly before the record's time plus the ttl. The content
    is readable and parses to a plain object, yet the read returns [null]:
    the product [ttl * 1000] rounds to 100, the age of the record. *)
Lemma loadCacheFromFile_rounds_the_product :
  let ttl := (3602879701896397 # 36028797018963968)%Q in
  let w := Demo.cached_world 999900 in
  Binary64.is_float ttl = true
  /\ fs w !! "/tmp/flags.json" = Some (Demo.cache_record 999900)
  /\ now w = 1000000
  /\ (inject_Z (now w) < 999900 + ttl * 1000)%Q
  /\ faults w (OpStat "/tmp/flags.json") = NoFault
  /\ faults w (OpReadFile "/tmp/flags.json") = NoFault
  /\ @JSON_parse Demo.runtime (contents (Demo.cache_record 999900))
     = Some (VObj Demo.snapshot_ab)
  /\ @loadCacheFromFile Demo.runtime "/tmp/flags.json" ttl w = (Ok VNull, w).
Proof. vm_compute. repeat split. Qed.

(** C3 (as amended) at a ttl of 300 s, read at 1000000 ms: a record last
    modified at 700000 ms is expired, one last modified a millisecond later
    is valid. *)
Lemma loadCacheFromFile_expiry_boundary_witness :
  @loadCacheFromFile Demo.runtime "/tmp/flags.json" 300 (Demo.cached_world 700000)
  = (Ok VNull, Demo.cached_world 700000)
  /\ @loadCacheFromFile Demo.runtime "/tmp/flags.json" 300 (Demo.cached_world 700001)
     = (Ok (VObj Demo.snapshot_ab), Demo.cached_world 700001).
Proof.
  split.
  - apply (proj1 (@loadCacheFromFile_expiry_boundary Demo.runtime "/tmp/flags.json" 300
                    (Demo.cached_world 700000) (Demo.cache_record 700000) eq_refl)).
    vm_compute. discriminate.
  - destruct (proj2 (@loadCacheFromFile_expiry_boundary Demo.runtime "/tmp/flags.json"
                       300 (Demo.cached_world 700001) (Demo.cache_record 700001) eq_refl)
                eq_refl eq_refl Demo.snapshot_ab eq_refl) as (_ & _ & _ & Hfresh).
    apply (Hfresh 700001 300000); [reflexivity|reflexivity|lia|simpl; lia|simpl; lia].
Defined.

(** C4 at a missing file and at a file older than the ttl. *)
Lemma loadCacheFromFile_fails_closed_witness :
  @loadCacheFromFile Demo.runtime "/tmp/other.json" 300 (Demo.cached_world 700001)
  = (Ok VNull, Demo.cached_world 700001)
  /\ @loadCacheFromFile Demo.runtime "/tmp/flags.json" 300 (Demo.cached_world 5)
     = (Ok VNull, Demo.cached_world 5).
Proof.
  split.
  - apply (proj1 (proj2 (@loadCacheFromFile_fails_closed Demo.runtime
             "/tmp/other.json" 300 (Demo.cached_world 700001)))).
    reflexivity.
  - apply (proj2 (proj2 (proj2 (@loadCacheFromFile_fails_closed Demo.runtime
             "/tmp/flags.json" 300 (Demo.cached_world 5))))
             (Demo.cache_record 5)).
    + reflexivity.
    + vm_compute. discriminate.
Defined.


(** In a browser, a body that nothing ends: the response arrives after
    20 ms, within the timeout of 10000 ms, and the call does not settle. *)
Example Client_get_hangs_on_stalled_body :
  client_timeout Demo.transport = 10000
  /\ net Demo.stalled_body_world (request_of Demo.transport "flag/production/feature_x")
     = Responds 20 {| status := 200; body := BodyStalls |}
  /\ fst (@Client_get Demo.browser Demo.transport "flag/production/feature_x" false
            Demo.stalled_body_world)
     = Hang.
Proof. vm_compute. repeat split. Qed.


(** C6 at a read-only cache location (scenario D). *)
Lemma getFlag_survives_write_failure_witness :
  exists w',
    @getFlag Demo.runtime 1%positive "a" Demo.write_failure_world = (Ok (VBool true), w')
    /\ console w'
       = [("Phlag: Unable to write cache file: /tmp/flags.json",
           "EACCES: permission denied")].
Proof.
  destruct (@getFlag_survives_write_failure Demo.runtime 1%positive
              (Demo.instance true VNull) "a" Demo.write_failure_world
              (snd (@Client_get Demo.runtime (client (Demo.instance true VNull))
                      (bulk_endpoint (Demo.instance true VNull)) true
                      Demo.write_failure_world))
              (VObj Demo.snapshot_ab))
    as (x & w' & Hx & Hflag & _ & Hlog).
  - reflexivity.
  - reflexivity.
  - reflexivity.
  - reflexivity.
  - intros _. vm_compute. reflexivity.
  - vm_compute. reflexivity.
  - reflexivity.
  - exists w'. split.
    + rewrite Hflag. vm_compute in Hx. by injection Hx as <-.
    + apply (Hlog "EACCES: permission denied" None). left. reflexivity.
Defined.

(** C7 at a client Loaded with [{"a":true,"b":5}] (scenario C). *)
Lemma loaded_is_terminal_under_getFlag_witness :
  @getFlag Demo.runtime 1%positive "b" Demo.loaded_world = (Ok (VNum 5), Demo.loaded_world)
  /\ @getFlag Demo.runtime 1%positive "c" Demo.loaded_world = (Ok VNull, Demo.loaded_world)
  /\ @transport_calls jsval (@getFlag Demo.runtime 1%positive "c")
       (@run_calls Demo.runtime 1%positive [CallGetFlag "a"; CallGetFlag "b"]
          Demo.loaded_world)
     = 0%nat.
Proof.
  destruct (@loaded_is_terminal_under_getFlag Demo.runtime 1%positive
              (Demo.instance true (VObj Demo.snapshot_ab)) Demo.loaded_world)
    as (Hanswer & Hcalls & _).
  - reflexivity.
  - reflexivity.
  - discriminate.
  - split; [apply (Hanswer "b")|split; [apply (Hanswer "c")|]].
    apply (Hcalls ["a"; "b"] "c").
Defined.

(** C8 at the same client and the environment [staging] (scenario F). On
    Node the new instance has the location derived for [staging], which is
    neither the original's cache file nor the location derived for
    [production], and calls on it leave the original alone. In the browser,
    on an instance that was given its cache file, the call throws. *)
Lemma withEnvironment_derives_new_instance_witness :
  (exists new c',
     @withEnvironment Demo.runtime 1%positive "staging" Demo.loaded_world
     = (Ok new, set_heap (<[new := c']> (heap Demo.loaded_world)) Demo.loaded_world)
     /\ environment c' = "staging"
     /\ Empty c'
     /\ cacheFile c' = "/tmp/phlag_cache_8296877b829b67537587127078116314.json"
     /\ cacheFile c' <> "/tmp/phlag_cache_bd3f94ca5c558e658bd623619cfb4907.json"
     /\ cacheFile c' <> cacheFile (Demo.instance true (VObj Demo.snapshot_ab))
     /\ heap (@run_calls Demo.runtime new [CallGetFlag "a"; CallClearCache]
                (set_heap (<[new := c']> (heap Demo.loaded_world)) Demo.loaded_world))
          !! 1%positive
        = Some (Demo.instance true (VObj Demo.snapshot_ab)))
  /\ @PhlagClient_constructor Demo.browser (Demo.options true) = Ok Demo.browser_instance
  /\ @withEnvironment Demo.browser 1%positive "staging" Demo.browser_world
     = (Throw ReferenceError, Demo.browser_world).
Proof.
  split; [|split; [reflexivity|]].
  - destruct (proj1 (@withEnvironment_derives_new_instance Demo.runtime 1%positive
                       (Demo.instance true (VObj Demo.snapshot_ab)) "staging"
                       Demo.loaded_world eq_refl) eq_refl)
      as (new & c' & Hcall & _ & _ & _ & _ & _ & _ & _ & _ & Henv & Hempty
          & Hlocation & Hsame & Hframe & _).
    assert (Hstaging : cacheFile c'
                       = "/tmp/phlag_cache_8296877b829b67537587127078116314.json").
    { rewrite Hlocation. vm_compute. reflexivity. }
    exists new, c'.
    split; [exact Hcall|split; [exact Henv|split; [exact Hempty|split; [exact Hstaging|]]]].
    split; [|split; [|apply Hframe]].
    + intros Hproduction. apply Hsame in Hproduction. vm_compute in Hproduction.
      discriminate.
    + rewrite Hstaging. discriminate.
  - apply (proj2 (@withEnvironment_derives_new_instance Demo.browser 1%positive
                    Demo.browser_instance "staging" Demo.browser_world eq_refl)).
    reflexivity.
Defined.

(** C9 at a server that answers 200 with an empty body. *)
Lemma getFlag_null_bulk_result_witness :
  exists w',
    @getFlag Demo.runtime 1%positive "a" Demo.empty_body_world
    = (Throw (EError "TypeError" "Cannot read properties of null (reading 'a')"), w')
    /\ heap w' !! 1%positive = Some (Demo.instance true VNull)
    /\ length (fetchLog w') = 1%nat
    /\ length (fetchLog (snd (@getFlag Demo.runtime 1%positive "a" w'))) = 2%nat.
Proof.
  destruct (@getFlag_null_bulk_result Demo.runtime 1%positive
              (Demo.instance true VNull) "a" Demo.empty_body_world
              (snd (@Client_get Demo.runtime (client (Demo.instance true VNull))
                      (bulk_endpoint (Demo.instance true VNull)) true
                      Demo.empty_body_world)))
    as (w' & Hflag & _ & Hheap & Hlog & Hnext).
  - reflexivity.
  - reflexivity.
  - reflexivity.
  - intros _. vm_compute. reflexivity.
  - vm_compute. reflexivity.
  - exists w'. split; [exact Hflag|]. split; [exact Hheap|].
    split; [by rewrite Hlog|]. by rewrite (Hnext "a"), Hlog.
Defined.

(** C10. The pairs [("http://x|a", "b")] and [("http://x", "a|b")] are not
    character-identical, and the two clients derive one cache location,
    on Node with MD5 as with any digest: the hashed string is
    [http://x|a|b] for both. So it is for the server under [/a|b] with the
    environment [c] and the server under [/a] with the environment [b|c].
    The other half of the claim holds at its own example: the clients of
    [http://x] and [http://x/] derive different locations and send the same
    request. *)
Theorem distinct_pairs_share_one_cache_file :
  ("http://x|a", "b") <> ("http://x", "a|b")
  /\ (exists c1 c2,
        @PhlagClient_constructor Demo.runtime (Demo.default_options "http://x|a" "b")
        = Ok c1
        /\ @PhlagClient_constructor Demo.runtime (Demo.default_options "http://x" "a|b")
           = Ok c2
        /\ cacheFile c1 = "/tmp/phlag_cache_cc9530ac574a6cda0b6ec39b1ed03bc4.json"
        /\ cacheFile c2 = "/tmp/phlag_cache_cc9530ac574a6cda0b6ec39b1ed03bc4.json")
  /\ (forall rt : Runtime,
        @generateCacheFilename rt "http://x|a" "b" None
        = @generateCacheFilename rt "http://x" "a|b" None)
  /\ @generateCacheFilename Demo.runtime "http://x/a|b" "c" None
     = @generateCacheFilename Demo.runtime "http://x/a" "b|c" None
  /\ (exists c1 c2,
        @PhlagClient_constructor Demo.runtime (Demo.default_options "http://x" "production")
        = Ok c1
        /\ @PhlagClient_constructor Demo.runtime
             (Demo.default_options "http://x/" "production")
           = Ok c2
        /\ cacheFile c1 = "/tmp/phlag_cache_bdb244b84cce643da3d91ef149b887f3.json"
        /\ cacheFile c2 = "/tmp/phlag_cache_f6c3d43485c7d592412897b789f25ebd.json"
        /\ request_of (client c1) "all-flags/production"
           = request_of (client c2) "all-flags/production").
Proof.
  split; [discriminate|split; [|split; [reflexivity|split; [reflexivity|]]]].
  - eexists _, _. split; [reflexivity|split; [reflexivity|]].
    split; vm_compute; reflexivity.
  - eexists _, _. split; [reflexivity|split; [reflexivity|]].
    repeat split; vm_compute; reflexivity.
Qed.

(** The default locations at [http://x] and [http://x/]. *)
Lemma default_cache_location_hashes_raw_base_url_witness :
  exists c1 c2,
    @PhlagClient_constructor Demo.runtime (Demo.default_options "http://x" "production")
    = Ok c1
    /\ @PhlagClient_constructor Demo.runtime (Demo.default_options "http://x/" "production")
       = Ok c2
    /\ cacheFile c1 <> cacheFile c2
    /\ request_of (client c1) "all-flags/production"
       = request_of (client c2) "all-flags/production".
Proof.
  destruct (@default_cache_location_hashes_raw_base_url Demo.runtime
              (Demo.default_options "http://x" "production")
              (Demo.default_options "http://x/" "production") eq_refl eq_refl eq_refl)
    as (c1 & c2 & Hc1 & Hc2 & _ & _ & _ & _ & Hslash).
  destruct (Hslash eq_refl eq_refl) as (_ & Hdiffer & Hsame).
  exists c1, c2. split; [exact Hc1|split; [exact Hc2|split]].
  - apply Hdiffer. vm_compute. discriminate.
  - apply Hsame; reflexivity.
Defined.

(** With caching enabled a 404 of the bulk endpoint surfaces as an
    [InvalidEnvironmentError], not as an [InvalidFlagError]. *)
Lemma getFlag_cached_never_flag_not_found_witness :
  fst (@getFlag Demo.runtime 1%positive "a" Demo.unknown_environment_world)
  = Throw (new_InvalidEnvironmentError "Environment not found: all-flags/production")
  /\ kind_of (new_InvalidEnvironmentError "Environment not found: all-flags/production")
     <> Some InvalidFlagError.
Proof.
  split; [vm_compute; reflexivity|].
  apply (@getFlag_cached_never_flag_not_found Demo.runtime 1%positive
           (Demo.instance true VNull) "a" Demo.unknown_environment_world);
    [reflexivity|reflexivity|vm_compute; reflexivity].
Defined.

(** Scenario C: ["c"] is no key of [{"a":true,"b":5}]. *)
Lemma getFlag_absent_name_witness :
  @getFlag Demo.runtime 1%positive "c" Demo.loaded_world = (Ok VNull, Demo.loaded_world).
Proof.
  apply (@getFlag_absent_name Demo.runtime 1%positive
           (Demo.instance true (VObj Demo.snapshot_ab)) Demo.snapshot_ab);
    reflexivity.
Defined.

(** The instance of the examples is the one the constructor builds. *)
Example constructor_builds_instance (cache : bool) :
  @PhlagClient_constructor Demo.runtime (Demo.options cache)
  = Ok (Demo.instance cache VNull).
Proof. by destruct cache. Qed.

(** Scenario A: cache disabled, the single-flag endpoint answers [true]. *)
Example scenario_A :
  fst (@getFlag Demo.runtime 1%positive "feature_x" Demo.switch_on_world) = Ok (VBool true)
  /\ fst (@isEnabled Demo.runtime 1%positive "feature_x" Demo.switch_on_world) = Ok true
  /\ fetchLog (snd (@getFlag Demo.runtime 1%positive "feature_x" Demo.switch_on_world))
     = [request_of Demo.transport "flag/production/feature_x"].
Proof. vm_compute. repeat split. Qed.

(** Scenario B: cache disabled, 404 on [flag/production/missing]. *)
Example scenario_B :
  fst (@getFlag Demo.runtime 1%positive "missing" Demo.not_found_world)
  = Throw (new_InvalidFlagError "Flag not found: flag/production/missing").
Proof. vm_compute. reflexivity. Qed.

(** Scenario C: one bulk call, then answers from memory. *)
Example scenario_C :
  let w0 := Demo.client_world Demo.no_faults (Demo.server 200 Demo.json_ab)
              (Demo.instance true VNull) in
  let w1 := snd (@getFlag Demo.runtime 1%positive "a" w0) in
  fst (@getFlag Demo.runtime 1%positive "a" w0) = Ok (VBool true)
  /\ fetchLog w1 = [request_of Demo.transport "all-flags/production"]
  /\ @getFlag Demo.runtime 1%positive "b" w1 = (Ok (VNum 5), w1)
  /\ @getFlag Demo.runtime 1%positive "c" w1 = (Ok VNull, w1)
  /\ observe "/tmp/flags.json" w1 = Some Demo.json_ab.
Proof. vm_compute. repeat split. Qed.

(** Scenario E: the derived location is a function of the two strings. *)
Example scenario_E (rt : Runtime) (baseUrl environment : string) (o1 o2 : PhlagClientOptions) :
  opt_baseUrl o1 = baseUrl -> opt_baseUrl o2 = baseUrl ->
  opt_environment o1 = environment -> opt_environment o2 = environment ->
  opt_cacheFile o1 = None -> opt_cacheFile o2 = None ->
  generateCacheFilename (opt_baseUrl o1) (opt_environment o1) (opt_cacheFile o1)
  = generateCacheFilename (opt_baseUrl o2) (opt_environment o2) (opt_cacheFile o2).
Proof.
  intros Hb1 Hb2 He1 He2 Hf1 Hf2.
  by rewrite Hb1, Hb2, He1, He2, Hf1, Hf2.
Qed.


(** Without caching a 404 of the single-flag endpoint reaches the caller
    as it is, and clearing does nothing. *)
Lemma cache_disabled_is_pass_through_witness :
  @getFlag Demo.runtime 1%positive "missing" Demo.not_found_world
  = @Client_get Demo.runtime Demo.transport "flag/production/missing" false
      Demo.not_found_world
  /\ clearCache 1%positive Demo.not_found_world
     = (Ok tt, Demo.not_found_world).
Proof.
  destruct (@cache_disabled_is_pass_through Demo.runtime 1%positive
              (Demo.instance false VNull) "missing" Demo.not_found_world
              eq_refl eq_refl)
    as (Hflag & _ & _ & Hclear).
  split; [exact Hflag|exact Hclear].
Defined.

(** MD5 on the test suite of RFC 1321 and on messages around the block
    size. *)
Example md5_test_vectors :
  MD5.md5_hex "" = "d41d8cd98f00b204e9800998ecf8427e"
  /\ MD5.md5_hex "a" = "0cc175b9c0f1b6a831c399e269772661"
  /\ MD5.md5_hex "abc" = "900150983cd24fb0d6963f7d28e17f72"
  /\ MD5.md5_hex "message digest" = "f96b697d7cb7938d525a2f31aaf161d0"
  /\ MD5.md5_hex "abcdefghijklmnopqrstuvwxyz" = "c3fcd3d76192e4007dfb496cca67e13b"
  /\ MD5.md5_hex "The quick brown fox jumps over the lazy dog"
     = "9e107d9d372bb6826bd81d3542a419d6"
  /\ MD5.md5_hex "aaaaaaaaaaaaaaaaaaaaaaaaaaaaaaaaaaaaaaaaaaaaaaaaaaaaaaa"
     = "ef1772b6dff9a122358552954ad0df65"
  /\ MD5.md5_hex "aaaaaaaaaaaaaaaaaaaaaaaaaaaaaaaaaaaaaaaaaaaaaaaaaaaaaaaa"
     = "3b0c8ac703f828b04c6c197006d17218"
  /\ MD5.md5_hex "aaaaaaaaaaaaaaaaaaaaaaaaaaaaaaaaaaaaaaaaaaaaaaaaaaaaaaaaaaaaaaaa"
     = "014842d480b571495a4a0363793f7367".
Proof. vm_compute. repeat split. Qed.

(** The default cache location of the README's client. *)
Example default_location_of_localhost :
  @generateCacheFilename Demo.runtime "http://localhost:8000" "production" None
  = Ok "/tmp/phlag_cache_bd3f94ca5c558e658bd623619cfb4907.json".
Proof. vm_compute. reflexivity. Qed.

(** Scenario A: the body [true] of the single-flag endpoint is decoded to
    the boolean. *)
Lemma Client_get_decodes_body_witness :
  fst (@Client_get Demo.runtime Demo.transport "flag/production/feature_x" false
         Demo.switch_on_world)
  = Ok (VBool true).
Proof.
  apply (proj1 (proj2 (@Client_get_decodes_body Demo.runtime Demo.transport
                         "flag/production/feature_x" false Demo.switch_on_world
                         20 1 {| status := 200; body := BodyText 1 "true" |} "true"
                         eq_refl eq_refl eq_refl eq_refl))).
  - discriminate.
  - reflexivity.
Defined.

(** The 404 of a flag endpoint carries the code 404. *)
Lemma Client_get_error_taxonomy_witness :
  fst (@Client_get Demo.runtime Demo.transport "flag/production/missing" false
         Demo.not_found_world)
  = Throw (new_InvalidFlagError "Flag not found: flag/production/missing")
  /\ instanceof_PhlagError
       (new_InvalidFlagError "Flag not found: flag/production/missing") = true
  /\ error_code (new_InvalidFlagError "Flag not found: flag/production/missing")
     = Some 404.
Proof.
  assert (H : fst (@Client_get Demo.runtime Demo.transport "flag/production/missing" false
                     Demo.not_found_world)
              = Throw (new_InvalidFlagError "Flag not found: flag/production/missing"))
    by (vm_compute; reflexivity).
  split; [exact H|].
  destruct (@Client_get_error_taxonomy Demo.runtime Demo.transport
              "flag/production/missing" false Demo.not_found_world _ H)
    as (Hinstance & _).
  split; [exact Hinstance|reflexivity].
Defined.


(** A record written 1 s ago, read with a ttl of 300 s. *)
Lemma loadCacheFromFile_hit_is_sound_witness :
  exists f,
    fs (Demo.cached_world 999000) !! "/tmp/flags.json" = Some f
    /\ faults (Demo.cached_world 999000) (OpStat "/tmp/flags.json") = NoFault
    /\ faults (Demo.cached_world 999000) (OpReadFile "/tmp/flags.json") = NoFault
    /\ (inject_Z (now (Demo.cached_world 999000)) < mtimeMs f + 300 * 1000)%Q
    /\ @JSON_parse Demo.runtime (contents f) = Some (VObj Demo.snapshot_ab)
    /\ is_plain_object (VObj Demo.snapshot_ab) = true.
Proof.
  apply (@loadCacheFromFile_hit_is_sound Demo.runtime "/tmp/flags.json" 300
           (Demo.cached_world 999000) (VObj Demo.snapshot_ab)).
  - vm_compute. reflexivity.
  - discriminate.
Defined.

(** Replacing [{"a":true,"b":5}] by [{"a":false}]. *)
Lemma writeCacheToFile_final_files_witness :
  @writeCacheToFile Demo.runtime "/tmp/flags.json" (VObj Demo.snapshot_a_off)
    (Demo.cached_world 5)
  = (Ok tt,
     set_fs (<["/tmp/flags.json" := {| contents := Demo.json_a_off; mtimeMs := 1000000 |}]>
               (delete "/tmp/flags.json.4242.tmp" (fs (Demo.cached_world 5))))
       (Demo.cached_world 5)).
Proof.
  apply (@writeCacheToFile_final_files Demo.runtime "/tmp/flags.json"
           (VObj Demo.snapshot_a_off) (Demo.cached_world 5)).
  reflexivity.
Defined.


(** A process restarts beside a record written 1 s ago; the server is
    silent. *)
Lemma getFlag_adopts_durable_record_witness :
  fst (@getFlag Demo.runtime 1%positive "b" (Demo.restart_world 999000 (fun _ => Stalls)))
  = Ok (VNum 5)
  /\ @transport_calls jsval (@getFlag Demo.runtime 1%positive "b")
       (Demo.restart_world 999000 (fun _ => Stalls))
     = 0%nat.
Proof.
  destruct (@getFlag_adopts_durable_record Demo.runtime 1%positive
              (Demo.instance true VNull) "b"
              (Demo.restart_world 999000 (fun _ => Stalls)) (VObj Demo.snapshot_ab))
    as (Hflag & Hcalls).
  - reflexivity.
  - reflexivity.
  - reflexivity.
  - reflexivity.
  - vm_compute. reflexivity.
  - discriminate.
  - split; [by rewrite Hflag|exact Hcalls].
Defined.

(** Two instances of one configuration, with a ttl of 300 s. A minute after
    the first has fetched, the first call of the second is answered from
    the file the first one wrote; five minutes after, the second instance
    sends a bulk fetch of its own. *)
Lemma second_instance_loads_from_shared_file_witness :
  let w1 := snd (@getFlag Demo.runtime 1%positive "a" Demo.two_instances_world) in
  fst (@getFlag Demo.runtime 2%positive "b" (elapse 60000 w1)) = Ok (VNum 5)
  /\ @transport_calls jsval (@getFlag Demo.runtime 2%positive "b") (elapse 60000 w1)
     = 0%nat
  /\ fetchLog (snd (@getFlag Demo.runtime 2%positive "b" (elapse 300000 w1)))
     = [request_of Demo.transport "all-flags/production";
        request_of Demo.transport "all-flags/production"].
Proof.
  pose proof (fun elapsed =>
    @second_instance_loads_from_shared_file Demo.runtime 1%positive 2%positive
      (Demo.instance true VNull) (Demo.instance true VNull) "a" "b"
      Demo.two_instances_world
      (snd (@Client_get Demo.runtime (client (Demo.instance true VNull))
              (bulk_endpoint (Demo.instance true VNull)) true
              Demo.two_instances_world))
      Demo.snapshot_ab elapsed
      ltac:(discriminate) eq_refl eq_refl eq_refl eq_refl eq_refl eq_refl eq_refl
      eq_refl eq_refl (fun _ => eq_refl) (fun _ => eq_refl) eq_refl eq_refl) as Hshared.
  cbv zeta in *.
  destruct (Hshared 60000) as (Hfresh & _ & Hwhole).
  destruct (Hshared 300000) as (_ & Hexpired & _).
  destruct (Hfresh (Hwhole eq_refl ltac:(lia) eq_refl)) as (Hflag & Hcalls & _).
  split; [exact Hflag|split; [exact Hcalls|]].
  apply Hexpired. vm_compute. discriminate.
Defined.

(** The server knows no such environment: the error surfaces, and the
    second call asks again. *)
Lemma getFlag_failed_fetch_is_not_cached_witness :
  fst (@getFlag Demo.runtime 1%positive "a" Demo.unknown_environment_world)
  = Throw (new_InvalidEnvironmentError "Environment not found: all-flags/production")
  /\ length (fetchLog
       (snd (@getFlag Demo.runtime 1%positive "b"
               (snd (@getFlag Demo.runtime 1%positive "a"
                       Demo.unknown_environment_world)))))
     = 2%nat.
Proof.
  destruct (@getFlag_failed_fetch_is_not_cached Demo.runtime 1%positive
              (Demo.instance true VNull) "a" Demo.unknown_environment_world
              (snd (@Client_get Demo.runtime (client (Demo.instance true VNull))
                      (bulk_endpoint (Demo.instance true VNull)) true
                      Demo.unknown_environment_world))
              (new_InvalidEnvironmentError "Environment not found: all-flags/production"))
    as (Hflag & _ & _ & _ & Hnext).
  - reflexivity.
  - reflexivity.
  - reflexivity.
  - intros _. vm_compute. reflexivity.
  - vm_compute. reflexivity.
  - rewrite Hflag. split; [reflexivity|]. cbn [snd]. by rewrite (Hnext "b").
Defined.

(** The server answers [{}]: the first [getFlag] returns [null] and the
    instance is Loaded with the empty snapshot. *)
Lemma getFlag_success_leaves_Loaded_witness :
  exists c',
    heap (snd (@getFlag Demo.runtime 1%positive "a" Demo.empty_snapshot_world))
      !! 1%positive = Some c'
    /\ Loaded c'
    /\ forall name',
         @getFlag Demo.runtime 1%positive name'
           (snd (@getFlag Demo.runtime 1%positive "a" Demo.empty_snapshot_world))
         = (@answer_from_memory Demo.runtime (flagCache c') name',
            snd (@getFlag Demo.runtime 1%positive "a" Demo.empty_snapshot_world)).
Proof.
  apply (@getFlag_success_leaves_Loaded Demo.runtime 1%positive
           (Demo.instance true VNull) "a" Demo.empty_snapshot_world
           (snd (@getFlag Demo.runtime 1%positive "a" Demo.empty_snapshot_world))
           VNull).
  - reflexivity.
  - reflexivity.
  - vm_compute. reflexivity.
Defined.

(** A client Loaded with [{"a":true,"b":5}] warms its cache while the
    server answers [{"a":false}]. *)
Lemma warmCache_reloads_witness :
  exists w',
    @warmCache Demo.runtime 1%positive
      (Demo.client_world Demo.no_faults (Demo.server 200 Demo.json_a_off)
         (Demo.instance true (VObj Demo.snapshot_ab)))
    = (Ok tt, w')
    /\ heap w' !! 1%positive = Some (Demo.instance true (VObj Demo.snapshot_a_off))
    /\ length (fetchLog w') = 1%nat.
Proof.
  destruct (proj2 (@warmCache_reloads Demo.runtime 1%positive
                     (Demo.instance true (VObj Demo.snapshot_ab))
                     (Demo.client_world Demo.no_faults (Demo.server 200 Demo.json_a_off)
                        (Demo.instance true (VObj Demo.snapshot_ab)))
                     eq_refl eq_refl)
              (VObj Demo.snapshot_a_off)
              (snd (@Client_get Demo.runtime
                      (client (Demo.instance true (VObj Demo.snapshot_ab)))
                      (bulk_endpoint (Demo.instance true (VObj Demo.snapshot_ab))) true
                      (Demo.client_world Demo.no_faults (Demo.server 200 Demo.json_a_off)
                         (Demo.instance true (VObj Demo.snapshot_ab))))))
    as (w' & Hwarm & Hheap & Hlog & _).
  - intros _. vm_compute. reflexivity.
  - vm_compute. reflexivity.
  - exists w'. split; [exact Hwarm|]. rewrite Hheap, Hlog. split; reflexivity.
Defined.

(** Clearing a Loaded client, then asking again. *)
Lemma clearCache_forces_refetch_witness :
  exists w',
    clearCache 1%positive Demo.loaded_world = (Ok tt, w')
    /\ heap w' !! 1%positive = Some (Demo.instance true VNull)
    /\ fetchLog (snd (@getFlag Demo.runtime 1%positive "a" w'))
       = [request_of Demo.transport "all-flags/production"].
Proof.
  destruct (@clearCache_forces_refetch Demo.runtime 1%positive
              (Demo.instance true (VObj Demo.snapshot_ab)) Demo.loaded_world)
    as (w' & Hclear & Hheap & _ & Hnext).
  - reflexivity.
  - reflexivity.
  - intros _. reflexivity.
  - exists w'. split; [exact Hclear|]. rewrite Hheap, (Hnext "a"). split; reflexivity.
Defined.

(** In a browser, a client with the [cache] option and a cache file of its
    own fetches, clears and warms without creating a file. *)
Lemma in_memory_client_never_touches_files_witness :
  @PhlagClient_constructor Demo.browser (Demo.options true) = Ok Demo.browser_instance
  /\ fs (@run_calls Demo.browser 1%positive
           [CallGetFlag "a"; CallClearCache; CallWarmCache] Demo.browser_world)
     = ∅
  /\ console (@run_calls Demo.browser 1%positive
                [CallGetFlag "a"; CallClearCache; CallWarmCache] Demo.browser_world)
     = [].
Proof.
  split; [reflexivity|].
  apply (@in_memory_client_never_touches_files Demo.browser 1%positive
           (Demo.options true) Demo.browser_instance VNull).
  - left. reflexivity.
  - reflexivity.
  - reflexivity.
Defined.

(** A record of the first millisecond, found at time 1000000 ms with a ttl
    of 300 s, is replaced by what the server answers. *)
Lemma expired_record_is_replaced_witness :
  exists w2,
    @getFlag Demo.runtime 1%positive "a" (Demo.restart_world 1 (Demo.server 200 Demo.json_a_off))
    = (Ok (VBool false), w2)
    /\ fs w2 !! "/tmp/flags.json"
       = Some {| contents := Demo.json_a_off; mtimeMs := 1000000 |}.
Proof.
  destruct (@expired_record_is_replaced Demo.runtime 1%positive
              (Demo.instance true VNull) "a"
              (Demo.restart_world 1 (Demo.server 200 Demo.json_a_off))
              (snd (@Client_get Demo.runtime (client (Demo.instance true VNull))
                      (bulk_endpoint (Demo.instance true VNull)) true
                      (Demo.restart_world 1 (Demo.server 200 Demo.json_a_off))))
              (Demo.cache_record 1) Demo.snapshot_a_off)
    as (w2 & Hflag & _ & Hrecord).
  - reflexivity.
  - reflexivity.
  - reflexivity.
  - reflexivity.
  - reflexivity.
  - vm_compute. discriminate.
  - reflexivity.
  - vm_compute. reflexivity.
  - exists w2. split; [exact Hflag|exact Hrecord].
Defined.

(** On the snapshot [{"a":true,"b":5}], the switch [a] is on; the number
    [b], the missing [c] and the inherited [constructor] are off. *)
Lemma isEnabled_reads_the_snapshot_witness :
  @isEnabled Demo.runtime 1%positive "a" Demo.loaded_world = (Ok true, Demo.loaded_world)
  /\ @isEnabled Demo.runtime 1%positive "b" Demo.loaded_world
     = (Ok false, Demo.loaded_world)
  /\ @isEnabled Demo.runtime 1%positive "c" Demo.loaded_world
     = (Ok false, Demo.loaded_world)
  /\ @isEnabled Demo.runtime 1%positive "constructor" Demo.loaded_world
     = (Ok false, Demo.loaded_world).
Proof.
  pose proof (fun name =>
    @isEnabled_reads_the_snapshot Demo.runtime 1%positive
      (Demo.instance true (VObj Demo.snapshot_ab)) name Demo.loaded_world
      Demo.snapshot_ab eq_refl eq_refl eq_refl) as Hswitch.
  split; [|split; [|split]].
  - destruct (Hswitch "a") as (enabled & Hcall & Hiff).
    rewrite Hcall. by rewrite (proj2 Hiff eq_refl).
  - destruct (Hswitch "b") as ([] & Hcall & Hiff); [|exact Hcall].
    by specialize (proj1 Hiff eq_refl).
  - destruct (Hswitch "c") as ([] & Hcall & Hiff); [|exact Hcall].
    by specialize (proj1 Hiff eq_refl).
  - destruct (Hswitch "constructor") as ([] & Hcall & Hiff); [|exact Hcall].
    by specialize (proj1 Hiff eq_refl).
Defined.

(** The README's client on Node, with no cache file named: the location is
    derived. The same options in the browser: the constructor throws. *)
Lemma new_PhlagClient_accessors_witness :
  (exists this w',
     @new_PhlagClient Demo.runtime
       (Demo.default_options "http://localhost:8000" "production")
       Demo.loaded_world
     = (Ok this, w')
     /\ @getEnvironment this w' = (Ok "production", w')
     /\ @getCacheFile this w'
        = (Ok "/tmp/phlag_cache_bd3f94ca5c558e658bd623619cfb4907.json", w'))
  /\ (exists this w',
        @new_PhlagClient Demo.browser (Demo.options true) Demo.browser_world
        = (Ok this, w')
        /\ @getCacheFile this w' = (Ok "/tmp/flags.json", w'))
  /\ @new_PhlagClient Demo.browser
       (Demo.default_options "http://localhost:8000" "production")
       Demo.browser_world
     = (Throw ReferenceError, Demo.browser_world).
Proof.
  split; [|split].
  - destruct (proj1 (@new_PhlagClient_accessors Demo.runtime
                       (Demo.default_options "http://localhost:8000" "production")
                       Demo.loaded_world) (or_introl eq_refl))
      as (this & w' & Hnew & _ & _ & Henv & _ & _ & _ & Hderived & _).
    exists this, w'. split; [exact Hnew|split; [exact Henv|]].
    rewrite (Hderived (or_introl eq_refl)). vm_compute. reflexivity.
  - destruct (proj1 (@new_PhlagClient_accessors Demo.browser (Demo.options true)
                       Demo.browser_world))
      as (this & w' & Hnew & _ & _ & _ & _ & _ & Hcustom & _).
    { right. exists "/tmp/flags.json". split; [reflexivity|discriminate]. }
    exists this, w'. split; [exact Hnew|].
    apply Hcustom; [reflexivity|discriminate].
  - apply (proj2 (@new_PhlagClient_accessors Demo.browser
                    (Demo.default_options "http://localhost:8000" "production")
                    Demo.browser_world));
      [reflexivity|left; reflexivity].
Defined.
